(* ===== verification/_CoqProject ===== *)
-Q . S2P
Prelude.v
Numeral.v
Negative.v
JsRegex.v
Patterns.v
World.v
Log.v
SpeechQueue.v
Command.v
Arbiter.v
Frame.v
