(* ===== verification/Prelude.v ===== *)
(** * Verification of the voice-command front end (src/speech.js)

    The program is one JavaScript class, SpeechHandler, and the script that
    binds it to the page.  It turns spoken Chinese commands into parameters
    of a calculator, reads the result back, and shares one audio device
    between speech recognition and speech synthesis.  Everything happens in
    listeners: of the recognition engine (result, end, error), of each
    utterance (end, error), of the window (focus, blur, keydown), of two
    buttons, and in three functions given to setTimeout.

    ** The files, and the code each models

    - [Prelude] (this file): JavaScript strings as lists of UTF-16 code units
      ([N]), a decoder that lets the development write the source's string
      literals verbatim ([js "三十五"]), scanning ([span]) and substring search
      ([includes], the model of String.prototype.includes), the count of
      decimal digits ([digits10], the model of decimal.toString().length),
      the shared tactics and the hint database [js].
    - [Numeral]: the numeral parser inside processCommand (lines 143-199):
      the table chineseNumbers (a [gmap] from code units to table values),
      the loop of parseChineseNumber as a left fold of [parse_step] over the
      text, [parse_finish] for the code after the loop, and parseArabicNumber
      with the fragment of parseFloat it relies on.
    - [Negative]: the array negativeIndicators and the test for a negative
      angle (lines 228-238).
    - [JsRegex]: the backtracking matcher of ECMAScript regular expressions,
      for the constructs the literals of the source use; [regex_test] and
      [match_group1] model RegExp.prototype.test and String.prototype.match.
    - [Patterns]: the five regular-expression literals (lines 202, 206, 219,
      381, 382) as syntax trees, and the scanner without backtracking they
      are proved equivalent to.
    - [World]: the state the methods run in and the monad they are written
      in.  [SpeechHandler] is the object (lines 12-15, 33-34); [browser] is
      the recognition session, the utterances in flight, the pending timers
      and the list of calls made to the two engines; [page] is the part of
      the document the code touches.  [M A] is a state monad on [world] with
      exceptions, [try_catch] its handler; [obeys R m] says that running [m]
      relates the state before to the state after by [R].
    - [Log]: createLogBox and addLog (lines 37-116).
    - [SpeechQueue]: speak, processSpeechQueue and the callbacks of the
      utterance (lines 262-317), with the queue of the design (idle, or
      speaking one text with others waiting) that they refine.
    - [Command]: processCommand (lines 141-260) and checkAndCalculate with
      the function it defers (lines 366-404), with the design's [extract],
      which finds the command of a transcript without regular expressions.
    - [Arbiter]: the constructor and its listeners (lines 5-35), the
      listeners of setupRecognition (lines 118-139), startListening and
      stopListening (lines 319-363), the click and keydown listeners (lines
      463-483), and the page as a transition system: [step] delivers one
      event and runs its listener to the end, [run] a sequence of events,
      [reachable] the states the page can get into from [init], the state
      after the script has run (lines 407-408).
    - [Frame]: no code of its own.  The class [Frame] of relations that the
      primitive writes of the methods respect, the proof that every method
      and every event then respects them, and its instances; the behaviour
      of the listeners while voice control is off.

    Each method is one definition in the monad, with the method's name, its
    guards from the conditions and early returns of the code, and every call
    that changes state in the order of the code.  For each there is a lemma
    that gives the state after it in closed form on every branch
    ([speak_run], [addLog_run], [startListening_run], ...), which the
    theorems rest on.

    ** Numbers and strings

    JavaScript numbers are IEEE-754 doubles.  The parser's loop variables
    result, temp, lastUnit and decimal only ever hold non-negative integers,
    so the model keeps them in [Z]; the value returned is a rational ([Q]).
    Doubles agree with this model as long as every intermediate integer
    stays below 2^53 (theorem [Numeral.parse_prefix_safe] bounds every state
    of the loop by the final one); a fraction part is idealised: the source
    rounds decimal / 10^k and the final sum to the nearest double, the model
    keeps the exact rational.  decimal.toString().length is the number of
    decimal digits of decimal, which is what [digits10] computes for values
    below 10^21 (above, JavaScript prints an exponent).  Numbers the handler
    stores or shows are kept in lowest terms ([Qred]), so that equal numbers
    are equal terms.  Math.round in the announcement of results is exact in
    the model; on doubles it can differ when a hundred times the value is
    within rounding error of a tie.

    A text built by a template literal is a [template], a list of literal
    pieces and numbers, so that no theorem depends on how a number prints.
    toLowerCase is modelled on the ASCII letters, which is all the tests of
    the source can tell apart.  The time stamp addLog puts before each line
    is left out.

    ** The browser

    The two speech engines, the timers and the document are not code of the
    repository; their model follows the Web Speech API and the DOM:
    - a recognition session is idle, capturing or stopping; start() on a
      session that is not idle throws InvalidStateError, stop() makes a
      capturing session stop; a result, an error and the end come only
      while a session is open, and since the session is not continuous
      (line 9) it stops capturing at its first result;
    - speechSynthesis.speak appends to the engine's queue, cancel empties
      it; the engine ends or fails the utterance at the head of its queue
      and calls that utterance's callback;
    - a timer fires once, at any time after it was set, in any order with
      the other timers and events (delays are recorded, not enforced);
    - an exception no listener catches ends the listener and leaves the
      state as it is at the throw.
    Events are delivered one at a time; a listener runs to its end.

    ** Fuel

    Two loops are not structural.  The removal loop of addLog ([trim_log])
    takes the number of children as fuel, which [trim_log_take] shows is
    enough for it to end with ten.  A quantifier of a regular expression
    ([repeat_match]) takes one more than its minimum plus the length of the
    remaining input; [repeat_match_fuel] shows that more fuel never changes
    a result.  [digits10], the length of a number printed in decimal, and
    the printer [toDecimal] of the round-trip statements divide by ten with
    the binary logarithm of their argument as fuel, which exceeds the number
    of decimal digits ([digits10_unique], [toDecimal_spec]).

    ** What the theorems show

    - Numerals: the parser state stays well formed; every standard numeral
      below ten thousand, as printed by [toChinese], parses to its value,
      and so does every Arabic digit string; fractions whose first digit is
      not zero are read as written; characters outside the table are
      skipped.  The deviations of the source are proved as they are: a unit
      that follows another unit receives an implicit one ("十万" is 110000),
      zeros that lead the fraction digits are lost ("三点零五" is 3.5), and
      digits without units overwrite one another ("35点5" is 5.5).
    - Patterns: the first group the distance and angle patterns capture is
      what the scanner finds, on every transcript; the test for an Arabic
      numeral accepts exactly digits, an optional dot, and digits.
    - Commands: on every transcript processCommand does what the design's
      [extract] and [apply_command] say, up to the lines it logs; the first
      pattern that matches wins; the sign of an angle comes from the words
      around the numeral, never from the numeral; the commands of the help
      panel evaluate to the values they name.
    - The queue: speak, processSpeechQueue and the end of an utterance refine
      enqueue, drain and complete of the design; in every reachable state
      the flag isSpeaking tells the truth about the engine, at most one
      utterance is in flight, and a waiting queue has a timer that will wake
      it; over any sequence of events texts are spoken in the order of the
      calls of speak; texts given to a quiet queue are all spoken.
    - Half duplex: every listener that tests the flags keeps the microphone
      and the speaker apart; startListening and the three deferred functions
      do not, and the traces that show it are checked by evaluation.  Since
      the model lets a pending timer fire at any time, a trace is a finding
      only if the order of its timers agrees with their delays; each trace
      says how.  Other
      traces show a call of start() on an open session outside any try, and
      a state in which the page is told to listen and nothing will ever
      start recognition again.
    - While isListening is false no listener starts recognition or
      schedules a start; a start scheduled before stopListening still fires
      after it, and the command heard then is carried out.
    - The remembered distance and angle are never cleared.
    - The log panel shows the ten newest entries, newest first; in every
      reachable state the log box exists whenever addLog runs, so its
      branch for a missing box is never taken.

    ** Not modelled

    The DOMContentLoaded handler apart from the listeners it registers (the
    buttons, the tips and the help text it builds: lines 411-461 and
    485-503), the styles of the log box, and the Notification calls of
    startListening and stopListening: user-interface code that no state of
    the handler depends on.  The calculator is present only as the event
    that writes the text of #results.

    Two assumptions go with this.  Notification.requestPermission() stands
    inside the try of startListening (lines 331-339) and is taken to return;
    in a browser where it throws, the catch would run after recognition has
    started and the confirmation has been queued.  document.getElementById
    is taken to find the input fields and the buttons (lines 211, 247, 257,
    369, 372), which the code uses without a test; only for the log box and
    for #results, which the code tests, is the missing element modelled. *)

From Stdlib Require Import ZArith NArith QArith Lia String Ascii.
From Stdlib.Strings Require Import Byte.
From stdpp Require Import base tactics option list numbers.

(** ** Code units and strings *)

(** A JavaScript string is a sequence of UTF-16 code units.  Every character
    src/speech.js mentions lies in the Basic Multilingual Plane, so one
    character is one code unit there.  Strings are [list N] throughout. *)

Definition byte_val (b : byte) : N := N.of_nat (Byte.to_nat b).

(** Continuation bits of a UTF-8 byte. *)
Definition cont6 (b : N) : N := N.land b 0x3F.

(** UTF-8 bytes to UTF-16 code units; a truncated sequence yields U+FFFD. *)
Fixpoint utf16_of_utf8 (bs : list N) : list N :=
  match bs with
  | [] => []
  | b0 :: t0 =>
    if (b0 <? 0x80)%N then b0 :: utf16_of_utf8 t0 else
    match t0 with
    | [] => [0xFFFD%N]
    | b1 :: t1 =>
      if (b0 <? 0xE0)%N
      then (N.shiftl (N.land b0 0x1F) 6 + cont6 b1)%N :: utf16_of_utf8 t1 else
      match t1 with
      | [] => [0xFFFD%N]
      | b2 :: t2 =>
        if (b0 <? 0xF0)%N
        then (N.shiftl (N.land b0 0x0F) 12 + N.shiftl (cont6 b1) 6 + cont6 b2)%N
             :: utf16_of_utf8 t2 else
        match t2 with
        | [] => [0xFFFD%N]
        | b3 :: t3 =>
          let cp := (N.shiftl (N.land b0 0x07) 18 + N.shiftl (cont6 b1) 12
                     + N.shiftl (cont6 b2) 6 + cont6 b3)%N in
          let v := (cp - 0x10000)%N in
          (0xD800 + N.shiftr v 10)%N :: (0xDC00 + N.land v 0x3FF)%N
            :: utf16_of_utf8 t3
        end
      end
    end
  end.

(** The code units of a string literal of this development: the literal is
    stored as UTF-8 bytes, JavaScript sees UTF-16. *)
Definition js (s : string) : list N :=
  utf16_of_utf8 (map byte_val (list_byte_of_string s)).

(** ** Character tests shared by the components *)

(** [\d] of a JavaScript regular expression, and the digit test of
    [parseFloat]: the ASCII digits only. *)
Definition is_digit (c : N) : bool := ((0x30 <=? c) && (c <=? 0x39))%N.

(** Numeric value of an ASCII digit. *)
Definition digit_val (c : N) : Z := Z.of_N c - 0x30.

(** White space and line terminators of ECMAScript (the class [\s]). *)
Definition is_space (c : N) : bool :=
  bool_decide (c ∈ [0x09; 0x0A; 0x0B; 0x0C; 0x0D; 0x20; 0xA0; 0x1680; 0x2028;
                    0x2029; 0x202F; 0x205F; 0x3000; 0xFEFF]%N)
  || ((0x2000 <=? c) && (c <=? 0x200A))%N.

(** ** Scanning *)

(** [span p l] splits [l] after its longest prefix of elements satisfying [p]:
    what a greedy character-class loop consumes. *)
Fixpoint span {A} (p : A -> bool) (l : list A) : list A * list A :=
  match l with
  | [] => ([], [])
  | x :: l' =>
    if p x then let '(a, b) := span p l' in (x :: a, b) else ([], l)
  end.

(** [includes s t]: [t] occurs in [s] as a contiguous substring
    ([String.prototype.includes]). *)
Fixpoint includes (s t : list N) : bool :=
  bool_decide (t `prefix_of` s)
  || match s with [] => false | _ :: s' => includes s' t end.

(** Number of decimal digits of a non-negative integer, at least one:
    the length of [Number.prototype.toString] on an integer below 10^21. *)
Fixpoint digits10_fuel (fuel : nat) (z : Z) : nat :=
  match fuel with
  | O => 1
  | S f => if (z <? 10)%Z then 1 else S (digits10_fuel f (z / 10))
  end.

Definition digits10 (z : Z) : nat := digits10_fuel (Z.to_nat (Z.log2 z)) z.

(** Value of a sequence of decimal digits, most significant first, continuing
    from [acc]: the accumulation [acc = acc * 10 + d] both parsers perform. *)
Definition decimal_val_from (acc : Z) (ds : list Z) : Z :=
  fold_left (fun a d => (a * 10 + d)%Z) ds acc.

Definition decimal_val (ds : list Z) : Z := decimal_val_from 0 ds.

Definition is_dec_digit (d : Z) : Prop := (0 <= d <= 9)%Z.

(** ** Tactics *)

(** Turn the boolean tests of the model into propositions [lia] reads. *)
Ltac boolify :=
  repeat match goal with
  | H : (_ && _) = true |- _ => apply andb_prop in H; destruct H
  | H : (_ || _) = false |- _ => apply orb_false_elim in H; destruct H
  | H : negb _ = true |- _ => apply negb_true_iff in H
  | H : negb _ = false |- _ => apply negb_false_iff in H
  | H : bool_decide _ = true |- _ => apply bool_decide_eq_true_1 in H
  | H : bool_decide _ = false |- _ => apply bool_decide_eq_false_1 in H
  | H : (_ <=? _)%Z = true |- _ => apply Z.leb_le in H
  | H : (_ <=? _)%Z = false |- _ => apply Z.leb_gt in H
  | H : (_ <? _)%Z = true |- _ => apply Z.ltb_lt in H
  | H : (_ <? _)%Z = false |- _ => apply Z.ltb_ge in H
  | H : (_ =? _)%Z = true |- _ => apply Z.eqb_eq in H
  | H : (_ =? _)%Z = false |- _ => apply Z.eqb_neq in H
  | H : (_ <=? _)%N = true |- _ => apply N.leb_le in H
  | H : (_ <=? _)%N = false |- _ => apply N.leb_gt in H
  | H : (_ <? _)%N = true |- _ => apply N.ltb_lt in H
  | H : (_ <? _)%N = false |- _ => apply N.ltb_ge in H
  | H : (_ =? _)%N = true |- _ => apply N.eqb_eq in H
  | H : (_ =? _)%N = false |- _ => apply N.eqb_neq in H
  end.

(** [lia] after division and modulo by constants are turned into their
    Euclidean equations. *)
Ltac divlia := Z.to_euclidean_division_equations; lia.

(** Close a decidable goal without variables by evaluation. *)
Ltac by_compute := apply (bool_decide_unpack _); vm_compute; exact I.

(** Case analysis on the first [if] or [match] scrutinee of the goal. *)
Ltac split_if :=
  match goal with
  | |- context [if ?b then _ else _] => destruct b eqn:?
  end.

Create HintDb js discriminated.
Create Rewrite HintDb js.

(** ** Lemmas on [span] *)

Section span.
Context {A : Type} (p : A -> bool).

Lemma span_app (l : list A) : (span p l).1 ++ (span p l).2 = l.
Proof.
  induction l as [|x l IH]; simpl; [done|].
  destruct (p x); [|done]. destruct (span p l) as [a b]; simpl in *. by f_equal.
Qed.

Lemma span_fst_Forall (l : list A) : Forall (fun x => p x = true) (span p l).1.
Proof.
  induction l as [|x l IH]; simpl; [constructor|].
  destruct (p x) eqn:E; [|constructor].
  destruct (span p l) as [a b]; simpl in *. by constructor.
Qed.

Lemma span_snd_head (l : list A) x r : (span p l).2 = x :: r -> p x = false.
Proof.
  induction l as [|y l IH]; simpl; [done|].
  destruct (p y) eqn:E.
  - destruct (span p l) as [a b]; simpl in *. exact IH.
  - simpl. by intros [= <- <-].
Qed.

(** The split is determined by its two defining properties. *)
Lemma span_unique (a b : list A) :
  Forall (fun x => p x = true) a ->
  match b with [] => True | x :: _ => p x = false end ->
  span p (a ++ b) = (a, b).
Proof.
  intros Ha Hb. induction Ha as [|x a Hx Ha IH]; simpl.
  - destruct b as [|x b]; [done|]. simpl. by rewrite Hb.
  - by rewrite Hx, IH.
Qed.

Lemma span_all (l : list A) :
  Forall (fun x => p x = true) l -> span p l = (l, []).
Proof. intros H. rewrite <- (app_nil_r l) at 1. by apply span_unique. Qed.

Lemma span_stop (x : A) (l : list A) : p x = false -> span p (x :: l) = ([], x :: l).
Proof. intros H. simpl. by rewrite H. Qed.

Lemma forallb_Forall (l : list A) : forallb p l = true <-> Forall (fun x => p x = true) l.
Proof.
  induction l as [|x l IH]; simpl; [by split; [constructor|]|].
  rewrite andb_true_iff, IH. split; [intros []; by constructor|by inversion 1].
Qed.

(** Nothing is left exactly when the whole list is in the class. *)
Lemma span_snd_nil (l : list A) : (span p l).2 = [] <-> Forall (fun x => p x = true) l.
Proof.
  split; [|intros H; by rewrite span_all].
  intros H. rewrite <- (span_app l), H, app_nil_r. apply span_fst_Forall.
Qed.

End span.

#[export] Hint Resolve span_fst_Forall : js.
#[export] Hint Rewrite @span_app : js.

(** ** Lemmas on [includes] *)

Lemma includes_spec (s t : list N) :
  includes s t = true <-> exists l1 l2, s = l1 ++ t ++ l2.
Proof.
  induction s as [|c s IH]; simpl.
  - rewrite orb_false_r, bool_decide_eq_true. split.
    + intros [k Hk]. exists [], k. done.
    + intros (l1 & l2 & H). symmetry in H.
      apply app_eq_nil in H as [-> H]. apply app_eq_nil in H as [-> _].
      by exists [].
  - rewrite orb_true_iff, bool_decide_eq_true, IH. split.
    + intros [[k Hk]|(l1 & l2 & ->)].
      * exists [], k. done.
      * exists (c :: l1), l2. done.
    + intros (l1 & l2 & H). destruct l1 as [|c' l1]; simpl in H.
      * left. by exists l2.
      * injection H as -> ->. right. by exists l1, l2.
Qed.

(** A string that occurs brings its prefixes with it. *)
Lemma includes_prefix (s a b : list N) : includes s (a ++ b) = true -> includes s a = true.
Proof.
  rewrite !includes_spec. intros (l1 & l2 & ->). exists l1, (b ++ l2).
  by rewrite <- app_assoc.
Qed.

Lemma includes_nil (s : list N) : includes s [] = true.
Proof. apply includes_spec. by exists [], s. Qed.

Lemma includes_app_l (s1 s2 t : list N) :
  includes s2 t = true -> includes (s1 ++ s2) t = true.
Proof.
  rewrite !includes_spec. intros (l1 & l2 & ->).
  exists (s1 ++ l1), l2. by rewrite <- app_assoc.
Qed.

Lemma includes_app_r (s1 s2 t : list N) :
  includes s1 t = true -> includes (s1 ++ s2) t = true.
Proof.
  rewrite !includes_spec. intros (l1 & l2 & ->).
  exists l1, (l2 ++ s2). by rewrite <- !app_assoc.
Qed.

Lemma includes_head (s t : list N) (c : N) :
  includes s (c :: t) = true -> c ∈ s.
Proof.
  rewrite includes_spec. intros (l1 & l2 & ->).
  rewrite elem_of_app. right. apply list_elem_of_here.
Qed.

Lemma includes_singleton (s : list N) (c : N) :
  includes s [c] = true <-> c ∈ s.
Proof.
  split; [apply includes_head|].
  intros (l1 & l2 & ->)%list_elem_of_split. apply includes_spec. by exists l1, l2.
Qed.

#[export] Hint Resolve includes_nil includes_app_l includes_app_r : js.

(** ** Filters that keep everything *)

Lemma Forall_weaken {A} (P Q : A -> Prop) (l : list A) :
  (forall x, P x -> Q x) -> Forall P l -> Forall Q l.
Proof. intros H. induction 1; constructor; auto. Qed.

Lemma filter_all {A} (P : A -> Prop) `{forall x, Decision (P x)} (l : list A) :
  Forall P l -> filter P l = l.
Proof.
  induction 1 as [|x l Hx _ IH]; [done|].
  by rewrite filter_cons_True, IH.
Qed.

Lemma Forall_filter {A} (P Q : A -> Prop) `{forall x, Decision (P x)} (l : list A) :
  Forall Q l -> Forall Q (filter P l).
Proof.
  induction 1 as [|x l Hx _ IH]; [constructor|].
  rewrite filter_cons. case_decide; [by constructor|done].
Qed.

(** ** Digits *)

Lemma is_digit_spec (c : N) : is_digit c = true <-> (0x30 <= c <= 0x39)%N.
Proof. unfold is_digit. rewrite andb_true_iff, !N.leb_le. done. Qed.

Lemma digit_val_range (c : N) : is_digit c = true -> (0 <= digit_val c <= 9)%Z.
Proof. rewrite is_digit_spec. unfold digit_val. lia. Qed.

Lemma is_digit_not_space (c : N) : is_digit c = true -> is_space c = false.
Proof.
  rewrite is_digit_spec. intros H. unfold is_space.
  apply orb_false_intro; [apply bool_decide_eq_false_2|].
  - rewrite !elem_of_cons, elem_of_nil. lia.
  - apply andb_false_intro1, N.leb_gt. lia.
Qed.

#[export] Hint Resolve digit_val_range is_digit_not_space : js.

(** ** Decimal digit sequences *)

Section decimal.
#[local] Open Scope Z_scope.
Implicit Types (ds : list Z) (d acc : Z).

Lemma decimal_val_from_app acc ds1 ds2 :
  decimal_val_from acc (ds1 ++ ds2) = decimal_val_from (decimal_val_from acc ds1) ds2.
Proof. apply fold_left_app. Qed.

Lemma decimal_val_from_eq acc ds :
  decimal_val_from acc ds = acc * 10 ^ Z.of_nat (length ds) + decimal_val ds.
Proof.
  unfold decimal_val. revert acc. induction ds as [|d ds IH]; intros acc.
  - simpl. lia.
  - cbn [decimal_val_from fold_left length]. fold (decimal_val_from (acc * 10 + d) ds).
    fold (decimal_val_from (0 * 10 + d) ds).
    rewrite (IH (acc * 10 + d)), (IH (0 * 10 + d)), Nat2Z.inj_succ, Z.pow_succ_r by lia.
    lia.
Qed.

Lemma decimal_val_app ds1 ds2 :
  decimal_val (ds1 ++ ds2)
  = decimal_val ds1 * 10 ^ Z.of_nat (length ds2) + decimal_val ds2.
Proof.
  unfold decimal_val at 1. rewrite decimal_val_from_app. apply decimal_val_from_eq.
Qed.

Lemma decimal_val_cons d ds :
  decimal_val (d :: ds) = d * 10 ^ Z.of_nat (length ds) + decimal_val ds.
Proof.
  unfold decimal_val at 1. cbn [decimal_val_from fold_left].
  fold (decimal_val_from (0 * 10 + d) ds). rewrite decimal_val_from_eq. lia.
Qed.

Lemma decimal_val_bound ds :
  Forall is_dec_digit ds -> 0 <= decimal_val ds < 10 ^ Z.of_nat (length ds).
Proof.
  unfold is_dec_digit. induction 1 as [|d ds Hd _ IH]; [done|].
  rewrite decimal_val_cons. cbn [length]. rewrite Nat2Z.inj_succ, Z.pow_succ_r by lia.
  nia.
Qed.

(** A leading non-zero digit fixes the number of digits of the value. *)
Lemma decimal_val_lead d ds :
  1 <= d <= 9 -> Forall is_dec_digit ds ->
  10 ^ Z.of_nat (length ds) <= decimal_val (d :: ds) < 10 ^ Z.of_nat (S (length ds)).
Proof.
  intros Hd Hds. pose proof (decimal_val_bound ds Hds).
  rewrite decimal_val_cons, Nat2Z.inj_succ, Z.pow_succ_r by lia. nia.
Qed.

(** Leading zeros do not change the value. *)
Lemma decimal_val_zeros (k : nat) ds :
  decimal_val (replicate k 0 ++ ds) = decimal_val ds.
Proof.
  induction k as [|k IH]; [done|]. cbn [replicate app].
  rewrite decimal_val_cons, IH. lia.
Qed.

Lemma digits10_fuel_spec (k fuel : nat) (z : Z) :
  10 ^ Z.of_nat k <= z < 10 ^ Z.of_nat (S k) -> (k <= fuel)%nat ->
  digits10_fuel fuel z = S k.
Proof.
  revert fuel z. induction k as [|k IH]; intros fuel z Hz Hf.
  - change (10 ^ Z.of_nat 1) with 10 in Hz.
    destruct fuel; simpl; [done|]. by rewrite (proj2 (Z.ltb_lt z 10)) by lia.
  - destruct fuel as [|fuel]; [lia|]. simpl.
    rewrite !Nat2Z.inj_succ, !Z.pow_succ_r in Hz by lia.
    assert (0 < 10 ^ Z.of_nat k) by (apply Z.pow_pos_nonneg; lia).
    rewrite (proj2 (Z.ltb_ge z 10)) by lia. f_equal. apply IH; [|lia].
    rewrite Nat2Z.inj_succ, Z.pow_succ_r by lia. divlia.
Qed.

Lemma log2_pow10 (k : nat) (z : Z) : 10 ^ Z.of_nat k <= z -> Z.of_nat k <= Z.log2 z.
Proof.
  intros Hz. rewrite <- (Z.log2_pow2 (Z.of_nat k)) by lia.
  apply Z.log2_le_mono. etrans; [|exact Hz].
  apply Z.pow_le_mono_l. lia.
Qed.

(** [digits10 z] is the number of decimal digits of [z]. *)
Lemma digits10_unique (k : nat) (z : Z) :
  10 ^ Z.of_nat k <= z < 10 ^ Z.of_nat (S k) -> digits10 z = S k.
Proof.
  intros Hz. apply digits10_fuel_spec; [done|].
  pose proof (log2_pow10 k z (proj1 Hz)). lia.
Qed.

Lemma digits10_lead d ds :
  1 <= d <= 9 -> Forall is_dec_digit ds ->
  digits10 (decimal_val (d :: ds)) = S (length ds).
Proof. intros Hd Hds. by apply digits10_unique, decimal_val_lead. Qed.

End decimal.

#[export] Hint Resolve decimal_val_bound : js.

(** The decoder on the characters the components rely on. *)
Example js_ascii : js "fu 0.9" = [0x66; 0x75; 0x20; 0x30; 0x2E; 0x39]%N.
Proof. reflexivity. Qed.

Example js_cjk : js "三十五点米度°" = [0x4E09; 0x5341; 0x4E94; 0x70B9; 0x7C73; 0x5EA6; 0xB0]%N.
Proof. reflexivity. Qed.
