(* ===== verification/Numeral.v ===== *)
(** * Numeral: the numeral parser of [processCommand]

    Models lines 143-199 of src/speech.js: the table [chineseNumbers], the
    local functions [parseChineseNumber] and [parseArabicNumber], and the
    fragment of [parseFloat] the latter calls.  The loop of
    [parseChineseNumber] is [parse_step] folded over the code units of the
    text; [parse_finish] is the code after the loop.  [toChinese] and
    [toDecimal] are the printers the round-trip theorems are stated with; they
    are specifications, not code of the program. *)

From Stdlib Require Import ZArith NArith QArith Lia String.
From stdpp Require Import base tactics option list numbers gmap.
From S2P Require Import Prelude.

#[local] Open Scope Z_scope.

(** ** The table *)

(** A value of the table: a number, or (for the decimal marker) a string. *)
Inductive tblval : Type :=
| VNum (n : Z)
| VStr (s : list N).

#[export] Instance tblval_eq_dec : EqDecision tblval.
Proof. solve_decision. Defined.

(** The object literal, entry by entry, in source order. *)
Definition chineseNumbers_entries : list (string * tblval) :=
  [ ("零", VNum 0); ("一", VNum 1); ("二", VNum 2); ("三", VNum 3); ("四", VNum 4);
    ("五", VNum 5); ("六", VNum 6); ("七", VNum 7); ("八", VNum 8); ("九", VNum 9);
    ("十", VNum 10); ("百", VNum 100); ("千", VNum 1000); ("万", VNum 10000);
    ("点", VStr (js ".")); ("0", VNum 0); ("1", VNum 1); ("2", VNum 2); ("3", VNum 3);
    ("4", VNum 4); ("5", VNum 5); ("6", VNum 6); ("7", VNum 7); ("8", VNum 8);
    ("9", VNum 9) ]%string.

(** The same entries with their keys as code units. *)
Definition chineseNumbers_list : list (list N * tblval) :=
  Eval vm_compute in map (fun kv => (js kv.1, kv.2)) chineseNumbers_entries.

(** [chineseNumbers[key]] is [chineseNumbers !! key]; a missing key is
    [undefined], here [None]. *)
Definition chineseNumbers : gmap (list N) tblval :=
  list_to_map chineseNumbers_list.

(** ** parseChineseNumber *)

(** The local variables of [parseChineseNumber]. *)
Record pstate : Type := PState {
  result : Z;
  decimal : Z;
  isDecimal : bool;
  temp : Z;
  lastUnit : Z }.

#[export] Instance pstate_eq_dec : EqDecision pstate.
Proof. solve_decision. Defined.

Definition parse_init : pstate :=
  {| result := 0; decimal := 0; isDecimal := false; temp := 0; lastUnit := 1 |}.

(** One iteration of the [for] loop on the code unit [char = text[i]]. *)
Definition parse_step (st : pstate) (char : N) : pstate :=
  if bool_decide ([char] = js "点") then
    {| result := result st; decimal := decimal st; isDecimal := true;
       temp := temp st; lastUnit := lastUnit st |}
  else
    match chineseNumbers !! [char] with
    | Some (VNum num) =>
      if isDecimal st then
        {| result := result st; decimal := decimal st * 10 + num;
           isDecimal := isDecimal st; temp := temp st; lastUnit := lastUnit st |}
      else if 10 <=? num then
        let temp1 := if temp st =? 0 then 1 else temp st in
        if lastUnit st <? num then
          {| result := (result st + temp1) * num; decimal := decimal st;
             isDecimal := isDecimal st; temp := 0; lastUnit := num |}
        else
          {| result := result st + temp1 * num; decimal := decimal st;
             isDecimal := isDecimal st; temp := 0; lastUnit := num |}
      else
        {| result := result st; decimal := decimal st;
           isDecimal := isDecimal st; temp := num; lastUnit := lastUnit st |}
    | Some (VStr _) => st
    | None => st
    end.

(** The whole loop, from any state. *)
Definition parse_loop (text : list N) (st : pstate) : pstate :=
  fold_left parse_step text st.

(** The code after the loop: add the pending digit, then the fraction. *)
Definition parse_finish (st : pstate) : Q :=
  let result1 := result st + temp st in
  if 0 <? decimal st then
    (inject_Z result1
     + inject_Z (decimal st) / inject_Z (10 ^ Z.of_nat (digits10 (decimal st))))%Q
  else inject_Z result1.

Definition parseChineseNumber (text : list N) : Q :=
  parse_finish (parse_loop text parse_init).

(** ** parseArabicNumber *)

(** Value of a string of ASCII digits, most significant first. *)
Definition digits_val (ds : list N) : Z := decimal_val (map digit_val ds).

(** [parseFloat] on a string made of digits and dots: the value of the
    longest prefix of the form digits, optionally a dot and digits, with at
    least one digit; [None] is NaN. *)
Definition parseFloat (s : list N) : option Q :=
  let '(ip, r) := span is_digit s in
  let fp := match r with
            | c :: r' => if bool_decide ([c] = js ".") then (span is_digit r').1 else []
            | [] => []
            end in
  match ip, fp with
  | [], [] => None
  | _, _ =>
    Some (inject_Z (digits_val ip)
          + inject_Z (digits_val fp) / inject_Z (10 ^ Z.of_nat (length fp)))%Q
  end.

(** [text.replace(/\s+/g, '')]. *)
Definition remove_spaces (text : list N) : list N :=
  filter (fun c => is_space c = false) text.

(** [text.replace(/[^0-9.]/g, '')]. *)
Definition keep_digits_dot (text : list N) : list N :=
  filter (fun c => is_digit c = true \/ [c] = js ".") text.

Definition parseArabicNumber (text : list N) : Q :=
  let text1 := remove_spaces text in
  match parseFloat (keep_digits_dot text1) with
  | None => 0%Q
  | Some number => number
  end.

(** ** Printers (specification) *)

(** The Chinese digit for [d] in 0..9. *)
Definition cn_digit (d : Z) : N :=
  nth (Z.to_nat d) (js "零一二三四五六七八九") 0%N.

(** A digit followed by its unit, nothing for a zero digit. *)
Definition cn_group (d : Z) (unit_char : list N) : list N :=
  if d =? 0 then [] else cn_digit d :: unit_char.

(** The standard numeral of [n] for 0 <= n < 10000: a zero digit between
    non-zero ones is spoken once as 零, and ten to nineteen start with 十. *)
Definition toChinese (n : Z) : list N :=
  let a := n / 1000 in
  let b := n / 100 mod 10 in
  let c := n / 10 mod 10 in
  let d := n mod 10 in
  if n =? 0 then js "零" else
  cn_group a (js "千")
  ++ (if (0 <? a) && (b =? 0) && (0 <? n mod 100) then js "零" else [])
  ++ cn_group b (js "百")
  ++ (if (0 <? b) && (c =? 0) && (0 <? d) then js "零" else [])
  ++ (if (n / 100 =? 0) && (c =? 1) then js "十" else cn_group c (js "十"))
  ++ (if d =? 0 then [] else [cn_digit d]).

(** The standard numeral of [hi * 10000 + lo]: the count of ten-thousands,
    万, then the rest (after 零 when it lacks its thousands digit). *)
Definition toChineseWan (hi lo : Z) : list N :=
  toChinese hi ++ js "万"
  ++ (if lo =? 0 then []
      else (if lo <? 1000 then js "零" else []) ++ toChinese lo).

(** Decimal digits of a natural number, most significant first. *)
Fixpoint toDecimal_fuel (fuel : nat) (n : Z) (acc : list N) : list N :=
  match fuel with
  | O => acc
  | S f =>
    let acc1 := Z.to_N (0x30 + n mod 10) :: acc in
    if n <? 10 then acc1 else toDecimal_fuel f (n / 10) acc1
  end.

Definition toDecimal (n : Z) : list N :=
  toDecimal_fuel (S (Z.to_nat (Z.log2 n))) n [].

(** The loop state between two groups of an integer numeral: [v] read so
    far, no digit pending, [last] the last unit seen. *)
Definition at_int (v last : Z) : pstate :=
  {| result := v; decimal := 0; isDecimal := false; temp := 0; lastUnit := last |}.

(** [c] is a digit of the table, Chinese or ASCII, of value [d]. *)
Definition digit_char (c : N) (d : Z) : Prop :=
  chineseNumbers !! [c] = Some (VNum d) /\ 0 <= d <= 9.

(** The decimal marker as a code unit. *)
Definition point : N := 0x70B9%N.

(** Every field of the state is an integer a double holds exactly. *)
Definition pstate_safe (st : pstate) : Prop :=
  0 <= result st + temp st < 2 ^ 53 /\ 0 <= decimal st < 2 ^ 53.

(** The code units the loop reacts to: the marker and the keys of the table. *)
Definition recognised (c : N) : Prop :=
  c = point \/ is_Some (chineseNumbers !! [c]).

#[export] Instance recognised_dec (c : N) : Decision (recognised c).
Proof. unfold recognised. apply _. Defined.

(** ** Well-formed loop states *)

Definition is_unit (z : Z) : Prop := z = 10 \/ z = 100 \/ z = 1000 \/ z = 10000.

(** The units of the table with their characters. *)
Inductive unit_char : list N -> Z -> Prop :=
| unit_shi : unit_char (js "十") 10
| unit_bai : unit_char (js "百") 100
| unit_qian : unit_char (js "千") 1000
| unit_wan : unit_char (js "万") 10000.

(** What the loop maintains: no field is negative, the pending digit is a
    digit, and the last unit is 1 (none yet) or a unit of the table. *)
Record pstate_wf (st : pstate) : Prop := {
  wf_result : 0 <= result st;
  wf_decimal : 0 <= decimal st;
  wf_temp : 0 <= temp st <= 9;
  wf_lastUnit : lastUnit st = 1 \/ is_unit (lastUnit st) }.

(** ** The table, looked up *)

Lemma chineseNumbers_lookup (k : list N) (v : tblval) :
  chineseNumbers !! k = Some v <-> (k, v) ∈ chineseNumbers_list.
Proof.
  symmetry. apply elem_of_list_to_map.
  apply (bool_decide_unpack _). vm_compute. exact I.
Qed.

(** Every number of the table is a digit or a unit. *)
Lemma chineseNumbers_num (k : list N) (n : Z) :
  chineseNumbers !! k = Some (VNum n) -> 0 <= n <= 9 \/ is_unit n.
Proof.
  rewrite chineseNumbers_lookup. unfold chineseNumbers_list, is_unit.
  rewrite !elem_of_cons, elem_of_nil.
  intros H. destruct_or!; simplify_eq; lia.
Qed.

(** The only string of the table sits under the decimal marker, which the
    loop intercepts before it looks the table up. *)
Lemma chineseNumbers_str (k : list N) (s : list N) :
  chineseNumbers !! k = Some (VStr s) -> k = js "点".
Proof.
  rewrite chineseNumbers_lookup. unfold chineseNumbers_list.
  rewrite !elem_of_cons, elem_of_nil.
  intros H. destruct_or!; simplify_eq. reflexivity.
Qed.

Lemma chineseNumbers_cn_digit (d : Z) :
  0 <= d <= 9 -> chineseNumbers !! [cn_digit d] = Some (VNum d).
Proof.
  intros H.
  assert (d = 0 \/ d = 1 \/ d = 2 \/ d = 3 \/ d = 4 \/ d = 5 \/ d = 6 \/ d = 7
          \/ d = 8 \/ d = 9) as Hd by lia.
  destruct_or!; subst; vm_compute; reflexivity.
Qed.

(** ** The loop keeps its state well formed *)

Lemma parse_init_wf : pstate_wf parse_init.
Proof. split; simpl; unfold is_unit; lia. Qed.

(** One iteration of the loop keeps the state well formed, whatever the code
    unit. *)
Lemma parse_step_wf (st : pstate) (c : N) :
  pstate_wf st -> pstate_wf (parse_step st c).
Proof.
  intros [Hr Hd Ht Hu]. unfold parse_step.
  case_bool_decide; [by split|].
  destruct (chineseNumbers !! [c]) as [[num|s]|] eqn:E; [|by split..].
  apply chineseNumbers_num in E. unfold is_unit in *.
  repeat split_if; boolify; split; simpl; unfold is_unit; lia.
Qed.

Lemma parse_loop_wf (text : list N) (st : pstate) :
  pstate_wf st -> pstate_wf (parse_loop text st).
Proof.
  revert st. induction text as [|c text IH]; intros st H; [done|].
  apply IH, parse_step_wf, H.
Qed.

(** C37: the state of the loop of [parseChineseNumber] is well formed after
    every prefix of every text: no field is negative, the pending digit is a
    digit and the last unit is 1 or a unit of the table. *)
Theorem parse_state_wf (text : list N) : pstate_wf (parse_loop text parse_init).
Proof. apply parse_loop_wf, parse_init_wf. Qed.

Lemma parse_loop_app (s t : list N) (st : pstate) :
  parse_loop (s ++ t) st = parse_loop t (parse_loop s st).
Proof. apply fold_left_app. Qed.

Lemma parse_loop_cons (c : N) (t : list N) (st : pstate) :
  parse_loop (c :: t) st = parse_loop t (parse_step st c).
Proof. reflexivity. Qed.

#[export] Hint Resolve parse_init_wf parse_loop_wf : js.
#[export] Hint Rewrite parse_loop_app parse_loop_cons : js.

(** ** The loop, one token at a time *)

Section steps.
Context (st : pstate) (c : N).
Context (Hc : [c] <> js "点").

(** A code unit the table does not know leaves the state alone. *)
Lemma parse_step_unknown : chineseNumbers !! [c] = None -> parse_step st c = st.
Proof. intros E. unfold parse_step. rewrite bool_decide_eq_false_2, E; done. Qed.

Lemma parse_step_digit (d : Z) :
  chineseNumbers !! [c] = Some (VNum d) -> d < 10 -> isDecimal st = false ->
  parse_step st c =
  {| result := result st; decimal := decimal st; isDecimal := false;
     temp := d; lastUnit := lastUnit st |}.
Proof.
  intros E Hd Hdec. unfold parse_step.
  rewrite bool_decide_eq_false_2, E, Hdec by done.
  by rewrite (proj2 (Z.leb_gt 10 d)) by lia.
Qed.

Lemma parse_step_unit (u : Z) :
  chineseNumbers !! [c] = Some (VNum u) -> 10 <= u -> isDecimal st = false ->
  let t := if temp st =? 0 then 1 else temp st in
  parse_step st c =
  {| result := if lastUnit st <? u then (result st + t) * u else result st + t * u;
     decimal := decimal st; isDecimal := false; temp := 0; lastUnit := u |}.
Proof.
  intros E Hu Hdec. unfold parse_step.
  rewrite bool_decide_eq_false_2, E, Hdec by done.
  rewrite (proj2 (Z.leb_le 10 u)) by lia. cbv zeta. by destruct (lastUnit st <? u).
Qed.

Lemma parse_step_fraction (d : Z) :
  chineseNumbers !! [c] = Some (VNum d) -> isDecimal st = true ->
  parse_step st c =
  {| result := result st; decimal := decimal st * 10 + d; isDecimal := true;
     temp := temp st; lastUnit := lastUnit st |}.
Proof.
  intros E Hdec. unfold parse_step.
  by rewrite bool_decide_eq_false_2, E, Hdec by done.
Qed.

End steps.

Lemma parse_step_point (st : pstate) :
  parse_step st 0x70B9%N =
  {| result := result st; decimal := decimal st; isDecimal := true;
     temp := temp st; lastUnit := lastUnit st |}.
Proof. reflexivity. Qed.

Lemma cn_digit_not_point (d : Z) : 0 <= d <= 9 -> [cn_digit d] <> js "点".
Proof.
  intros H E. pose proof (chineseNumbers_cn_digit d H) as L.
  rewrite E in L. discriminate L.
Qed.

(** ** Integer numerals, group by group *)

Lemma unit_char_inv (uc : list N) (u : Z) :
  unit_char uc u ->
  exists c, uc = [c] /\ [c] <> js "点" /\ chineseNumbers !! [c] = Some (VNum u) /\ 10 <= u.
Proof.
  intros []; eexists; (split; [reflexivity|]); split_and!;
    first [discriminate | vm_compute; reflexivity | lia].
Qed.

Lemma unit_char_step (uc : list N) (u : Z) (st : pstate) :
  unit_char uc u -> isDecimal st = false ->
  parse_loop uc st =
  {| result := if lastUnit st <? u
               then (result st + (if temp st =? 0 then 1 else temp st)) * u
               else result st + (if temp st =? 0 then 1 else temp st) * u;
     decimal := decimal st; isDecimal := false; temp := 0; lastUnit := u |}.
Proof.
  intros (c & -> & Hc & E & Hu)%unit_char_inv Hdec.
  by apply parse_step_unit.
Qed.

(** A digit and its unit add [d * u], provided the unit does not exceed the
    last one (or nothing was read yet). *)
Lemma parse_loop_group (d u v last : Z) (uc : list N) :
  unit_char uc u -> 0 <= d <= 9 -> v = 0 \/ u <= last ->
  parse_loop (cn_group d uc) (at_int v last) =
  at_int (v + d * u) (if d =? 0 then last else u).
Proof.
  intros Hu Hd Hv. unfold cn_group.
  destruct (Z.eqb_spec d 0) as [->|Hd0]; [cbn; unfold at_int; f_equal; lia|].
  rewrite parse_loop_cons.
  rewrite (parse_step_digit _ _ (cn_digit_not_point d Hd) d)
    by (apply chineseNumbers_cn_digit || simpl; lia || done).
  rewrite (unit_char_step uc u) by done. simpl.
  rewrite (proj2 (Z.eqb_neq d 0)) by done. unfold at_int. f_equal.
  destruct (Z.ltb_spec last u); lia.
Qed.

(** A bare 十 counts as one ten. *)
Lemma parse_loop_shi (v last : Z) :
  v = 0 \/ 10 <= last ->
  parse_loop (js "十") (at_int v last) = at_int (v + 10) 10.
Proof.
  intros Hv. rewrite (unit_char_step _ 10) by (constructor || done). simpl.
  unfold at_int. f_equal. destruct (Z.ltb_spec last 10); lia.
Qed.

(** 零 between groups changes nothing. *)
Lemma parse_loop_ling (b : bool) (v last : Z) :
  parse_loop (if b then js "零" else []) (at_int v last) = at_int v last.
Proof. by destruct b. Qed.

(** The last digit stays pending: [parse_finish] adds it. *)
Lemma parse_loop_units (d v last : Z) :
  0 <= d <= 9 ->
  parse_loop (if d =? 0 then [] else [cn_digit d]) (at_int v last)
  = {| result := v; decimal := 0; isDecimal := false; temp := d; lastUnit := last |}.
Proof.
  intros Hd. destruct (Z.eqb_spec d 0) as [->|Hd0]; [reflexivity|].
  rewrite parse_loop_cons.
  by rewrite (parse_step_digit _ _ (cn_digit_not_point d Hd) d)
    by (apply chineseNumbers_cn_digit || simpl; lia || done).
Qed.

(** ** Round trip on standard numerals *)

Lemma digits_of_small (n : Z) :
  0 <= n < 10000 ->
  0 <= n / 1000 <= 9 /\ 0 <= n / 100 mod 10 <= 9
  /\ 0 <= n / 10 mod 10 <= 9 /\ 0 <= n mod 10 <= 9
  /\ n = n / 1000 * 1000 + n / 100 mod 10 * 100 + n / 10 mod 10 * 10 + n mod 10.
Proof. intros H. split_and!; divlia. Qed.

(** The tens group of [toChinese], in either of its two spellings. *)
Lemma parse_loop_tens (bare : bool) (c v last : Z) :
  0 <= c <= 9 -> (bare = true -> c = 1) -> v = 0 \/ 10 <= last ->
  parse_loop (if bare then js "十" else cn_group c (js "十")) (at_int v last)
  = at_int (v + c * 10) (if c =? 0 then last else 10).
Proof.
  intros Hc Hb Hv. destruct bare.
  - rewrite (Hb eq_refl). by apply parse_loop_shi.
  - apply parse_loop_group; [constructor|done..].
Qed.

(** The state the loop reaches on a standard numeral read after [v0]: the
    tens and above are added to [result], the units digit stays pending. *)
Lemma parse_loop_toChinese_from (n v0 last0 : Z) :
  0 <= n < 10000 -> v0 = 0 \/ 1000 <= last0 ->
  exists last,
    parse_loop (toChinese n) (at_int v0 last0) =
    {| result := v0 + (n - n mod 10); decimal := 0; isDecimal := false;
       temp := n mod 10; lastUnit := last |}
    /\ (last = last0 \/ 10 <= last <= 1000).
Proof.
  intros Hn Hv0. unfold toChinese. cbv zeta.
  destruct (Z.eqb_spec n 0) as [->|Hn0].
  { exists last0. split; [|by left].
    rewrite (parse_loop_ling true). unfold at_int. f_equal; divlia. }
  destruct (digits_of_small n Hn) as (Ha & Hb & Hc & Hd & Hsum).
  rewrite !parse_loop_app.
  rewrite (parse_loop_group _ 1000) by first [lia | constructor].
  rewrite parse_loop_ling.
  rewrite (parse_loop_group _ 100)
    by first [destruct (Z.eqb_spec (n / 1000) 0); lia | constructor].
  rewrite parse_loop_ling.
  rewrite parse_loop_tens;
    [| lia | intros; boolify; divlia
     | destruct (Z.eqb_spec (n / 1000) 0), (Z.eqb_spec (n / 100 mod 10) 0); lia].
  rewrite parse_loop_units by lia. eexists. split; [f_equal; lia|].
  destruct (Z.eqb_spec (n / 1000) 0), (Z.eqb_spec (n / 100 mod 10) 0),
    (Z.eqb_spec (n / 10 mod 10) 0); lia.
Qed.

Lemma parse_loop_toChinese (n : Z) :
  0 <= n < 10000 ->
  exists v t last,
    parse_loop (toChinese n) parse_init =
    {| result := v; decimal := 0; isDecimal := false; temp := t; lastUnit := last |}
    /\ v + t = n.
Proof.
  intros Hn.
  destruct (parse_loop_toChinese_from n 0 1 Hn ltac:(by left)) as (last & E & _).
  eexists _, _, last. split; [exact E|lia].
Qed.

(** C5: every standard Chinese numeral below ten thousand, as [toChinese]
    prints it, is parsed by [parseChineseNumber] to the number it denotes. *)
Theorem toChinese_roundtrip (n : Z) :
  0 <= n < 10000 -> parseChineseNumber (toChinese n) = inject_Z n.
Proof.
  intros (v & t & last & E & Hvt)%parse_loop_toChinese.
  unfold parseChineseNumber. rewrite E. unfold parse_finish. simpl. by rewrite Hvt.
Qed.

Lemma toChinese_roundtrip_witness :
  parseChineseNumber (toChinese 1205) = inject_Z 1205.
Proof. apply toChinese_roundtrip. lia. Defined.

(** The numerals of the specification's examples are the printed ones. *)
Example toChinese_examples :
  toChinese 35 = js "三十五" /\ toChinese 1200 = js "一千二百"
  /\ toChinese 10 = js "十" /\ toChinese 350 = js "三百五十"
  /\ toChinese 1005 = js "一千零五" /\ toChinese 110 = js "一百一十".
Proof. repeat split; reflexivity. Qed.

(** ** The fraction part *)

Lemma digit_char_not_point (c : N) (d : Z) : digit_char c d -> [c] <> js "点".
Proof. intros [E _] Hc. rewrite Hc in E. discriminate E. Qed.

Lemma digit_char_cn (d : Z) : 0 <= d <= 9 -> digit_char (cn_digit d) d.
Proof. intros H. split; [by apply chineseNumbers_cn_digit|done]. Qed.

Lemma digit_char_ascii (c : N) : is_digit c = true -> digit_char c (digit_val c).
Proof.
  intros H. split; [|by apply digit_val_range].
  apply is_digit_spec in H.
  assert (c = 0x30 \/ c = 0x31 \/ c = 0x32 \/ c = 0x33 \/ c = 0x34 \/ c = 0x35
          \/ c = 0x36 \/ c = 0x37 \/ c = 0x38 \/ c = 0x39)%N as Hc by lia.
  destruct_or!; subst; vm_compute; reflexivity.
Qed.

Lemma digit_chars_cn (ds : list Z) :
  Forall is_dec_digit ds -> Forall2 digit_char (map cn_digit ds) ds.
Proof.
  induction 1 as [|d ds Hd _ IH]; constructor; [by apply digit_char_cn|done].
Qed.

Lemma digit_chars_range (cs : list N) (ds : list Z) :
  Forall2 digit_char cs ds -> Forall is_dec_digit ds.
Proof. induction 1 as [|c d cs ds [_ Hd] _ IH]; by constructor. Qed.

(** Once the marker was seen, digits only feed [decimal]. *)
Lemma parse_loop_fraction (cs : list N) (ds : list Z) (st : pstate) :
  Forall2 digit_char cs ds -> isDecimal st = true ->
  parse_loop cs st =
  {| result := result st; decimal := decimal_val_from (decimal st) ds;
     isDecimal := true; temp := temp st; lastUnit := lastUnit st |}.
Proof.
  intros H. revert st. induction H as [|c d cs ds Hcd _ IH]; intros st Hdec.
  - destruct st; simpl in *; by subst.
  - rewrite parse_loop_cons.
    rewrite (parse_step_fraction st c (digit_char_not_point c d Hcd) d)
      by (apply Hcd || done).
    by rewrite IH.
Qed.

(** Before the marker, the loop never touches [decimal] or [isDecimal]. *)
Lemma parse_step_point_free (st : pstate) (c : N) :
  c <> point -> isDecimal st = false ->
  isDecimal (parse_step st c) = false /\ decimal (parse_step st c) = decimal st.
Proof.
  intros Hc Hdec. unfold parse_step.
  rewrite bool_decide_eq_false_2 by (intros [= ?]; done).
  rewrite Hdec. repeat case_match; done.
Qed.

Lemma parse_loop_point_free (ip : list N) (st : pstate) :
  point ∉ ip -> isDecimal st = false ->
  isDecimal (parse_loop ip st) = false /\ decimal (parse_loop ip st) = decimal st.
Proof.
  revert st. induction ip as [|c ip IH]; intros st Hip Hdec; [done|].
  apply not_elem_of_cons in Hip as [Hc Hip].
  destruct (parse_step_point_free st c) as [H1 H2]; [done..|].
  rewrite parse_loop_cons. destruct (IH (parse_step st c)) as [H3 H4]; [done..|].
  split; congruence.
Qed.

(** The value of a text without marker is the integer the loop leaves. *)
Lemma parseChineseNumber_point_free (ip : list N) :
  point ∉ ip ->
  parseChineseNumber ip =
  inject_Z (result (parse_loop ip parse_init) + temp (parse_loop ip parse_init)).
Proof.
  intros Hip. destruct (parse_loop_point_free ip parse_init Hip eq_refl) as [_ Hd].
  unfold parseChineseNumber, parse_finish. by rewrite Hd.
Qed.

(** On an integer part followed by the marker and fraction digits,
    [parseChineseNumber] adds to the integer part the digits' value [v]
    divided by ten to the number of digits of [v] (not of the text), and
    adds nothing when [v] is zero. *)
Lemma parse_fraction (ip cs : list N) (ds : list Z) :
  point ∉ ip -> Forall2 digit_char cs ds ->
  parseChineseNumber (ip ++ js "点" ++ cs) =
  if 0 <? decimal_val ds
  then (parseChineseNumber ip
        + inject_Z (decimal_val ds)
          / inject_Z (10 ^ Z.of_nat (digits10 (decimal_val ds))))%Q
  else parseChineseNumber ip.
Proof.
  intros Hip Hcs. rewrite (parseChineseNumber_point_free ip Hip).
  destruct (parse_loop_point_free ip parse_init Hip eq_refl) as [Hdec Hd].
  unfold parseChineseNumber. rewrite !parse_loop_app.
  change (parse_loop (js "点") ?st) with (parse_step st point).
  rewrite parse_step_point, (parse_loop_fraction cs ds) by done.
  unfold parse_finish. simpl. by rewrite Hd.
Qed.

(** C32: an integer part, the marker 点 and fraction digits of which the first
    is not zero are read as written: [parseChineseNumber] adds to the integer
    part the value of the digits divided by ten to their number. *)
Theorem parse_fraction_lead (ip cs : list N) (d : Z) (ds : list Z) :
  point ∉ ip -> Forall2 digit_char cs (d :: ds) -> 1 <= d ->
  parseChineseNumber (ip ++ js "点" ++ cs) =
  (parseChineseNumber ip
   + inject_Z (decimal_val (d :: ds)) / inject_Z (10 ^ Z.of_nat (length cs)))%Q.
Proof.
  intros Hip Hcs Hd. rewrite (parse_fraction ip cs (d :: ds)) by done.
  pose proof (digit_chars_range _ _ Hcs) as Hr. inv Hr.
  assert (1 <= d <= 9) as Hd9 by (unfold is_dec_digit in *; lia).
  pose proof (decimal_val_lead d ds Hd9 ltac:(done)) as Hv.
  assert (0 < 10 ^ Z.of_nat (length ds)) by (apply Z.pow_pos_nonneg; lia).
  rewrite (proj2 (Z.ltb_lt 0 _)) by lia.
  rewrite digits10_lead by done.
  by rewrite (Forall2_length _ _ _ Hcs).
Qed.

Lemma parse_fraction_lead_witness :
  parseChineseNumber (js "二十五" ++ js "点" ++ js "八零") =
  (parseChineseNumber (js "二十五")
   + inject_Z (decimal_val [8%Z; 0%Z]) / inject_Z (10 ^ Z.of_nat (length (js "八零"))))%Q.
Proof.
  apply (parse_fraction_lead (js "二十五") (js "八零") 8 [0]).
  - by_compute.
  - apply (digit_chars_cn [8; 0]). repeat constructor; unfold is_dec_digit; lia.
  - lia.
Defined.

(** C17: zeros that lead the fraction digits are lost: the text with them
    has the value of the text without them ("三点零五" is read as "三点五"). *)
Theorem fraction_leading_zeros (ip zs cs : list N) (k : nat) (ds : list Z) :
  point ∉ ip -> Forall2 digit_char zs (replicate k 0) -> Forall2 digit_char cs ds ->
  parseChineseNumber (ip ++ js "点" ++ zs ++ cs)
  = parseChineseNumber (ip ++ js "点" ++ cs).
Proof.
  intros Hip Hzs Hcs.
  rewrite (parse_fraction ip (zs ++ cs) (replicate k 0 ++ ds))
    by (done || by apply Forall2_app).
  rewrite (parse_fraction ip cs ds) by done.
  by rewrite decimal_val_zeros.
Qed.

Lemma fraction_leading_zeros_witness :
  parseChineseNumber (js "三" ++ js "点" ++ js "零" ++ js "五")
  = parseChineseNumber (js "三" ++ js "点" ++ js "五").
Proof.
  apply (fraction_leading_zeros (js "三") (js "零") (js "五") 1 [5]).
  - by_compute.
  - apply (digit_chars_cn [0]). repeat constructor; unfold is_dec_digit; lia.
  - apply (digit_chars_cn [5]). repeat constructor; unfold is_dec_digit; lia.
Defined.

(** The value the source computes for "three point zero five". *)
Example fraction_zero_five :
  (parseChineseNumber (js "三点零五") == 35 # 10)%Q
  /\ ~ (parseChineseNumber (js "三点零五") == 305 # 100)%Q.
Proof. split; [vm_compute; reflexivity | intros H; vm_compute in H; discriminate]. Qed.

(** ** parseArabicNumber on decimal strings *)

Section arabic.
Implicit Types (ip fp s : list N).

Lemma digits_not_space s : Forall (fun c => is_digit c = true) s -> remove_spaces s = s.
Proof.
  intros H. apply filter_all. eapply Forall_impl; [exact H|].
  intros c Hc. by apply is_digit_not_space.
Qed.

Lemma digits_kept s : Forall (fun c => is_digit c = true) s -> keep_digits_dot s = s.
Proof.
  intros H. apply filter_all. eapply Forall_impl; [exact H|]. intros c Hc. by left.
Qed.

Lemma remove_spaces_app s1 s2 :
  remove_spaces (s1 ++ s2) = remove_spaces s1 ++ remove_spaces s2.
Proof. apply filter_app. Qed.

Lemma keep_digits_dot_app s1 s2 :
  keep_digits_dot (s1 ++ s2) = keep_digits_dot s1 ++ keep_digits_dot s2.
Proof. apply filter_app. Qed.

(** A decimal string passes both [replace] calls unchanged. *)
Lemma decimal_string_kept ip fp :
  Forall (fun c => is_digit c = true) ip -> Forall (fun c => is_digit c = true) fp ->
  keep_digits_dot (remove_spaces (ip ++ js "." ++ fp)) = ip ++ js "." ++ fp.
Proof.
  intros Hi Hf. rewrite !remove_spaces_app, !keep_digits_dot_app.
  rewrite (digits_not_space ip), (digits_not_space fp) by done.
  rewrite (digits_kept ip), (digits_kept fp) by done. reflexivity.
Qed.

Lemma parseFloat_decimal ip fp :
  Forall (fun c => is_digit c = true) ip -> Forall (fun c => is_digit c = true) fp ->
  ip <> [] ->
  parseFloat (ip ++ js "." ++ fp) =
  Some (inject_Z (digits_val ip)
        + inject_Z (digits_val fp) / inject_Z (10 ^ Z.of_nat (length fp)))%Q.
Proof.
  intros Hi Hf Hne. unfold parseFloat.
  rewrite (span_unique is_digit ip (js "." ++ fp)) by done.
  change (js "." ++ fp) with (0x2E%N :: fp). cbv beta iota.
  rewrite bool_decide_eq_true_2 by done.
  rewrite (span_all is_digit fp) by done. simpl.
  destruct ip; [done|]. by destruct fp.
Qed.

Lemma parseFloat_digits ip :
  Forall (fun c => is_digit c = true) ip -> ip <> [] ->
  parseFloat ip = Some (inject_Z (digits_val ip) + inject_Z 0 / inject_Z 1)%Q.
Proof.
  intros Hi Hne. unfold parseFloat. rewrite (span_all is_digit ip) by done.
  by destruct ip.
Qed.

(** C15: on a string of the form digits, dot, digits, [parseArabicNumber] is
    the decimal reading of the string; unlike the Chinese branch it counts
    the digits of the text, so zeros that lead the fraction are kept. *)
Theorem parseArabicNumber_decimal ip fp :
  Forall (fun c => is_digit c = true) ip -> Forall (fun c => is_digit c = true) fp ->
  ip <> [] ->
  parseArabicNumber (ip ++ js "." ++ fp) =
  (inject_Z (digits_val ip)
   + inject_Z (digits_val fp) / inject_Z (10 ^ Z.of_nat (length fp)))%Q.
Proof.
  intros Hi Hf Hne. unfold parseArabicNumber.
  by rewrite decimal_string_kept, parseFloat_decimal.
Qed.

Lemma parseArabicNumber_digits ip :
  Forall (fun c => is_digit c = true) ip -> ip <> [] ->
  (parseArabicNumber ip == inject_Z (digits_val ip))%Q.
Proof.
  intros Hi Hne. unfold parseArabicNumber.
  rewrite digits_not_space, digits_kept, parseFloat_digits by done.
  unfold Qdiv. rewrite Qmult_0_l. apply Qplus_0_r.
Qed.

End arabic.

Lemma parseArabicNumber_decimal_witness :
  parseArabicNumber (js "3" ++ js "." ++ js "05") =
  (inject_Z (digits_val (js "3"))
   + inject_Z (digits_val (js "05")) / inject_Z (10 ^ Z.of_nat (length (js "05"))))%Q.
Proof.
  apply parseArabicNumber_decimal; [by repeat constructor..|discriminate].
Defined.

(** The two branches disagree on the same spoken number. *)
Example arabic_keeps_zero :
  (parseArabicNumber (js "3.05") == 305 # 100)%Q
  /\ (parseChineseNumber (js "3点05") == 35 # 10)%Q.
Proof. split; vm_compute; reflexivity. Qed.

(** ** Numerals with 万 *)

(** After a numeral, 万 multiplies what was read, with an implicit one
    added when no digit is pending. *)
Lemma parse_loop_wan (hi : Z) :
  0 <= hi < 10000 ->
  parse_loop (toChinese hi ++ js "万") parse_init
  = at_int ((if hi mod 10 =? 0 then hi + 1 else hi) * 10000) 10000.
Proof.
  intros Hhi.
  destruct (parse_loop_toChinese_from hi 0 1 Hhi ltac:(by left)) as (last & E & Hl).
  rewrite parse_loop_app. change parse_init with (at_int 0 1). rewrite E.
  rewrite (unit_char_step _ 10000) by (constructor || done). simpl.
  rewrite (proj2 (Z.ltb_lt last 10000)) by lia.
  unfold at_int. f_equal. destruct (Z.eqb_spec (hi mod 10) 0); lia.
Qed.

Lemma parse_loop_toChineseWan (hi lo : Z) :
  0 <= hi < 10000 -> 0 <= lo < 10000 ->
  exists last,
    parse_loop (toChineseWan hi lo) parse_init =
    {| result := (if hi mod 10 =? 0 then hi + 1 else hi) * 10000 + (lo - lo mod 10);
       decimal := 0; isDecimal := false; temp := lo mod 10; lastUnit := last |}.
Proof.
  intros Hhi Hlo. unfold toChineseWan.
  rewrite app_assoc, parse_loop_app, parse_loop_wan by done.
  destruct (Z.eqb_spec lo 0) as [->|Hlo0].
  { exists 10000. unfold parse_loop at 1, at_int. cbn [fold_left]. f_equal; divlia. }
  rewrite parse_loop_app, parse_loop_ling.
  destruct (parse_loop_toChinese_from lo
              ((if hi mod 10 =? 0 then hi + 1 else hi) * 10000) 10000 Hlo
              ltac:(right; lia)) as (last & -> & _).
  by eexists.
Qed.

(** C16: on the standard numeral of [hi] ten-thousands and [lo],
    [parseChineseNumber] yields [hi * 10000 + lo] only when the numeral of
    [hi] ends in a digit; when it ends in a unit (十万, 二十万, 一百万) the
    source adds an implicit one before multiplying, and the value is ten
    thousand too large. *)
Theorem toChineseWan_value (hi lo : Z) :
  0 <= hi < 10000 -> 0 <= lo < 10000 ->
  parseChineseNumber (toChineseWan hi lo)
  = inject_Z ((if hi mod 10 =? 0 then hi + 1 else hi) * 10000 + lo).
Proof.
  intros Hhi Hlo. unfold parseChineseNumber.
  destruct (parse_loop_toChineseWan hi lo Hhi Hlo) as (last & ->).
  unfold parse_finish. simpl. f_equal. lia.
Qed.

Lemma toChineseWan_value_witness :
  parseChineseNumber (toChineseWan 10 0)
  = inject_Z ((if 10 mod 10 =? 0 then 10 + 1 else 10) * 10000 + 0).
Proof. apply toChineseWan_value; lia. Defined.

(** "十万", one hundred thousand, is read as 110000. *)
Example shi_wan :
  toChineseWan 10 0 = js "十万" /\ parseChineseNumber (js "十万") = inject_Z 110000.
Proof. split; reflexivity. Qed.

(** ** Characters the parsers do not know *)

Lemma parse_step_unrecognised (st : pstate) (c : N) :
  ~ recognised c -> parse_step st c = st.
Proof.
  intros H. apply parse_step_unknown.
  - intros [= ->]. apply H. by left.
  - destruct (chineseNumbers !! [c]) eqn:E; [|done]. destruct H. right. by eexists.
Qed.

Lemma parse_loop_filter (text : list N) (st : pstate) :
  parse_loop (filter recognised text) st = parse_loop text st.
Proof.
  revert st. induction text as [|c text IH]; intros st; [done|].
  destruct (decide (recognised c)) as [Hc|Hc].
  - rewrite filter_cons_True by done. apply IH.
  - rewrite filter_cons_False, parse_loop_cons, parse_step_unrecognised by done.
    apply IH.
Qed.

(** C38: [parseChineseNumber] raises no error: code units that are neither
    the marker nor keys of the table are skipped, so a text has the value of
    its recognised code units, and a text with none has value 0. *)
Theorem parseChineseNumber_skips (text : list N) :
  parseChineseNumber text = parseChineseNumber (filter recognised text)
  /\ (Forall (fun c => ~ recognised c) text -> parseChineseNumber text = 0%Q).
Proof.
  unfold parseChineseNumber. rewrite parse_loop_filter. split; [done|].
  intros H. rewrite <- parse_loop_filter.
  replace (filter recognised text) with (@nil N); [done|].
  symmetry. induction H as [|c text Hc _ IH]; [done|].
  by rewrite filter_cons_False.
Qed.

Example parseChineseNumber_noise :
  parseChineseNumber (js "大约三x十 五左右") = inject_Z 35
  /\ parseChineseNumber (js "随便说点什么") = 0%Q.
Proof. split; reflexivity. Qed.

Lemma parseFloat_no_digit (s : list N) :
  Forall (fun c => is_digit c = false) s -> parseFloat s = None.
Proof.
  intros H. unfold parseFloat. destruct H as [|c s Hc Hs]; [done|].
  rewrite span_stop by done. case_bool_decide; [|done].
  destruct Hs as [|c' s Hc' _]; [done|]. by rewrite span_stop.
Qed.

(** C39: [parseArabicNumber] raises no error either: on a text without any
    digit, [parseFloat] yields NaN and the function returns 0. *)
Theorem parseArabicNumber_no_digit (text : list N) :
  Forall (fun c => is_digit c = false) text -> parseArabicNumber text = 0%Q.
Proof.
  intros H. unfold parseArabicNumber. rewrite parseFloat_no_digit; [done|].
  unfold keep_digits_dot, remove_spaces. by do 2 apply Forall_filter.
Qed.

Lemma parseArabicNumber_no_digit_witness : parseArabicNumber (js "米. 度.") = 0%Q.
Proof. apply parseArabicNumber_no_digit. by repeat constructor. Defined.

(** ** Round trip on Arabic numerals *)

Lemma ascii_digit_spec (d : Z) :
  0 <= d <= 9 ->
  is_digit (Z.to_N (0x30 + d)) = true /\ digit_val (Z.to_N (0x30 + d)) = d.
Proof. intros H. rewrite is_digit_spec. unfold digit_val. lia. Qed.

Lemma digits_val_snoc (ds : list N) (c : N) :
  digits_val (ds ++ [c]) = digits_val ds * 10 + digit_val c.
Proof.
  unfold digits_val. rewrite map_app, decimal_val_app. cbn. lia.
Qed.

(** With enough fuel [toDecimal_fuel] prepends the digits of [n]. *)
Lemma toDecimal_fuel_spec (fuel : nat) (n : Z) (acc : list N) :
  0 <= n < 2 ^ Z.of_nat fuel -> (0 < fuel)%nat ->
  exists ds, toDecimal_fuel fuel n acc = ds ++ acc
    /\ Forall (fun c => is_digit c = true) ds /\ ds <> [] /\ digits_val ds = n.
Proof.
  revert n acc. induction fuel as [|fuel IH]; intros n acc Hn Hf; [lia|].
  simpl. destruct (ascii_digit_spec (n mod 10)) as [Hd Hv]; [divlia|].
  destruct (Z.ltb_spec n 10) as [Hlt|Hge].
  - exists [Z.to_N (48 + n mod 10)]. split_and!; [done|by constructor|done|].
    unfold digits_val. cbn. rewrite Hv. divlia.
  - rewrite Nat2Z.inj_succ, Z.pow_succ_r in Hn by lia.
    destruct (IH (n / 10) (Z.to_N (48 + n mod 10) :: acc)) as (ds & E & Hds & _ & Hval).
    { divlia. }
    { destruct fuel; [simpl in Hn; lia|lia]. }
    exists (ds ++ [Z.to_N (48 + n mod 10)]). split_and!.
    + by rewrite E, <- app_assoc.
    + apply Forall_app. split; [done|by constructor].
    + by destruct ds.
    + rewrite digits_val_snoc, Hval, Hv. divlia.
Qed.

Lemma toDecimal_spec (n : Z) :
  0 <= n ->
  Forall (fun c => is_digit c = true) (toDecimal n) /\ toDecimal n <> []
  /\ digits_val (toDecimal n) = n.
Proof.
  intros Hn. unfold toDecimal.
  destruct (toDecimal_fuel_spec (S (Z.to_nat (Z.log2 n))) n []) as (ds & E & H);
    [|lia|by rewrite E, app_nil_r].
  split; [done|]. destruct (Z.eq_dec n 0) as [->|Hn0]; [done|].
  rewrite Nat2Z.inj_succ, Z2Nat.id by apply Z.log2_nonneg.
  apply Z.log2_spec. lia.
Qed.

(** C33: every natural number printed in decimal digits is read back by
    [parseArabicNumber], also with fraction digits appended. *)
Theorem toDecimal_roundtrip (n : Z) (fp : list N) :
  0 <= n -> Forall (fun c => is_digit c = true) fp ->
  (parseArabicNumber (toDecimal n) == inject_Z n)%Q
  /\ parseArabicNumber (toDecimal n ++ js "." ++ fp)
     = (inject_Z n + inject_Z (digits_val fp) / inject_Z (10 ^ Z.of_nat (length fp)))%Q.
Proof.
  intros Hn Hfp. destruct (toDecimal_spec n Hn) as (Hds & Hne & Hval). split.
  - by rewrite parseArabicNumber_digits, Hval.
  - unfold parseArabicNumber.
    by rewrite decimal_string_kept, parseFloat_decimal, Hval.
Qed.

Lemma toDecimal_roundtrip_witness :
  (parseArabicNumber (toDecimal 150) == inject_Z 150)%Q
  /\ parseArabicNumber (toDecimal 150 ++ js "." ++ js "25")
     = (inject_Z 150 + inject_Z (digits_val (js "25"))
                       / inject_Z (10 ^ Z.of_nat (length (js "25"))))%Q.
Proof. apply toDecimal_roundtrip; [lia|by repeat constructor]. Defined.

Example toDecimal_examples :
  toDecimal 0 = js "0" /\ toDecimal 150 = js "150" /\ toDecimal 1234567 = js "1234567".
Proof. repeat split; reflexivity. Qed.

(** ** Safe integers *)

(** [result] and [decimal] never decrease. *)
Lemma parse_step_mono (st : pstate) (c : N) :
  pstate_wf st ->
  result st <= result (parse_step st c) /\ decimal st <= decimal (parse_step st c).
Proof.
  intros [Hr Hd Ht Hu]. unfold parse_step.
  case_bool_decide; [done|].
  destruct (chineseNumbers !! [c]) as [[num|s]|] eqn:E; [|done..].
  apply chineseNumbers_num in E. unfold is_unit in *.
  repeat split_if; boolify; simpl; lia.
Qed.

Lemma parse_loop_mono (text : list N) (st : pstate) :
  pstate_wf st ->
  result st <= result (parse_loop text st) /\ decimal st <= decimal (parse_loop text st).
Proof.
  revert st. induction text as [|c text IH]; intros st Hwf; [done|].
  rewrite parse_loop_cons.
  pose proof (parse_step_mono st c Hwf).
  pose proof (IH (parse_step st c) (parse_step_wf st c Hwf)). lia.
Qed.

(** The state after a prefix is well formed and below the state at the end. *)
Lemma parse_prefix_le (p q : list N) :
  pstate_wf (parse_loop p parse_init)
  /\ result (parse_loop p parse_init) <= result (parse_loop (p ++ q) parse_init)
  /\ decimal (parse_loop p parse_init) <= decimal (parse_loop (p ++ q) parse_init).
Proof.
  pose proof (parse_loop_wf p parse_init parse_init_wf) as Hwf.
  split; [done|]. rewrite parse_loop_app. by apply parse_loop_mono.
Qed.

(** C40: every value the loop holds on the way is bounded by the final ones:
    when the final [result] is below 2^53 - 9 and the final [decimal] below
    2^53, the state after every prefix of the text consists of integers that
    doubles represent exactly, so the source's arithmetic is the model's. *)
Theorem parse_prefix_safe (p q : list N) :
  result (parse_loop (p ++ q) parse_init) + 9 < 2 ^ 53 ->
  decimal (parse_loop (p ++ q) parse_init) < 2 ^ 53 ->
  pstate_safe (parse_loop p parse_init).
Proof.
  intros Hr Hd. destruct (parse_prefix_le p q) as ([? ? ? _] & H1 & H2).
  unfold pstate_safe. lia.
Qed.

Lemma parse_prefix_safe_witness :
  pstate_safe (parse_loop (js "一万二千") parse_init).
Proof. apply (parse_prefix_safe (js "一万二千") (js "三百点五")); by vm_compute. Defined.

(** On the standard numerals the hypothesis holds: the state after every
    prefix is safe. *)
Corollary toChineseWan_safe (hi lo : Z) (p : list N) :
  0 <= hi < 10000 -> 0 <= lo < 10000 -> p `prefix_of` toChineseWan hi lo ->
  pstate_safe (parse_loop p parse_init).
Proof.
  intros Hhi Hlo [q Hq].
  destruct (parse_loop_toChineseWan hi lo Hhi Hlo) as (last & E).
  destruct (parse_prefix_le p q) as ([? ? ? _] & H1 & H2).
  rewrite <- Hq, E in H1, H2. simpl in H1, H2. unfold pstate_safe.
  destruct (hi mod 10 =? 0); divlia.
Qed.

(** ** Digits without units *)

Lemma last_nonempty {A} (l : list A) (x a b : A) :
  List.last (x :: l) a = List.last (x :: l) b.
Proof. revert x. induction l as [|y l IH]; intros x; [done|]. apply (IH y). Qed.

(** Before the marker each digit replaces the pending one. *)
Lemma parse_loop_digits (cs : list N) (ds : list Z) :
  Forall2 digit_char cs ds ->
  forall st, isDecimal st = false ->
  parse_loop cs st =
  {| result := result st; decimal := decimal st; isDecimal := false;
     temp := List.last ds (temp st); lastUnit := lastUnit st |}.
Proof.
  induction 1 as [|c d cs ds Hcd Hcs IH]; intros st Hdec.
  - destruct st; simpl in *; by subst.
  - rewrite parse_loop_cons. pose proof (digit_char_not_point c d Hcd) as Hp.
    destruct Hcd as [E Hd].
    rewrite (parse_step_digit st c Hp d E) by (done || lia).
    rewrite IH by done. simpl. f_equal.
    destruct ds as [|d' ds]; [done|]. apply (last_nonempty ds d').
Qed.

(** C18: a run of digits with no unit between them stands for its last
    digit: the loop keeps one pending digit and each digit replaces it.  So a
    numeral written with several Arabic digits and the marker 点, which the
    test for Arabic numerals sends to this parser, loses all digits of its
    integer part but the last. *)
Theorem digits_overwrite (cs : list N) (ds : list Z) (c : N) (d : Z) :
  Forall2 digit_char cs ds -> digit_char c d ->
  parseChineseNumber (cs ++ [c]) = inject_Z d.
Proof.
  intros Hcs Hc. unfold parseChineseNumber.
  assert (Forall2 digit_char (cs ++ [c]) (ds ++ [d])) as H
    by (apply Forall2_app; [done|by constructor]).
  rewrite (parse_loop_digits _ _ H parse_init eq_refl).
  unfold parse_finish. simpl. by rewrite last_last.
Qed.

Lemma digits_overwrite_witness : parseChineseNumber (js "35") = inject_Z 5.
Proof.
  assert (digit_char 0x33%N 3) as H3 by apply (digit_char_ascii 0x33%N eq_refl).
  assert (digit_char 0x35%N 5) as H5 by apply (digit_char_ascii 0x35%N eq_refl).
  assert (Forall2 digit_char [0x33%N] [3]) as H by (by repeat constructor).
  exact (digits_overwrite [0x33%N] [3] 0x35%N 5 H H5).
Defined.

Example digits_with_marker :
  (parseChineseNumber (js "35点5") == 55 # 10)%Q /\
  (parseChineseNumber (js "二五") == 5)%Q /\
  (parseArabicNumber (js "35.5") == 355 # 10)%Q.
Proof. by vm_compute. Qed.

(** The numerals of the design's test list. *)
Example parseChineseNumber_examples :
  (parseChineseNumber (js "三十五") == 35)%Q /\
  (parseChineseNumber (js "一千二百") == 1200)%Q /\
  (parseChineseNumber (js "三点五") == 35 # 10)%Q /\
  (parseChineseNumber (js "十") == 10)%Q /\
  (parseChineseNumber (js "二十五点八") == 258 # 10)%Q.
Proof. by vm_compute. Qed.
