(* ===== verification/Negative.v ===== *)
(** * Negative: the homophone test for a negative angle

    Models lines 228-242 of src/speech.js: the array [negativeIndicators] and
    the test [negativeIndicators.some(indicator =>
    transcript.toLowerCase().includes(indicator.toLowerCase()))].

    [toLowerCase] is modelled on the ASCII letters and is the identity on
    every other code unit.  The full Unicode mapping differs only on code
    units that neither are nor lower-case to 'f', 'u' or an ideograph of the
    array, so the result of the test is the same. *)

From Stdlib Require Import ZArith NArith Lia String.
From stdpp Require Import base tactics option list numbers.
From S2P Require Import Prelude.

(** ** The source *)

(** The array literal, in source order, duplicates included. *)
Definition negativeIndicators : list string :=
  [
    "负"; "付"; "复"; "府"; "父"; "腹"; "赴"; "富"; "副"; "妇"; "抚"; "辅"; "俯"; "斧"; "釜"; "脯"; "腐"; "覆";
    "赋"; "咐"; "附"; "驸"; "氟"; "伏"; "扶"; "浮"; "符"; "芙"; "苻"; "蝠"; "凫"; "孵"; "敷"; "肤"; "麸"; "服";
    "福"; "幅"; "府"; "辐"; "蝮"; "黼"; "弗"; "拂"; "茯"; "氟"; "桴"; "涪"; "菔"; "蚨"; "绂"; "绋"; "茀"; "郛";
    "艴"; "拊"; "黻"; "荂"; "芾"; "咐"; "赙"; "复"; "馥"; "蝜"; "蚹"; "蜉"; "蝮"; "鲋"; "鳆"; "鳺"; "鮒"; "鵩";
    "负的"; "付的"; "复的"; "负得"; "付得"; "复得"; "fu"
  ]%string.

(** [toLowerCase] on one code unit. *)
Definition lower_cu (c : N) : N :=
  if ((0x41 <=? c) && (c <=? 0x5A))%N then (c + 0x20)%N else c.

Definition toLowerCase (s : list N) : list N := map lower_cu s.

(** The callback of [some]. *)
Definition indicator_in (transcript : list N) (indicator : string) : bool :=
  includes (toLowerCase transcript) (toLowerCase (js indicator)).

Definition hasNegativeIndicator (transcript : list N) : bool :=
  existsb (indicator_in transcript) negativeIndicators.

(** ** Specification *)

(** The indicators as code units, lower-cased. *)
Definition indicator_units : list (list N) :=
  Eval vm_compute in map (fun i => toLowerCase (js i)) negativeIndicators.

(** The ideographs that are indicators on their own. *)
Definition negative_chars : list N :=
  Eval vm_compute in
    remove_dups (omap (fun u => match u with [c] => Some c | _ => None end)
                      indicator_units).

(** A code unit that, lower-cased, is the first of an indicator. *)
Definition starts_indicator (c : N) : bool :=
  existsb (fun u => bool_decide (head u = Some (lower_cu c))) indicator_units.

(** What the test amounts to: some ideograph of [negative_chars] occurs in
    the transcript, or "fu" does, in any letter case. *)
Definition negative_sense (transcript : list N) : Prop :=
  (exists c, c ∈ transcript /\ c ∈ negative_chars)
  \/ includes (toLowerCase transcript) (js "fu") = true.

(** ** The test, characterised *)

Lemma lower_cu_fixed (c x : N) : (0x7A < c)%N -> lower_cu x = c -> x = c.
Proof. unfold lower_cu. intros Hc. split_if; boolify; lia. Qed.

Lemma lower_cu_id (c : N) : (0x7A < c)%N -> lower_cu c = c.
Proof. unfold lower_cu. intros Hc. split_if; boolify; lia. Qed.

(** An ideograph occurs in the lower-cased text exactly when it occurs in
    the text. *)
Lemma elem_of_toLowerCase (c : N) (s : list N) :
  (0x7A < c)%N -> c ∈ toLowerCase s <-> c ∈ s.
Proof.
  intros Hc. unfold toLowerCase. rewrite list_elem_of_fmap. split.
  - intros (x & E & Hx). by rewrite <- (lower_cu_fixed c x Hc).
  - intros Hx. exists c. by rewrite lower_cu_id.
Qed.

(** The shape of the array: besides "fu", every entry starts with an
    ideograph that is an entry of its own. *)
Lemma indicator_units_shape (u : list N) :
  u ∈ indicator_units ->
  u = js "fu" \/ exists c t, u = c :: t /\ c ∈ negative_chars.
Proof.
  pose (ok := fun u : list N =>
          bool_decide (u = js "fu")
          || match u with c :: _ => bool_decide (c ∈ negative_chars) | [] => false end).
  assert (forallb ok indicator_units = true) as H by (vm_compute; reflexivity).
  rewrite forallb_forall in H. intros Hu%list_elem_of_In. specialize (H u Hu).
  apply orb_prop in H as [H|H]; boolify; [by left|right].
  destruct u as [|c t]; [done|]. boolify. by exists c, t.
Qed.

Lemma negative_chars_spec (c : N) :
  c ∈ negative_chars -> [c] ∈ indicator_units /\ (0x7A < c)%N.
Proof.
  assert (Forall (fun c => [c] ∈ indicator_units /\ (0x7A < c)%N) negative_chars)
    as H by by_compute.
  rewrite Forall_forall in H. intros Hc. by apply H, list_elem_of_In.
Qed.

Lemma hasNegativeIndicator_units (transcript : list N) :
  hasNegativeIndicator transcript = true
  <-> exists u, u ∈ indicator_units /\ includes (toLowerCase transcript) u = true.
Proof.
  unfold hasNegativeIndicator, indicator_in. rewrite existsb_exists.
  change indicator_units with (map (fun i => toLowerCase (js i)) negativeIndicators).
  split.
  - intros (i & Hi & H). exists (toLowerCase (js i)). split; [|done].
    apply list_elem_of_In, in_map_iff. by exists i.
  - intros (u & Hu & H). apply list_elem_of_In, in_map_iff in Hu as (i & <- & Hi).
    by exists i.
Qed.

(** C35: the test of line 236 holds exactly when one of the ideographs of
    the array occurs anywhere in the transcript or "fu" does in any letter
    case; the two-character entries and the repeated ones add nothing. *)
Theorem hasNegativeIndicator_spec (transcript : list N) :
  hasNegativeIndicator transcript = true <-> negative_sense transcript.
Proof.
  rewrite hasNegativeIndicator_units. unfold negative_sense. split.
  - intros (u & Hu & Hin).
    destruct (indicator_units_shape u Hu) as [->|(c & t & -> & Hc)]; [by right|].
    left. exists c. split; [|done].
    apply includes_head in Hin.
    destruct (negative_chars_spec c Hc) as [_ Hlt].
    by apply (elem_of_toLowerCase c transcript Hlt).
  - intros [(c & Ht & Hc)|Hfu].
    + destruct (negative_chars_spec c Hc) as [Hu Hlt].
      exists [c]. split; [done|]. by apply includes_singleton, elem_of_toLowerCase.
    + exists (js "fu"). split; [by_compute|done].
Qed.

(** ** What the test needs of a text *)

(** One ideograph of the array anywhere in the text is enough. *)
Lemma negative_char_indicator (c : N) (s : list N) :
  c ∈ s -> c ∈ negative_chars -> hasNegativeIndicator s = true.
Proof.
  intros Hs Hc. apply hasNegativeIndicator_units.
  destruct (negative_chars_spec c Hc) as [Hu Hlt].
  exists [c]. split; [done|]. by apply includes_singleton, elem_of_toLowerCase.
Qed.

(** A text that passes the test holds a code unit that starts an indicator. *)
Lemma hasNegativeIndicator_starts (s : list N) :
  hasNegativeIndicator s = true -> exists c, c ∈ s /\ starts_indicator c = true.
Proof.
  intros (u & Hu & Hin)%hasNegativeIndicator_units.
  assert (exists h t, u = h :: t) as (h & t & ->).
  { destruct (indicator_units_shape u Hu) as [->|(c & t & -> & _)]; [|by eexists _, _].
    exists 0x66%N, [0x75%N]. by vm_compute. }
  apply includes_head in Hin. unfold toLowerCase in Hin.
  apply list_elem_of_fmap in Hin as (c & -> & Hc). exists c. split; [done|].
  unfold starts_indicator. apply existsb_exists. exists (lower_cu c :: t).
  split; [by apply list_elem_of_In|]. by apply bool_decide_eq_true.
Qed.

(** No indicator starts below the letter f. *)
Lemma starts_indicator_letter (c : N) :
  starts_indicator c = true -> (0x66 <= lower_cu c)%N.
Proof.
  unfold starts_indicator. intros (u & Hu & Hh)%existsb_exists.
  apply bool_decide_eq_true in Hh.
  assert (forallb (fun u => match u with h :: _ => (0x66 <=? h)%N | [] => true end)
            indicator_units = true) as H by (vm_compute; reflexivity).
  rewrite forallb_forall in H. specialize (H u Hu).
  destruct u as [|h t]; simplify_eq/=. by apply N.leb_le.
Qed.

(** The documented commands, a letter-case variant, and a transcript in
    which an unrelated word (幅度, amplitude) carries an indicator. *)
Example hasNegativeIndicator_examples :
  hasNegativeIndicator (js "付35度") = true
  /\ hasNegativeIndicator (js "负20度") = true
  /\ hasNegativeIndicator (js "FU 35度") = true
  /\ hasNegativeIndicator (js "角度30度") = false
  /\ hasNegativeIndicator (js "幅度30度") = true.
Proof. repeat split; reflexivity. Qed.
