(* ===== verification/JsRegex.v ===== *)
(** * JsRegex: the regular expressions of the source, executed

    src/speech.js matches its transcripts with regular-expression literals.
    This file gives the fragment of ECMAScript's pattern semantics those
    literals use: character classes, sequence, alternation, greedy and lazy
    quantifiers, one capturing group, and the anchors.  The matcher is the
    backtracking matcher of the language definition, written in
    continuation-passing style like its RepeatMatcher: [rmatch r x k] matches
    [r] at state [x] and hands every candidate end state to [k], in priority
    order, until [k] accepts one.

    Restrictions: one capturing group, which is not under a quantifier (so the
    reset of captures at each iteration is not modelled); no flags.

    The recursion of a quantifier is not structural; [repeat_match] takes
    fuel, and [rmatch] supplies [S (min + length (rest x))], which is enough:
    theorem [repeat_match_fuel] shows that more fuel never changes a result. *)

From Stdlib Require Import ZArith NArith Lia String.
From stdpp Require Import base tactics option list numbers.
From S2P Require Import Prelude.

(** ** Patterns *)

Inductive regex : Type :=
| REmpty
| RChar (cls : N -> bool)
| RSeq (r1 r2 : regex)
| RAlt (r1 r2 : regex)
| RRepeat (r : regex) (min : nat) (max : option nat) (greedy : bool)
| RGroup (r : regex)
| RBol
| REol.

(** [r*], [r+], [r?] and the lazy [r*?]. *)
Definition RStar (r : regex) : regex := RRepeat r 0 None true.
Definition RPlus (r : regex) : regex := RRepeat r 1 None true.
Definition ROpt (r : regex) : regex := RRepeat r 0 (Some 1%nat) true.
Definition RLazyStar (r : regex) : regex := RRepeat r 0 None false.

(** A literal character, and a class given by its members. *)
Definition cls_char (c : N) : N -> bool := fun x => bool_decide (x = c).
Definition cls_of (members : list N) : N -> bool := fun x => bool_decide (x ∈ members).

(** [.]: any code unit but a line terminator. *)
Definition cls_dot : N -> bool :=
  fun x => negb (bool_decide (x ∈ [0x0A; 0x0D; 0x2028; 0x2029]%N)).

(** ** Match states *)

(** [consumed] is the end index so far, [rest] the input from there on,
    [capture] the text of group 1 when it has matched. *)
Record mstate : Type := MState {
  consumed : nat;
  rest : list N;
  capture : option (list N) }.

Definition cont : Type := mstate -> option mstate.

Definition advance (x : mstate) (t : list N) : mstate :=
  {| consumed := S (consumed x); rest := t; capture := capture x |}.

Definition set_capture (x y : mstate) : mstate :=
  {| consumed := consumed y; rest := rest y;
     capture := Some (take (consumed y - consumed x) (rest x)) |}.

(** ** The matcher *)

(** RepeatMatcher: [m] is the matcher of the quantified atom. *)
Fixpoint repeat_match (fuel : nat) (m : mstate -> cont -> option mstate)
    (min : nat) (max : option nat) (greedy : bool) (x : mstate) (k : cont)
    : option mstate :=
  match fuel with
  | O => None
  | S fuel' =>
    if bool_decide (max = Some 0%nat) then k x else
    let d : cont := fun y =>
      if bool_decide (min = 0%nat) && bool_decide (consumed y = consumed x) then None
      else repeat_match fuel' m (pred min) (pred <$> max) greedy y k in
    if bool_decide (min <> 0%nat) then m x d
    else if greedy then
      match m x d with Some z => Some z | None => k x end
    else
      match k x with Some z => Some z | None => m x d end
  end.

Fixpoint rmatch (r : regex) (x : mstate) (k : cont) : option mstate :=
  match r with
  | REmpty => k x
  | RChar cls =>
    match rest x with
    | c :: t => if cls c then k (advance x t) else None
    | [] => None
    end
  | RSeq r1 r2 => rmatch r1 x (fun y => rmatch r2 y k)
  | RAlt r1 r2 =>
    match rmatch r1 x k with Some z => Some z | None => rmatch r2 x k end
  | RRepeat r1 min max greedy =>
    repeat_match (S (min + length (rest x))) (rmatch r1) min max greedy x k
  | RGroup r1 => rmatch r1 x (fun y => k (set_capture x y))
  | RBol => if bool_decide (consumed x = 0%nat) then k x else None
  | REol => match rest x with [] => k x | _ :: _ => None end
  end.

(** RegExpBuiltinExec without flags: try every start index in turn. *)
Fixpoint exec_from (r : regex) (i : nat) (s : list N) : option mstate :=
  match rmatch r {| consumed := i; rest := s; capture := None |} Some with
  | Some z => Some z
  | None =>
    match s with
    | [] => None
    | _ :: s' => exec_from r (S i) s'
    end
  end.

Definition regex_exec (r : regex) (s : list N) : option mstate := exec_from r 0 s.

(** [r.test(s)]. *)
Definition regex_test (r : regex) (s : list N) : bool :=
  bool_decide (is_Some (regex_exec r s)).

(** [s.match(r)[1]] when [s.match(r)] is not null. *)
Definition match_group1 (r : regex) (s : list N) : option (list N) :=
  z ← regex_exec r s; capture z.

(** ** States reached from a state *)

(** [y] is a state the matcher can reach from [x]: some input was consumed
    and counted. *)
Definition after (x y : mstate) : Prop :=
  exists pre, rest x = pre ++ rest y /\ consumed y = (consumed x + length pre)%nat.

(** [x] moved [n] code units forward. *)
Definition skip (x : mstate) (n : nat) : mstate :=
  {| consumed := consumed x + n; rest := drop n (rest x); capture := capture x |}.

(** A matcher is local when its result depends on its continuation only at
    states reached from where it starts. *)
Definition local (m : mstate -> cont -> option mstate) : Prop :=
  forall x k k', (forall y, after x y -> k y = k' y) -> m x k = m x k'.

(** The first state, scanning forward over code units of class [p], that the
    continuation accepts: what a lazy class loop computes. *)
Fixpoint lazy_scan (p : N -> bool) (k : cont) (x : mstate) (l : list N) : option mstate :=
  match k x with
  | Some z => Some z
  | None =>
    match l with
    | c :: t => if p c then lazy_scan p k (advance x t) t else None
    | [] => None
    end
  end.

(** A continuation that fails on every state whose next code unit is in [p]. *)
Definition rejects (p : N -> bool) (k : cont) : Prop :=
  forall y c t, rest y = c :: t -> p c = true -> k y = None.

(** ** Reachability *)

Section after.
Implicit Types x y z : mstate.

Lemma after_refl x : after x x.
Proof. exists []. split; [done|]. simpl. lia. Qed.

Lemma after_trans x y z : after x y -> after y z -> after x z.
Proof.
  intros (p1 & E1 & C1) (p2 & E2 & C2). exists (p1 ++ p2).
  rewrite E1, E2, <- app_assoc, length_app. split; [done|lia].
Qed.

Lemma after_advance x c t : rest x = c :: t -> after x (advance x t).
Proof. intros E. exists [c]. rewrite E. simpl. split; [done|lia]. Qed.

Lemma after_set_capture x x' y : after x y -> after x (set_capture x' y).
Proof. intros (p & E & C). by exists p. Qed.

Lemma after_length x y : after x y -> length (rest y) <= length (rest x).
Proof. intros (p & E & C). rewrite E, length_app. lia. Qed.

Lemma after_progress x y :
  after x y -> consumed y <> consumed x -> length (rest y) < length (rest x).
Proof. intros (p & E & C) H. rewrite E, length_app. destruct p; simpl in *; lia. Qed.

Lemma skip_0 x : skip x 0 = x.
Proof. destruct x. unfold skip. simpl. f_equal. lia. Qed.

Lemma skip_advance x c t n :
  rest x = c :: t -> skip (advance x t) n = skip x (S n).
Proof. intros E. unfold skip, advance. simpl. rewrite E. simpl. f_equal. lia. Qed.

Lemma skip_skip x n m : skip (skip x n) m = skip x (n + m).
Proof. unfold skip. simpl. rewrite drop_drop. f_equal. lia. Qed.

Lemma skip_span x (p : N -> bool) :
  rest (skip x (length (span p (rest x)).1)) = (span p (rest x)).2.
Proof.
  simpl. rewrite <- (span_app p (rest x)) at 2. by rewrite drop_app_length.
Qed.

Lemma skip_app x (l r : list N) : rest x = l ++ r -> rest (skip x (length l)) = r.
Proof. intros E. simpl. by rewrite E, drop_app_length. Qed.

Lemma after_skip x n : n <= length (rest x) -> after x (skip x n).
Proof.
  intros Hn. exists (take n (rest x)). simpl.
  rewrite take_drop, length_take. split; [done|lia].
Qed.

End after.

#[export] Hint Resolve after_refl after_advance after_set_capture : js.

(** ** Locality and fuel *)

Lemma repeat_match_local (fuel : nat) (m : mstate -> cont -> option mstate) :
  local m -> forall min max greedy, local (repeat_match fuel m min max greedy).
Proof.
  intros Hm. induction fuel as [|fuel IH]; intros min max greedy x k k' Hk; [done|].
  simpl. rewrite (Hk x (after_refl x)).
  rewrite (Hm x _ (fun y =>
    if bool_decide (min = 0%nat) && bool_decide (consumed y = consumed x) then None
    else repeat_match fuel m (pred min) (pred <$> max) greedy y k')); [done|].
  intros y Hy. split_if; [done|]. apply IH. intros z Hz. apply Hk.
  by apply after_trans with y.
Qed.

Lemma rmatch_local (r : regex) : local (rmatch r).
Proof.
  induction r as [|cls|r1 IH1 r2 IH2|r1 IH1 r2 IH2|r1 IH1 min max greedy|r1 IH1| |];
    intros x k k' Hk; cbn [rmatch].
  - apply Hk, after_refl.
  - destruct (rest x) as [|c t] eqn:E; [done|]. split_if; [|done].
    by apply Hk, (after_advance x c t).
  - apply IH1. intros y Hy. apply IH2. intros z Hz. apply Hk.
    by apply after_trans with y.
  - by rewrite (IH1 x k k'), (IH2 x k k').
  - by apply repeat_match_local.
  - apply IH1. intros y Hy. by apply Hk, after_set_capture.
  - split_if; [|done]. apply Hk, after_refl.
  - destruct (rest x); [|done]. apply Hk, after_refl.
Qed.

(** The fuel [rmatch] gives a quantifier is enough: with any two amounts
    of fuel above [min + length (rest x)], [repeat_match] returns the same
    result, so no match is lost to the bound. *)
Theorem repeat_match_fuel (m : mstate -> cont -> option mstate) (fuel fuel' : nat)
    (min : nat) (max : option nat) (greedy : bool) (x : mstate) (k : cont) :
  local m ->
  min + length (rest x) < fuel -> min + length (rest x) < fuel' ->
  repeat_match fuel m min max greedy x k = repeat_match fuel' m min max greedy x k.
Proof.
  intros Hm. revert fuel' min max x.
  induction fuel as [|fuel IH]; intros fuel' min max x Hf Hf'; [lia|].
  destruct fuel' as [|fuel']; [lia|]. simpl.
  rewrite (Hm x _ (fun y =>
    if bool_decide (min = 0%nat) && bool_decide (consumed y = consumed x) then None
    else repeat_match fuel' m (pred min) (pred <$> max) greedy y k)); [done|].
  intros y Hy. split_if; [done|].
  pose proof (after_length x y Hy).
  assert (min <> 0%nat \/ consumed y <> consumed x) as [Hmin|Hc].
  { apply andb_false_iff in Heqb as [H1|H1]; boolify; tauto. }
  - apply IH; lia.
  - pose proof (after_progress x y Hy Hc). apply IH; lia.
Qed.

Lemma repeat_match_fuel_witness :
  repeat_match 3 (rmatch (RChar is_digit)) 1 None true
    {| consumed := 0; rest := js "7"; capture := None |} Some
  = repeat_match 9 (rmatch (RChar is_digit)) 1 None true
    {| consumed := 0; rest := js "7"; capture := None |} Some.
Proof. apply repeat_match_fuel; [apply rmatch_local|simpl; lia..]. Defined.

(** ** Quantified classes *)

Lemma rmatch_char_cons (p : N -> bool) (x : mstate) (k : cont) (c : N) (t : list N) :
  rest x = c :: t ->
  rmatch (RChar p) x k = if p c then k (advance x t) else None.
Proof. intros E. simpl. by rewrite E. Qed.

Lemma rmatch_char_nil (p : N -> bool) (x : mstate) (k : cont) :
  rest x = [] -> rmatch (RChar p) x k = None.
Proof. intros E. simpl. by rewrite E. Qed.

(** One unfolding of an unbounded loop. *)
Lemma repeat_match_unbounded (fuel : nat) (m : mstate -> cont -> option mstate)
    (min : nat) (greedy : bool) (x : mstate) (k : cont) :
  repeat_match (S fuel) m min None greedy x k
  = let d : cont := fun y =>
      if bool_decide (min = 0%nat) && bool_decide (consumed y = consumed x) then None
      else repeat_match fuel m (pred min) None greedy y k in
    match min, greedy with
    | S _, _ => m x d
    | O, true => match m x d with Some z => Some z | None => k x end
    | O, false => match k x with Some z => Some z | None => m x d end
    end.
Proof. by destruct min. Qed.

Section classes.
Context (p : N -> bool) (k : cont).

(** The loop goes on after a code unit of the class. *)
Lemma repeat_class_next (fuel min : nat) (greedy : bool) (x : mstate) (c : N) (t : list N) :
  rest x = c :: t ->
  rmatch (RChar p) x (fun y =>
    if bool_decide (min = 0%nat) && bool_decide (consumed y = consumed x) then None
    else repeat_match fuel (rmatch (RChar p)) (pred min) None greedy y k)
  = if p c then repeat_match fuel (rmatch (RChar p)) (pred min) None greedy (advance x t) k
    else None.
Proof.
  intros E. rewrite (rmatch_char_cons p x _ c t E). destruct (p c); [|done].
  by rewrite (andb_false_intro2 _ (bool_decide (consumed (advance x t) = consumed x)))
    by (apply bool_decide_eq_false_2; simpl; lia).
Qed.

(** A greedy loop over a class takes the longest run when the continuation
    can never succeed in the middle of a run: backtracking finds nothing. *)
Lemma repeat_greedy_class (l : list N) :
  rejects p k ->
  forall (x : mstate) (min fuel : nat),
    rest x = l -> min + length l < fuel ->
    repeat_match fuel (rmatch (RChar p)) min None true x k
    = if length (span p l).1 <? min then None else k (skip x (length (span p l).1)).
Proof.
  intros Hk. induction l as [|c t IH]; intros x min fuel Hx Hf;
    (destruct fuel as [|fuel]; [lia|]); rewrite repeat_match_unbounded; cbn zeta.
  - rewrite (rmatch_char_nil p x _ Hx), skip_0. by destruct min.
  - rewrite (repeat_class_next fuel min true x c t Hx). cbn [span].
    destruct (p c) eqn:Hc; [|rewrite skip_0; by destruct min].
    simpl in Hf. rewrite (IH (advance x t) (pred min) fuel) by (done || lia).
    rewrite (skip_advance x c t) by done.
    destruct (span p t) as [run r] eqn:Hs. cbn [fst length].
    destruct min as [|min]; [|done]. cbn.
    destruct (k (skip x (S (length run)))) eqn:Hz; [done|].
    by apply (Hk x c t).
Qed.

(** Whether a greedy loop over a class matches at all: some length of the
    run, not below [min], is accepted by the continuation. *)
Lemma repeat_greedy_some (l : list N) :
  forall (x : mstate) (min fuel : nat),
    rest x = l -> min + length l < fuel ->
    is_Some (repeat_match fuel (rmatch (RChar p)) min None true x k)
    <-> exists n, min <= n <= length (span p l).1 /\ is_Some (k (skip x n)).
Proof.
  induction l as [|c t IH]; intros x min fuel Hx Hf;
    (destruct fuel as [|fuel]; [lia|]); rewrite repeat_match_unbounded; cbn zeta.
  - rewrite (rmatch_char_nil p x _ Hx). destruct min; simpl.
    + split; [intros H; exists 0; by rewrite skip_0|].
      intros (n & Hn & H). by replace n with 0 in H by lia; rewrite skip_0 in H.
    + split; [by intros []%is_Some_None|]. intros (n & Hn & _). lia.
  - rewrite (repeat_class_next fuel min true x c t Hx). cbn [span].
    destruct (p c) eqn:Hc; cycle 1.
    { destruct min; simpl.
      - split; [intros H; exists 0; by rewrite skip_0|].
        intros (n & Hn & H). by replace n with 0 in H by lia; rewrite skip_0 in H.
      - split; [by intros []%is_Some_None|]. intros (n & Hn & _). lia. }
    simpl in Hf. specialize (IH (advance x t) (pred min) fuel eq_refl ltac:(lia)).
    destruct (span p t) as [run r]. cbn [fst length] in *.
    setoid_rewrite (skip_advance x c t) in IH; [|done].
    destruct min as [|min]; cbn [pred] in *.
    + destruct (repeat_match fuel _ 0 None true (advance x t) k) as [z|] eqn:E.
      * split; [intros _|done]. destruct (proj1 IH) as (n & Hn & H); [done|].
        exists (S n). split; [lia|done].
      * split.
        -- intros H. exists 0. split; [lia|]. by rewrite skip_0.
        -- intros ([|n] & Hn & H); [by rewrite skip_0 in H|].
           exfalso. eapply is_Some_None, IH. exists n. split; [lia|done].
    + rewrite IH. split; intros (n & Hn & H).
      * exists (S n). split; [lia|done].
      * destruct n as [|n]; [lia|]. exists n. split; [lia|done].
Qed.

(** A lazy loop over a class stops at the first state the continuation
    accepts. *)
Lemma repeat_lazy_class (l : list N) :
  forall (x : mstate) (fuel : nat),
    rest x = l -> length l < fuel ->
    repeat_match fuel (rmatch (RChar p)) 0 None false x k = lazy_scan p k x l.
Proof.
  induction l as [|c t IH]; intros x fuel Hx Hf;
    (destruct fuel as [|fuel]; [lia|]); rewrite repeat_match_unbounded;
    cbn zeta iota; cbn [lazy_scan]; destruct (k x); try done.
  - by apply rmatch_char_nil.
  - rewrite (repeat_class_next fuel 0 false x c t Hx). destruct (p c); [|done].
    simpl in Hf. apply IH; [done|lia].
Qed.

End classes.

(** A guard in front of a continuation keeps what it rejects. *)
Lemma rejects_guard (p : N -> bool) (k : cont) (b : mstate -> bool) :
  rejects p k -> rejects p (fun y => if b y then None else k y).
Proof. intros Hk y c t Hy Hc. destruct (b y); [done|]. by apply (Hk y c t). Qed.

(** The matcher depends on its continuation only through its values. *)
Lemma rmatch_ext (r : regex) (x : mstate) (k k' : cont) :
  (forall y, k y = k' y) -> rmatch r x k = rmatch r x k'.
Proof. intros E. apply rmatch_local. intros y _. apply E. Qed.

(** [r?]: try [r] once, with a non-empty match, else go on without it. *)
Lemma repeat_opt (m : mstate -> cont -> option mstate) (k : cont) (x : mstate) (f : nat) :
  repeat_match (S (S f)) m 0 (Some 1%nat) true x k
  = match m x (fun y => if bool_decide (consumed y = consumed x) then None else k y) with
    | Some z => Some z
    | None => k x
    end.
Proof. reflexivity. Qed.

(** [p+] in front of [r], as the loop it is. *)
Lemma rmatch_plus_seq (p : N -> bool) (r : regex) (x : mstate) (k : cont) :
  rmatch (RSeq (RPlus (RChar p)) r) x k
  = repeat_match (S (1 + length (rest x))) (rmatch (RChar p)) 1 None true x
      (fun y => rmatch r y k).
Proof. reflexivity. Qed.

(** An optional character: taken when the continuation accepts after it. *)
Lemma rmatch_opt_char (p : N -> bool) (k : cont) (y : mstate) :
  rmatch (ROpt (RChar p)) y k
  = match rest y with
    | c :: t =>
      if p c then match k (advance y t) with Some z => Some z | None => k y end
      else k y
    | [] => k y
    end.
Proof.
  change (rmatch (ROpt (RChar p)) y k) with
    (repeat_match (S (0 + length (rest y))) (rmatch (RChar p)) 0 (Some 1%nat) true y k).
  destruct (rest y) as [|c t] eqn:E.
  - simpl. by rewrite !E.
  - cbn [length Nat.add]. rewrite repeat_opt, (rmatch_char_cons p y _ c t E).
    destruct (p c); [|done]. by rewrite bool_decide_eq_false_2 by (simpl; lia).
Qed.

(** ** Unanchored search *)

Section search.
Context (p : N -> bool) (body : regex).

Lemma lazy_scan_exec (s : list N) (i : nat) (z : mstate) :
  lazy_scan p (fun y => rmatch body y Some)
            {| consumed := i; rest := s; capture := None |} s = Some z ->
  exec_from body i s = Some z.
Proof.
  revert i. induction s as [|c t IH]; intros i; cbn [lazy_scan exec_from];
    destruct (rmatch body _ Some) eqn:E; try done.
  destruct (p c); [|done]. apply IH.
Qed.

Lemma lazy_scan_none (s : list N) (x : mstate) (kk : cont) :
  lazy_scan p kk x s = None -> kk x = None.
Proof. destruct s; simpl; by destruct (kk x). Qed.

(** A lazy class loop in front of a pattern does not change what an
    unanchored search finds: the search tries every start index anyway. *)
Lemma exec_from_lazy_prefix (s : list N) (i : nat) :
  exec_from (RSeq (RLazyStar (RChar p)) body) i s = exec_from body i s.
Proof.
  revert i. induction s as [|c t IH]; intros i; cbn [exec_from rmatch RLazyStar].
  - rewrite (repeat_lazy_class p _ []) by (simpl; done || lia). simpl.
    by destruct (rmatch body _ Some).
  - rewrite (repeat_lazy_class p _ (c :: t)) by (simpl; done || lia).
    destruct (lazy_scan p _ _ (c :: t)) as [z|] eqn:E.
    + apply lazy_scan_exec in E. cbn [exec_from] in E. by rewrite E.
    + apply lazy_scan_none in E. rewrite E. apply IH.
Qed.

End search.
