(* ===== verification/Patterns.v ===== *)
(** * Patterns: the regular expressions of src/speech.js and what they find

    [distancePattern] and [anglePattern] are the literals of processCommand
    (lines 202 and 219), [arabicPattern] the test that routes a captured
    numeral to parseArabicNumber (lines 206 and 223), [lowAnglePattern] and
    [highAnglePattern] the literals of checkAndCalculate (lines 381 and 382),
    all as syntax trees for the matcher of [JsRegex].

    Beside them stands a scanner without backtracking: [numeral_scan] reads
    the longest run of numeral characters and its optional fraction, and
    [quantity_search] finds the first position of the transcript where a
    numeral is followed by white space and the unit.  The theorems show that
    the backtracking matcher computes exactly the scanner's answer. *)

From Stdlib Require Import ZArith NArith Lia String.
From stdpp Require Import base tactics option list numbers.
From S2P Require Import Prelude JsRegex.

(** ** Character classes *)

(** A class, or a single character, given by its members. *)
Definition ch (members : string) : N -> bool := cls_of (js members).

(** [[零一二三四五六七八九十百千万\d]] and [[零一二三四五六七八九\d]]. *)
Definition cn_numerals : string := "零一二三四五六七八九十百千万".
Definition cn_digits : string := "零一二三四五六七八九".
Definition cls_cn (c : N) : bool := ch cn_numerals c || is_digit c.
Definition cls_cnd (c : N) : bool := ch cn_digits c || is_digit c.

(** ** The patterns *)

(** [p+(?:sep q+)?]: the shape of both alternatives of the group. *)
Definition numeral (p sep q : N -> bool) : regex :=
  RSeq (RPlus (RChar p)) (ROpt (RSeq (RChar sep) (RPlus (RChar q)))).

Definition chinese_numeral : regex := numeral cls_cn (ch "点") cls_cnd.
Definition arabic_numeral : regex := numeral is_digit (ch ".") is_digit.

(** [(numeral|numeral)\s*unit]: a pattern without its leading [.*?]. *)
Definition quantity_body (unit : N -> bool) : regex :=
  RSeq (RGroup (RAlt chinese_numeral arabic_numeral))
       (RSeq (RStar (RChar is_space)) (RChar unit)).

Definition quantity_pattern (unit : N -> bool) : regex :=
  RSeq (RLazyStar (RChar cls_dot)) (quantity_body unit).

Definition distancePattern : regex := quantity_pattern (ch "米").
Definition anglePattern : regex := quantity_pattern (ch "度°").

(** [/^\d+\.?\d*$/]. *)
Definition arabicPattern : regex :=
  RSeq RBol (RSeq (RPlus (RChar is_digit))
    (RSeq (ROpt (RChar (ch "."))) (RSeq (RStar (RChar is_digit)) REol))).

(** A literal string. *)
Definition lit (s : list N) : regex :=
  foldr (fun c r => RSeq (RChar (cls_char c)) r) REmpty s.

(** The label, an optional colon, white space, and in the group digits, an
    optional dot and digits. *)
Definition result_pattern (label : string) : regex :=
  RSeq (lit (js label)) (RSeq (ROpt (RChar (ch ":"))) (RSeq (RStar (RChar is_space))
    (RGroup (RSeq (RPlus (RChar is_digit))
      (RSeq (ROpt (RChar (ch "."))) (RStar (RChar is_digit))))))).

Definition lowAnglePattern : regex := result_pattern "低射角度".
Definition highAnglePattern : regex := result_pattern "高射角度".

(** ** The scanner *)

(** On states: the numeral at [x] and the continuation's verdict.  The run
    of [p] is read to its end; a separator and a non-empty run of [q] are
    taken when the continuation accepts after them, else left. *)
Definition numeral_scan (p sep q : N -> bool) (k : cont) (x : mstate) : option mstate :=
  let '(ip, r1) := span p (rest x) in
  if bool_decide (ip = []) then None else
  let x1 := skip x (length ip) in
  match r1 with
  | c :: r2 =>
    let fp := (span q r2).1 in
    if sep c && negb (bool_decide (fp = [])) then
      match k (skip x (length ip + S (length fp))) with
      | Some z => Some z
      | None => k x1
      end
    else k x1
  | [] => k x1
  end.

(** White space, then the unit. *)
Definition unit_tail (unit : N -> bool) (y : mstate) : option mstate :=
  let y' := skip y (length (span is_space (rest y)).1) in
  match rest y' with
  | c :: t => if unit c then Some (advance y' t) else None
  | [] => None
  end.

Definition quantity_scan (unit : N -> bool) (x : mstate) : option mstate :=
  let k : cont := fun y => unit_tail unit (set_capture x y) in
  match numeral_scan cls_cn (ch "点") cls_cnd k x with
  | Some z => Some z
  | None => numeral_scan is_digit (ch ".") is_digit k x
  end.

(** On strings: the text of the numeral at the head of [s], when white
    space and the unit follow it. *)
Definition followed_by (unit : N -> bool) (r : list N) : bool :=
  match (span is_space r).2 with
  | c :: _ => unit c
  | [] => false
  end.

Definition numeral_at (p sep q unit : N -> bool) (s : list N) : option (list N) :=
  let '(ip, r1) := span p s in
  if bool_decide (ip = []) then None else
  let plain := if followed_by unit r1 then Some ip else None in
  match r1 with
  | c :: r2 =>
    let '(fp, r3) := span q r2 in
    if sep c && negb (bool_decide (fp = [])) && followed_by unit r3
    then Some (ip ++ c :: fp) else plain
  | [] => plain
  end.

Definition quantity_at (unit : N -> bool) (s : list N) : option (list N) :=
  match numeral_at cls_cn (ch "点") cls_cnd unit s with
  | Some text => Some text
  | None => numeral_at is_digit (ch ".") is_digit unit s
  end.

(** The first position of [s] with a quantity. *)
Fixpoint quantity_search (unit : N -> bool) (s : list N) : option (list N) :=
  match quantity_at unit s with
  | Some text => Some text
  | None =>
    match s with
    | [] => None
    | _ :: s' => quantity_search unit s'
    end
  end.

(** The code units a captured numeral may hold. *)
Definition numeral_char (c : N) : bool := cls_cn c || ch "点" c || ch "." c.

(** What may follow the first digits of an Arabic numeral: digits, or a dot
    and digits. *)
Definition arabic_tail (r : list N) : bool :=
  forallb is_digit r ||
  match r with
  | c :: t => ch "." c && forallb is_digit t
  | [] => false
  end.

(** What [/^\d+\.?\d*$/] accepts. *)
Definition is_arabic (s : list N) : bool :=
  let '(ip, r) := span is_digit s in
  negb (bool_decide (ip = [])) &&
  match r with
  | [] => true
  | c :: fp => ch "." c && forallb is_digit fp
  end.

(** A unit is neither white space nor a numeral character. *)
Definition unit_class (unit : N -> bool) : Prop :=
  forall c, unit c = true -> is_space c = false /\ cls_cn c = false.

(** ** The patterns on the phrases of the help panel *)

Example distancePattern_examples :
  match_group1 distancePattern (js "距离150米") = Some (js "150") /\
  match_group1 distancePattern (js "设置距离200米") = Some (js "200") /\
  match_group1 distancePattern (js "三百五十米") = Some (js "三百五十") /\
  match_group1 distancePattern (js "三点五米") = Some (js "三点五") /\
  match_group1 distancePattern (js "距离 3.5 米") = Some (js "3.5") /\
  match_group1 distancePattern (js "一百.5米") = Some (js "5") /\
  match_group1 distancePattern (js "角度30度") = None.
Proof. vm_compute. done. Qed.

Example anglePattern_examples :
  match_group1 anglePattern (js "角度30度") = Some (js "30") /\
  match_group1 anglePattern (js "负20度") = Some (js "20") /\
  match_group1 anglePattern (js "二十五点八度") = Some (js "二十五点八") /\
  match_group1 anglePattern (js "45°") = Some (js "45") /\
  match_group1 anglePattern (js "随便说点什么") = None.
Proof. vm_compute. done. Qed.

Example arabicPattern_examples :
  regex_test arabicPattern (js "150") = true /\
  regex_test arabicPattern (js "3.5") = true /\
  regex_test arabicPattern (js "3.") = true /\
  regex_test arabicPattern (js "3点5") = false /\
  regex_test arabicPattern (js ".5") = false /\
  regex_test arabicPattern (js "三十") = false.
Proof. vm_compute. done. Qed.

Example result_pattern_examples :
  match_group1 lowAnglePattern (js "低射角度: 12.34 高射角度: 56.7") = Some (js "12.34") /\
  match_group1 highAnglePattern (js "低射角度: 12.34 高射角度: 56.7") = Some (js "56.7") /\
  match_group1 highAnglePattern (js "低射角度12") = None.
Proof. vm_compute. done. Qed.

Example quantity_search_examples :
  quantity_search (ch "米") (js "距离150米") = Some (js "150") /\
  quantity_search (ch "米") (js "三点五米") = Some (js "三点五") /\
  quantity_search (ch "米") (js "距离 3.5 米") = Some (js "3.5") /\
  quantity_search (ch "米") (js "一百.5米") = Some (js "5") /\
  quantity_search (ch "度°") (js "随便说点什么") = None.
Proof. vm_compute. done. Qed.

(** ** The numeral shape, determinised *)

Section numeral.
Context (p sep q : N -> bool) (k : cont).
Hypothesis Hp : rejects p k.
Hypothesis Hq : rejects q k.
Hypothesis Hsep : forall c, p c = true -> sep c = false.

(** The optional fraction and what follows fail in the middle of a run. *)
Lemma fraction_rejects :
  rejects p (fun y => rmatch (ROpt (RSeq (RChar sep) (RPlus (RChar q)))) y k).
Proof.
  intros y c t Hy Hc. cbn [rmatch ROpt]. rewrite Hy. cbn [length Nat.add].
  rewrite repeat_opt. cbn [rmatch]. rewrite Hy, (Hsep c Hc). by apply (Hp y c t).
Qed.

(** The fraction at a state that stands on the separator. *)
Lemma rmatch_fraction (x1 : mstate) (c : N) (r2 : list N) :
  rest x1 = c :: r2 ->
  rmatch (ROpt (RSeq (RChar sep) (RPlus (RChar q)))) x1 k
  = if sep c && negb (bool_decide ((span q r2).1 = [])) then
      match k (skip x1 (S (length (span q r2).1))) with
      | Some z => Some z
      | None => k x1
      end
    else k x1.
Proof.
  intros E. cbn [rmatch ROpt]. rewrite E. cbn [length Nat.add].
  rewrite repeat_opt. cbn [rmatch RPlus]. rewrite E.
  destruct (sep c); [|done]. cbn [andb].
  rewrite (repeat_greedy_class q _ r2) by
    (simpl; first [done | lia | by apply (rejects_guard q k)]).
  rewrite (skip_advance x1 c r2) by done.
  destruct (span q r2).1 as [|d fp]; [done|].
  rewrite bool_decide_eq_false_2 by (simpl; lia). done.
Qed.

Lemma rmatch_fraction_end (x1 : mstate) :
  rest x1 = [] -> rmatch (ROpt (RSeq (RChar sep) (RPlus (RChar q)))) x1 k = k x1.
Proof.
  intros E. simpl. by rewrite !E.
Qed.

Lemma rmatch_numeral (x : mstate) :
  rmatch (numeral p sep q) x k = numeral_scan p sep q k x.
Proof.
  unfold numeral, numeral_scan. cbn [rmatch RPlus].
  rewrite (repeat_greedy_class p _ (rest x) fraction_rejects x 1) by (done || lia).
  pose proof (skip_span x p) as Hr.
  destruct (span p (rest x)) as [ip r1]. cbn [fst snd] in *.
  destruct ip as [|c0 ip]; [done|].
  change (length (c0 :: ip) <? 1) with false. cbv iota.
  rewrite bool_decide_eq_false_2 by done.
  destruct r1 as [|c r2].
  - by apply rmatch_fraction_end.
  - rewrite (rmatch_fraction _ c r2 Hr), skip_skip. done.
Qed.

End numeral.

(** ** Facts about the classes *)

Lemma ch_forall (members : string) (P : N -> bool) (c : N) :
  forallb P (js members) = true -> ch members c = true -> P c = true.
Proof.
  rewrite forallb_forall. intros H Hc. apply H, list_elem_of_In.
  by apply bool_decide_eq_true_1 in Hc.
Qed.

Lemma ch_disjoint (members : string) (P : N -> bool) (c : N) :
  forallb (fun m => negb (P m)) (js members) = true -> P c = true -> ch members c = false.
Proof.
  intros H Hc. destruct (ch members c) eqn:E; [|done].
  apply (ch_forall members _ c H) in E. by rewrite Hc in E.
Qed.

Lemma digit_cn (c : N) : is_digit c = true -> cls_cn c = true.
Proof. intros H. unfold cls_cn. rewrite H. apply orb_true_r. Qed.

Lemma cls_cnd_cn (c : N) : cls_cnd c = true -> cls_cn c = true.
Proof.
  unfold cls_cnd, cls_cn. intros [H| ->]%orb_true_iff; [|apply orb_true_r].
  apply orb_true_iff. left. by apply (ch_forall cn_digits (ch cn_numerals) c); [vm_compute|].
Qed.

Lemma cls_cn_not_space (c : N) : cls_cn c = true -> is_space c = false.
Proof.
  unfold cls_cn. intros [H|H]%orb_true_iff; [|by apply is_digit_not_space].
  apply negb_true_iff.
  by apply (ch_forall cn_numerals (fun m => negb (is_space m)) c); [vm_compute|].
Qed.

Lemma cls_cn_not_point (c : N) : cls_cn c = true -> ch "点" c = false.
Proof.
  unfold cls_cn. intros [H|H]%orb_true_iff; [|by apply (ch_disjoint "点" is_digit c); [vm_compute|]].
  apply negb_true_iff.
  by apply (ch_forall cn_numerals (fun m => negb (ch "点" m)) c); [vm_compute|].
Qed.

Lemma digit_not_dot (c : N) : is_digit c = true -> ch "." c = false.
Proof. intros H. by apply (ch_disjoint "." is_digit c); [vm_compute|]. Qed.

Lemma ch_unit_class (members : string) :
  forallb (fun m => negb (is_space m) && negb (cls_cn m)) (js members) = true ->
  unit_class (ch members).
Proof.
  intros H c Hc. apply (ch_forall _ _ c H) in Hc.
  by apply andb_true_iff in Hc as [?%negb_true_iff ?%negb_true_iff].
Qed.

Lemma unit_class_metre : unit_class (ch "米").
Proof. apply (ch_unit_class "米"). by vm_compute. Qed.

Lemma unit_class_degree : unit_class (ch "度°").
Proof. apply (ch_unit_class "度°"). by vm_compute. Qed.

#[export] Hint Resolve digit_cn cls_cnd_cn cls_cn_not_space cls_cn_not_point digit_not_dot
  unit_class_metre unit_class_degree : js.

(** ** A quantity at a state *)

Section quantity.
Context (unit : N -> bool).
Hypothesis Hunit : unit_class unit.

Lemma unit_not_cn (c : N) : cls_cn c = true -> unit c = false.
Proof. intros Hc. destruct (unit c) eqn:E; [|done]. apply Hunit in E as [_ E]. congruence. Qed.

Lemma rmatch_unit_tail (y : mstate) :
  rmatch (RSeq (RStar (RChar is_space)) (RChar unit)) y Some = unit_tail unit y.
Proof.
  assert (rejects is_space (fun z => rmatch (RChar unit) z Some)) as Hk.
  { intros z c t Hz Hc. cbn [rmatch]. rewrite Hz.
    destruct (unit c) eqn:E; [|done]. apply Hunit in E as [E _]. congruence. }
  cbn [rmatch RStar]. by rewrite (repeat_greedy_class is_space _ (rest y) Hk) by (done || lia).
Qed.

(** The tail fails in front of a numeral character. *)
Lemma unit_tail_rejects (p : N -> bool) (x : mstate) :
  (forall c, p c = true -> cls_cn c = true) ->
  rejects p (fun y => unit_tail unit (set_capture x y)).
Proof.
  intros Hp y c t Hy Hc%Hp. unfold unit_tail. cbn [rest set_capture]. rewrite Hy.
  rewrite span_stop by by apply cls_cn_not_space. cbn [fst length].
  rewrite skip_0. cbn [rest set_capture]. rewrite Hy. by rewrite unit_not_cn.
Qed.

Lemma rmatch_quantity_body (x : mstate) :
  rmatch (quantity_body unit) x Some = quantity_scan unit x.
Proof.
  unfold quantity_body, quantity_scan, chinese_numeral, arabic_numeral. cbn [rmatch].
  rewrite (rmatch_ext (numeral cls_cn _ _) x _ (fun y => unit_tail unit (set_capture x y))),
    (rmatch_ext (numeral is_digit _ _) x _ (fun y => unit_tail unit (set_capture x y)))
    by (intros y; apply rmatch_unit_tail).
  pose proof (unit_tail_rejects cls_cn x (fun c H => H)) as H1.
  pose proof (unit_tail_rejects cls_cnd x cls_cnd_cn) as H2.
  pose proof (unit_tail_rejects is_digit x digit_cn) as H3.
  by rewrite (rmatch_numeral _ _ _ _ H1 H2 cls_cn_not_point),
    (rmatch_numeral _ _ _ _ H3 H3 digit_not_dot).
Qed.

End quantity.

(** ** From states to strings *)

Lemma fmap_or_else {A B} (f : A -> B) (a b : option A) :
  f <$> match a with Some z => Some z | None => b end
  = match f <$> a with Some t => Some t | None => f <$> b end.
Proof. by destruct a. Qed.

Section strings.
Context (unit : N -> bool).

(** What the tail answers after [text], and the group it leaves. *)
Lemma unit_tail_capture (x : mstate) (text r : list N) :
  rest x = text ++ r ->
  capture <$> unit_tail unit (set_capture x (skip x (length text)))
  = if followed_by unit r then Some (Some text) else None.
Proof.
  intros E. unfold unit_tail, followed_by. rewrite skip_span.
  replace (rest (set_capture x (skip x (length text)))) with r
    by (simpl; by rewrite E, drop_app_length).
  destruct (span is_space r).2 as [|c t]; [done|]. destruct (unit c); [|done].
  simpl. rewrite E. do 3 f_equal.
  replace (consumed x + length text - consumed x) with (length text) by lia.
  by rewrite take_app_length.
Qed.

Lemma numeral_scan_at (p sep q : N -> bool) (x : mstate) :
  capture <$> numeral_scan p sep q (fun y => unit_tail unit (set_capture x y)) x
  = Some <$> numeral_at p sep q unit (rest x).
Proof.
  unfold numeral_scan, numeral_at. pose proof (span_app p (rest x)) as E.
  destruct (span p (rest x)) as [ip r1]. cbn [fst snd] in E.
  case_bool_decide; [done|]. symmetry in E.
  pose proof (unit_tail_capture x ip r1 E) as Hplain.
  destruct r1 as [|c r2]; [by rewrite Hplain; destruct (followed_by unit [])|].
  pose proof (span_app q r2) as E2. destruct (span q r2) as [fp r3]. cbn [fst snd] in *.
  destruct (sep c && negb (bool_decide (fp = []))); cbn [andb];
    [|by rewrite Hplain; destruct (followed_by unit (c :: r2))].
  rewrite fmap_or_else, Hplain.
  replace (length ip + S (length fp)) with (length (ip ++ c :: fp))
    by (rewrite length_app; simpl; lia).
  rewrite (unit_tail_capture x (ip ++ c :: fp) r3) by (by rewrite E, <- E2, <- app_assoc).
  by destruct (followed_by unit r3), (followed_by unit (c :: r2)).
Qed.

Lemma quantity_scan_at (x : mstate) :
  capture <$> quantity_scan unit x = Some <$> quantity_at unit (rest x).
Proof.
  unfold quantity_scan, quantity_at. rewrite fmap_or_else, !numeral_scan_at.
  by destruct (numeral_at cls_cn _ _ _ _).
Qed.

Hypothesis Hunit : unit_class unit.

Lemma exec_from_quantity (s : list N) (i : nat) :
  exec_from (quantity_body unit) i s ≫= capture = quantity_search unit s.
Proof.
  revert i. induction s as [|c s IH]; intros i; cbn [exec_from quantity_search];
    rewrite (rmatch_quantity_body unit Hunit);
    match goal with |- context [quantity_scan unit ?x] =>
      pose proof (quantity_scan_at x) as H; cbn [rest] in H;
      destruct (quantity_scan unit x)
    end; destruct (quantity_at _ _); by simplify_eq/=.
Qed.

End strings.

(** The first group of a match of the quantity pattern of any unit class is
    what the scanner finds. *)
Lemma match_quantity (unit : N -> bool) (s : list N) :
  unit_class unit ->
  match_group1 (quantity_pattern unit) s = quantity_search unit s.
Proof.
  intros Hunit. unfold match_group1, regex_exec, quantity_pattern.
  rewrite exec_from_lazy_prefix. by apply exec_from_quantity.
Qed.

(** C4: on every transcript, the first group of a match of the distance
    pattern and of the angle pattern is the text the scanner finds for the
    unit: the first position where a longest run of numeral characters, with
    its fraction when one follows, stands before white space and the unit;
    and the match is null exactly when the scanner finds nothing. *)
Theorem quantity_pattern_scanner (s : list N) :
  match_group1 distancePattern s = quantity_search (ch "米") s
  /\ match_group1 anglePattern s = quantity_search (ch "度°") s.
Proof. split; apply match_quantity; [apply unit_class_metre|apply unit_class_degree]. Qed.

(** ** The characters of a capture *)

Lemma numeral_at_Forall (P : N -> Prop) (p sep q unit : N -> bool) (s text : list N) :
  (forall c, p c = true -> P c) -> (forall c, sep c = true -> P c) ->
  (forall c, q c = true -> P c) ->
  numeral_at p sep q unit s = Some text -> Forall P text.
Proof.
  intros Hp Hsep Hq. unfold numeral_at.
  pose proof (span_fst_Forall p s) as Hip. destruct (span p s) as [ip r1].
  cbn [fst] in Hip. apply (Forall_weaken _ P _ Hp) in Hip.
  case_bool_decide; [done|].
  assert (forall o : option (list N),
            (if followed_by unit r1 then Some ip else None) = o -> o = Some text ->
            Forall P text) as Hplain.
  { intros o <-. destruct (followed_by unit r1); by intros [= <-]. }
  destruct r1 as [|c r2]; [by apply Hplain|].
  pose proof (span_fst_Forall q r2) as Hfp. destruct (span q r2) as [fp r3].
  cbn [fst] in Hfp. apply (Forall_weaken _ P _ Hq) in Hfp.
  destruct (sep c) eqn:Hc; cbn [andb]; [|by apply Hplain].
  destruct (negb (bool_decide (fp = [])) && followed_by unit r3); [|by apply Hplain].
  intros [= <-]. apply Forall_app. split; [done|]. constructor; [by apply Hsep|done].
Qed.

Section chars.
Context (unit : N -> bool).

Lemma numeral_char_cn (c : N) : cls_cn c = true -> numeral_char c = true.
Proof. intros Hc. unfold numeral_char. by rewrite Hc. Qed.

Lemma numeral_char_sep (c : N) : ch "点" c || ch "." c = true -> numeral_char c = true.
Proof. intros Hc. unfold numeral_char. by rewrite <- orb_assoc, Hc, orb_true_r. Qed.

Lemma quantity_at_chars (s text : list N) :
  quantity_at unit s = Some text -> Forall (fun c => numeral_char c = true) text.
Proof.
  unfold quantity_at.
  destruct (numeral_at cls_cn (ch "点") cls_cnd unit s) as [t|] eqn:E.
  - intros [= <-]. revert E. apply numeral_at_Forall; intros c Hc.
    + by apply numeral_char_cn.
    + apply numeral_char_sep. by rewrite Hc.
    + by apply numeral_char_cn, cls_cnd_cn.
  - apply numeral_at_Forall; intros c Hc.
    + by apply numeral_char_cn, digit_cn.
    + apply numeral_char_sep. by rewrite Hc, orb_true_r.
    + by apply numeral_char_cn, digit_cn.
Qed.

(** A capture is made of numeral characters, a 点 or a dot. *)
Lemma quantity_search_chars (s text : list N) :
  quantity_search unit s = Some text -> Forall (fun c => numeral_char c = true) text.
Proof.
  induction s as [|c s IH]; cbn [quantity_search].
  - destruct (quantity_at unit []) eqn:E; [|done]. intros [= <-]. by apply (quantity_at_chars []).
  - destruct (quantity_at unit (c :: s)) eqn:E; [|done].
    intros [= <-]. by apply (quantity_at_chars (c :: s)).
Qed.

End chars.

(** ** The test for an Arabic numeral *)

(** A pattern that starts with [^] matches at the start or not at all. *)
Lemma exec_from_bol (r : regex) (s : list N) (i : nat) :
  exec_from (RSeq RBol r) (S i) s = None.
Proof. revert i. induction s as [|c s IH]; intros i; simpl; [done|apply IH]. Qed.

Lemma regex_exec_bol (r : regex) (s : list N) :
  regex_exec (RSeq RBol r) s = rmatch r {| consumed := 0; rest := s; capture := None |} Some.
Proof.
  unfold regex_exec. destruct s as [|c s]; simpl;
    destruct (rmatch r _ Some); try done. apply exec_from_bol.
Qed.

(** Digits to the end of the input. *)
Lemma rmatch_digits_end (y : mstate) :
  is_Some (rmatch (RSeq (RStar (RChar is_digit)) REol) y Some)
  <-> forallb is_digit (rest y) = true.
Proof.
  cbn [rmatch RStar].
  rewrite (repeat_greedy_class is_digit _ (rest y)) by
    (first [done | lia | by intros z c t Hz _; cbn [rmatch]; rewrite Hz]).
  change (_ <? 0) with false. cbv iota. cbn [rmatch]. rewrite skip_span.
  rewrite forallb_Forall, <- span_snd_nil.
  destruct (span is_digit (rest y)).2; [by split|]. split; [by intros []%is_Some_None|done].
Qed.

(** An optional dot, then digits to the end. *)
Lemma rmatch_arabic_tail (y : mstate) :
  is_Some (rmatch (RSeq (ROpt (RChar (ch "."))) (RSeq (RStar (RChar is_digit)) REol)) y Some)
  <-> arabic_tail (rest y) = true.
Proof.
  change (rmatch (RSeq (ROpt _) _) y Some) with
    (rmatch (ROpt (RChar (ch "."))) y
       (fun z => rmatch (RSeq (RStar (RChar is_digit)) REol) z Some)).
  rewrite rmatch_opt_char. unfold arabic_tail.
  pose proof (rmatch_digits_end y) as H2. destruct (rest y) as [|c t] eqn:E.
  - by rewrite orb_false_r.
  - pose proof (rmatch_digits_end (advance y t)) as H1. cbn [rest advance] in H1.
    rewrite orb_true_iff, andb_true_iff, <- H1, <- H2.
    destruct (ch "." c); [|split; [by left|by intros [|[]]]].
    destruct (rmatch _ (advance y t) Some); [split; [by right|done]|].
    split; [by left|]. by intros [|[_ []%is_Some_None]].
Qed.

(** [is_arabic] by the lengths the digits in front may have. *)
Lemma is_arabic_tail (s : list N) :
  is_arabic s = true
  <-> exists n, 1 <= n <= length (span is_digit s).1 /\ arabic_tail (drop n s) = true.
Proof.
  unfold is_arabic, arabic_tail. pose proof (span_app is_digit s) as E.
  pose proof (span_fst_Forall is_digit s) as Hip.
  pose proof (span_snd_head is_digit s) as Hr.
  destruct (span is_digit s) as [ip r]. cbn [fst snd] in *. subst s.
  rewrite andb_true_iff, negb_true_iff, bool_decide_eq_false. split.
  - intros [Hne Ht]. exists (length ip). rewrite drop_app_length.
    split; [destruct ip; simpl; [done|lia]|]. destruct r; [done|].
    by rewrite Ht, orb_true_r.
  - intros (n & Hn & Ht). split; [intros ->; simpl in Hn; lia|].
    rewrite drop_app_le in Ht by lia.
    apply orb_true_iff in Ht as [Ht|Ht].
    + apply forallb_Forall, Forall_app in Ht as [_ Ht]. destruct r as [|c r]; [done|].
      apply Forall_inv in Ht. by rewrite (Hr c r) in Ht.
    + destruct (drop n ip) as [|c t] eqn:Ed; [simpl in Ht; by destruct r|]. simpl in Ht.
      assert (is_digit c = true) as Hc.
      { apply (Forall_drop _ n) in Hip. rewrite Ed in Hip. by apply Forall_inv in Hip. }
      by rewrite (digit_not_dot c Hc) in Ht.
Qed.

(** The test of line 206 is the function [is_arabic]. *)
Lemma regex_test_arabic (s : list N) : regex_test arabicPattern s = is_arabic s.
Proof.
  apply Bool.eq_iff_eq_true. unfold regex_test, arabicPattern.
  rewrite bool_decide_eq_true, regex_exec_bol, is_arabic_tail, rmatch_plus_seq.
  rewrite (repeat_greedy_some is_digit _ s) by (simpl; done || lia).
  apply exist_proper. intros n. by rewrite rmatch_arabic_tail.
Qed.

Lemma ch_dot (c : N) : ch "." c = true -> c = 0x2E%N.
Proof. intros H%bool_decide_eq_true_1. by apply list_elem_of_singleton in H. Qed.

(** C10: the test that sends a captured numeral to parseArabicNumber accepts
    exactly the texts made of one digit or more, then nothing or a dot and
    any number of digits; every other text, a Chinese numeral or digits with
    点, goes to parseChineseNumber. *)
Theorem arabicPattern_spec (s : list N) :
  regex_test arabicPattern s = true
  <-> exists ip fp, ip <> [] /\ Forall (fun c => is_digit c = true) ip
        /\ Forall (fun c => is_digit c = true) fp
        /\ (s = ip \/ s = ip ++ js "." ++ fp).
Proof.
  rewrite regex_test_arabic. unfold is_arabic. split.
  - pose proof (span_app is_digit s) as E.
    pose proof (span_fst_Forall is_digit s) as Hip.
    destruct (span is_digit s) as [ip r]. cbn [fst snd] in *. subst s.
    rewrite andb_true_iff, negb_true_iff, bool_decide_eq_false. intros [Hne Hr].
    destruct r as [|c fp]; [exists ip, []; by rewrite app_nil_r; eauto|].
    apply andb_true_iff in Hr as [->%ch_dot Hfp%forallb_Forall].
    exists ip, fp. eauto.
  - intros (ip & fp & Hne & Hip & Hfp & [->| ->]).
    + rewrite span_all by done. by destruct ip.
    + rewrite span_unique by done. apply forallb_Forall in Hfp.
      destruct ip; [done|]. simpl. by rewrite Hfp.
Qed.
