(* ===== verification/World.v ===== *)
(** * World: the handler object, the browser around it, and the handler monad

    The methods of class SpeechHandler (src/speech.js) read and write the
    fields of [this], call the recognition and synthesis engines, set timers
    and touch the page.  This file gives the state they run in and the monad
    they are written in.

    - [SpeechHandler] is the object: one field per property the constructor
      initialises (lines 12-15, 33-34).
    - [browser] is what the code reaches through window: the state of the
      recognition session, the utterances handed to speechSynthesis, the
      pending timers, and the list [calls] of what the handler asked of the
      two engines, oldest first.
    - [page] is what it reaches through document: the children of
      #voiceLogContent, the two input fields, the text of #results, the
      clicks it made and the lines it wrote to the console.
    - [M A] is a state monad over [world] with exceptions: a JavaScript
      exception leaves the state as it is at the throw and unwinds to the
      nearest [try_catch].

    The operations on the browser are modelled from the Web Speech API and
    the DOM, not from the source: [recognition_start] throws when a session
    is open, [synth_speak] appends to the engine's queue, [synth_cancel]
    empties it, [set_timeout] adds a timer.

    Strings built by template literals are [template]s: lists of literal
    text and numbers, so that no claim depends on how a number prints. *)

From Stdlib Require Import ZArith NArith QArith Lia String.
From stdpp Require Import base tactics option list numbers.
From S2P Require Import Prelude.

(** ** Strings with numbers in them *)

(** What a caught exception can be. *)
Inductive exn : Type :=
| InvalidStateError.

Inductive piece : Type :=
| PText (s : list N)      (* literal text, or a string value *)
| PNum (q : Q)            (* a number, as JavaScript prints it *)
| PNaN                    (* NaN *)
| PMessage (e : exn).     (* error.message *)

Definition template : Type := list piece.

(** A piece of literal text. *)
Definition T (s : string) : piece := PText (js s).

(** ** The page *)

(** A child of #voiceLogContent: its text without the time stamp, and
    whether it has the colour of errors. *)
Record log_entry : Type := LogEntry {
  entry_text : template;
  entry_error : bool }.

Inductive button : Type :=
| BtnTrackerDart
| CalcBtn.

(** ** Timers *)

(** The three arrow functions the source passes to setTimeout. *)
Inductive callback : Type :=
| CbRecognitionStart      (* () => this.recognition.start() *)
| CbProcessQueue          (* () => this.processSpeechQueue() *)
| CbReadResults.          (* the function of lines 375-402 *)

Record timer : Type := Timer {
  timer_cb : callback;
  timer_ms : nat }.

(** ** The engines *)

(** A recognition session: none, open and capturing, or open and about to
    end (after stop(), a final result or an error). *)
Inductive rec_state : Type :=
| RecIdle
| RecCapturing
| RecStopping.

(** What the handler asks of the engines. *)
Inductive call : Type :=
| CRecognitionStart
| CRecognitionStop
| CSynthCancel
| CSynthSpeak (t : template).

(** ** The state *)

Record SpeechHandler : Type := mkHandler {
  isListening : bool;
  isSpeaking : bool;
  lastWindowFocus : bool;
  speechQueue : list template;
  lastSetDistance : option Q;
  lastSetAngle : option Q }.

Record browser : Type := mkBrowser {
  recognition : rec_state;
  utterances : list template;            (* head: the one being spoken *)
  timers : list timer;
  calls : list call }.

Record page : Type := mkPage {
  logContent : option (list log_entry);  (* newest first; None: no log box *)
  inputD : option Q;
  inputThetaAim : option Q;
  results : option (list N);             (* None: no element #results *)
  clicks : list button;
  console : list template }.

Record world : Type := World {
  this : SpeechHandler;
  env : browser;
  dom : page }.

(** Field updates. *)
Definition set_isListening (b : bool) (h : SpeechHandler) : SpeechHandler :=
  mkHandler b (isSpeaking h) (lastWindowFocus h) (speechQueue h)
            (lastSetDistance h) (lastSetAngle h).
Definition set_isSpeaking (b : bool) (h : SpeechHandler) : SpeechHandler :=
  mkHandler (isListening h) b (lastWindowFocus h) (speechQueue h)
            (lastSetDistance h) (lastSetAngle h).
Definition set_lastWindowFocus (b : bool) (h : SpeechHandler) : SpeechHandler :=
  mkHandler (isListening h) (isSpeaking h) b (speechQueue h)
            (lastSetDistance h) (lastSetAngle h).
Definition set_speechQueue (q : list template) (h : SpeechHandler) : SpeechHandler :=
  mkHandler (isListening h) (isSpeaking h) (lastWindowFocus h) q
            (lastSetDistance h) (lastSetAngle h).
Definition set_lastSetDistance (d : option Q) (h : SpeechHandler) : SpeechHandler :=
  mkHandler (isListening h) (isSpeaking h) (lastWindowFocus h) (speechQueue h)
            d (lastSetAngle h).
Definition set_lastSetAngle (a : option Q) (h : SpeechHandler) : SpeechHandler :=
  mkHandler (isListening h) (isSpeaking h) (lastWindowFocus h) (speechQueue h)
            (lastSetDistance h) a.

Definition set_recognition (r : rec_state) (e : browser) : browser :=
  mkBrowser r (utterances e) (timers e) (calls e).
Definition set_utterances (u : list template) (e : browser) : browser :=
  mkBrowser (recognition e) u (timers e) (calls e).
Definition set_timers (t : list timer) (e : browser) : browser :=
  mkBrowser (recognition e) (utterances e) t (calls e).
Definition set_calls (c : list call) (e : browser) : browser :=
  mkBrowser (recognition e) (utterances e) (timers e) c.

Definition set_logContent (l : option (list log_entry)) (d : page) : page :=
  mkPage l (inputD d) (inputThetaAim d) (results d) (clicks d) (console d).
Definition set_inputD (v : option Q) (d : page) : page :=
  mkPage (logContent d) v (inputThetaAim d) (results d) (clicks d) (console d).
Definition set_inputThetaAim (v : option Q) (d : page) : page :=
  mkPage (logContent d) (inputD d) v (results d) (clicks d) (console d).
Definition set_results (r : option (list N)) (d : page) : page :=
  mkPage (logContent d) (inputD d) (inputThetaAim d) r (clicks d) (console d).
Definition set_clicks (c : list button) (d : page) : page :=
  mkPage (logContent d) (inputD d) (inputThetaAim d) (results d) c (console d).
Definition set_console (c : list template) (d : page) : page :=
  mkPage (logContent d) (inputD d) (inputThetaAim d) (results d) (clicks d) c.

(** ** The monad *)

Inductive outcome (A : Type) : Type :=
| Done (a : A)
| Thrown (e : exn).
Arguments Done {A} a.
Arguments Thrown {A} e.

Definition M (A : Type) : Type := world -> outcome A * world.

#[export] Instance M_ret : MRet M := fun A a w => (Done a, w).

#[export] Instance M_bind : MBind M := fun A B f m w =>
  match m w with
  | (Done a, w') => f a w'
  | (Thrown e, w') => (Thrown e, w')
  end.

Definition throw {A} (e : exn) : M A := fun w => (Thrown e, w).

(** try { m } catch (error) { h error } *)
Definition try_catch {A} (m : M A) (h : exn -> M A) : M A := fun w =>
  match m w with
  | (Done a, w') => (Done a, w')
  | (Thrown e, w') => h e w'
  end.

Definition skip_ : M unit := mret tt.

Definition get_this : M SpeechHandler := fun w => (Done (this w), w).
Definition get_env : M browser := fun w => (Done (env w), w).
Definition get_dom : M page := fun w => (Done (dom w), w).
Definition modify_this (f : SpeechHandler -> SpeechHandler) : M unit :=
  fun w => (Done tt, World (f (this w)) (env w) (dom w)).
Definition modify_env (f : browser -> browser) : M unit :=
  fun w => (Done tt, World (this w) (f (env w)) (dom w)).
Definition modify_dom (f : page -> page) : M unit :=
  fun w => (Done tt, World (this w) (env w) (f (dom w))).

(** The state a computation leaves, thrown or not. *)
Definition exec {A} (m : M A) (w : world) : world := (m w).2.

(** ** The browser's operations *)

Definition emit (c : call) : M unit :=
  modify_env (fun e => set_calls (calls e ++ [c]) e).

(** recognition.start(): opens a session, or throws when one is open. *)
Definition recognition_start : M unit :=
  emit CRecognitionStart;;
  e ← get_env;
  match recognition e with
  | RecIdle => modify_env (set_recognition RecCapturing)
  | RecCapturing | RecStopping => throw InvalidStateError
  end.

(** recognition.stop(): a capturing session is told to end. *)
Definition recognition_stop : M unit :=
  emit CRecognitionStop;;
  e ← get_env;
  match recognition e with
  | RecCapturing => modify_env (set_recognition RecStopping)
  | RecIdle | RecStopping => skip_
  end.

(** speechSynthesis.cancel() and speechSynthesis.speak(utterance). *)
Definition synth_cancel : M unit :=
  emit CSynthCancel;; modify_env (set_utterances []).

Definition synth_speak (t : template) : M unit :=
  emit (CSynthSpeak t);; modify_env (fun e => set_utterances (utterances e ++ [t]) e).

(** setTimeout(cb, ms). *)
Definition set_timeout (cb : callback) (ms : nat) : M unit :=
  modify_env (fun e => set_timers (timers e ++ [Timer cb ms]) e).

(** document.getElementById(id).click() and console.error(t). *)
Definition click (b : button) : M unit :=
  modify_dom (fun d => set_clicks (clicks d ++ [b]) d).

Definition console_error (t : template) : M unit :=
  modify_dom (fun d => set_console (console d ++ [t]) d).

(** ** States up to the page *)

(** Two states with the same object and the same engines: what the page
    shows does not matter to the arbitration. *)
Definition core_eq (w w' : world) : Prop := this w = this w' /\ env w = env w'.

(** [m] touches the page only, and does not throw. *)
Definition page_only {A} (m : M A) : Prop :=
  forall w, core_eq w (m w).2 /\ exists a, (m w).1 = Done a.

(** [m] obeys [R]: the state it ends in, thrown or not, is related by [R] to
    the state it starts from. *)
Definition obeys (R : relation world) {A} (m : M A) : Prop :=
  forall w, R w (exec m w).

(** [m] keeps [P]: from a state with [P] it ends in a state with [P]. *)
Definition kept (P : world -> Prop) : relation world := fun w w' => P w -> P w'.
Definition keeps (P : world -> Prop) {A} (m : M A) : Prop := obeys (kept P) m.

(** ** Tactics *)

(** Open a state into its fields. *)
Ltac destruct_world w :=
  let listening := fresh "listening" in
  let speaking := fresh "speaking" in
  let focus := fresh "focus" in
  let q := fresh "q" in
  let dist := fresh "dist" in
  let ang := fresh "ang" in
  let rec_ := fresh "rec" in
  let utts := fresh "utts" in
  let tms := fresh "tms" in
  let cs := fresh "cs" in
  let pg := fresh "pg" in
  destruct w as [[listening speaking focus q dist ang] [rec_ utts tms cs] pg];
  simpl in *.

(** ** Decidable equality *)

#[export] Instance Q_eq_dec : EqDecision Q.
Proof. solve_decision. Defined.
#[export] Instance exn_eq_dec : EqDecision exn.
Proof. solve_decision. Defined.
#[export] Instance piece_eq_dec : EqDecision piece.
Proof. solve_decision. Defined.
#[export] Instance log_entry_eq_dec : EqDecision log_entry.
Proof. solve_decision. Defined.
#[export] Instance button_eq_dec : EqDecision button.
Proof. solve_decision. Defined.
#[export] Instance callback_eq_dec : EqDecision callback.
Proof. solve_decision. Defined.
#[export] Instance timer_eq_dec : EqDecision timer.
Proof. solve_decision. Defined.
#[export] Instance rec_state_eq_dec : EqDecision rec_state.
Proof. solve_decision. Defined.
#[export] Instance call_eq_dec : EqDecision call.
Proof. solve_decision. Defined.
#[export] Instance SpeechHandler_eq_dec : EqDecision SpeechHandler.
Proof. solve_decision. Defined.
#[export] Instance browser_eq_dec : EqDecision browser.
Proof. solve_decision. Defined.
#[export] Instance page_eq_dec : EqDecision page.
Proof. solve_decision. Defined.
#[export] Instance world_eq_dec : EqDecision world.
Proof. solve_decision. Defined.

(** ** Running computations *)

Section monad.
Context {A B : Type}.
Implicit Types (m : M A) (f : A -> M B) (w : world).

Lemma bind_done m f w a w' : m w = (Done a, w') -> (m ≫= f) w = f a w'.
Proof. unfold mbind, M_bind. by intros ->. Qed.

Lemma bind_thrown m f w e w' : m w = (Thrown e, w') -> (m ≫= f) w = (Thrown e, w').
Proof. unfold mbind, M_bind. by intros ->. Qed.

Lemma exec_bind m f w :
  exec (m ≫= f) w
  = match m w with
    | (Done a, w') => exec (f a) w'
    | (Thrown _, w') => w'
    end.
Proof. unfold exec, mbind, M_bind. by destruct (m w) as [[a|e] w']. Qed.

Lemma exec_try_catch (m : M A) (h : exn -> M A) (w : world) :
  exec (try_catch m h) w
  = match m w with
    | (Done _, w') => w'
    | (Thrown e, w') => exec (h e) w'
    end.
Proof. unfold exec, try_catch. by destruct (m w) as [[a|e] w']. Qed.

End monad.

(** ** Properties kept by computations *)

#[export] Instance kept_preorder (P : world -> Prop) : PreOrder (kept P).
Proof. split; [by intros w Hw|]. intros w1 w2 w3 H1 H2 Hw. by apply H2, H1. Qed.

Section obeys.
Context (R : relation world) `{!PreOrder R}.

Lemma obeys_ret {A} (a : A) : obeys R (mret a).
Proof. by intros w. Qed.

Lemma obeys_throw {A} (e : exn) : obeys R (throw e : M A).
Proof. by intros w. Qed.

Lemma obeys_bind {A B} (m : M A) (f : A -> M B) :
  obeys R m -> (forall a, obeys R (f a)) -> obeys R (m ≫= f).
Proof.
  intros Hm Hf w. rewrite exec_bind. specialize (Hm w). unfold exec in Hm.
  destruct (m w) as [[a|e] w']; simpl in *; [|done]. trans w'; [done|apply Hf].
Qed.

Lemma obeys_try_catch {A} (m : M A) (h : exn -> M A) :
  obeys R m -> (forall e, obeys R (h e)) -> obeys R (try_catch m h).
Proof.
  intros Hm Hh w. specialize (Hm w). unfold exec, try_catch in *.
  destruct (m w) as [[a|e] w']; simpl in *; [done|]. trans w'; [done|apply Hh].
Qed.

Lemma obeys_get_this : obeys R get_this.
Proof. by intros w. Qed.

Lemma obeys_get_env : obeys R get_env.
Proof. by intros w. Qed.

Lemma obeys_get_dom : obeys R get_dom.
Proof. by intros w. Qed.

Lemma obeys_if {A} (b : bool) (m1 m2 : M A) :
  obeys R m1 -> obeys R m2 -> obeys R (if b then m1 else m2).
Proof. by destruct b. Qed.

End obeys.

#[export] Hint Resolve obeys_ret obeys_throw obeys_get_this obeys_get_env obeys_get_dom : js.

(** ** The page does not matter *)

#[export] Instance core_eq_equiv : Equivalence core_eq.
Proof.
  split.
  - by intros w.
  - by intros w w' [? ?].
  - intros w1 w2 w3 [? ?] [? ?]. split; congruence.
Qed.

Section page_only.

Lemma page_only_ret {A} (a : A) : page_only (mret a).
Proof. intros w. split; [done|by exists a]. Qed.

Lemma page_only_get_this : page_only get_this.
Proof. intros w. split; [done|by eexists]. Qed.

Lemma page_only_get_dom : page_only get_dom.
Proof. intros w. split; [done|by eexists]. Qed.

Lemma page_only_modify_dom (f : page -> page) : page_only (modify_dom f).
Proof. intros w. split; [done|by exists tt]. Qed.

Lemma page_only_bind {A B} (m : M A) (f : A -> M B) :
  page_only m -> (forall a, page_only (f a)) -> page_only (m ≫= f).
Proof.
  intros Hm Hf w. destruct (Hm w) as [Hc [a Ha]].
  destruct (m w) as [r w'] eqn:E. simpl in *. subst r.
  rewrite (bind_done m f w a w' E). destruct (Hf a w') as [Hc' Ha'].
  split; [by etrans|done].
Qed.

Lemma page_only_if {A} (b : bool) (m1 m2 : M A) :
  page_only m1 -> page_only m2 -> page_only (if b then m1 else m2).
Proof. by destruct b. Qed.

(** A relation that looks at the object and the engines only holds across
    work on the page. *)
Lemma page_only_obeys (R : relation world) `{!Reflexive R}
    `{!Proper (eq ==> core_eq ==> iff) R} {A} (m : M A) :
  page_only m -> obeys R m.
Proof. intros Hm w. destruct (Hm w) as [Hc _]. unfold exec. by rewrite <- Hc. Qed.

(** What follows work on the page runs as if from the state before, as far
    as the object and the engines go. *)
Lemma page_only_done {A} (m : M A) (w : world) :
  page_only m -> exists a w', m w = (Done a, w') /\ core_eq w w'.
Proof.
  intros Hm. destruct (Hm w) as [Hc [a Ha]]. destruct (m w) as [r w'] eqn:E.
  simpl in *. subst r. by exists a, w'.
Qed.

End page_only.

Lemma page_only_click (b : button) : page_only (click b).
Proof. apply page_only_modify_dom. Qed.

Lemma page_only_console_error (t : template) : page_only (console_error t).
Proof. apply page_only_modify_dom. Qed.

#[export] Hint Resolve page_only_ret page_only_get_this page_only_get_dom
  page_only_modify_dom page_only_click page_only_console_error : js.

(** Walk through a handler: binds, branches and handlers of exceptions, with
    the lemmas of the database [js] at the leaves. *)
Ltac solve_obeys_with leaf :=
  repeat match goal with
  | |- obeys _ (_ ≫= _) => apply obeys_bind; [apply _| |intros ?]
  | |- obeys _ (try_catch _ _) => apply obeys_try_catch; [apply _| |intros ?]
  | |- obeys _ (if _ then _ else _) => apply obeys_if
  | |- obeys _ _ => solve [leaf]
  end.

Ltac solve_obeys := solve_obeys_with ltac:(eauto with js).
