(* ===== verification/Log.v ===== *)
(** * Log: the log panel

    Models createLogBox (lines 37-89) and addLog (lines 91-116) of
    src/speech.js by what they do to the children of #voiceLogContent:
    createLogBox replaces the box by an empty one and logs one line; addLog
    inserts an entry at the top and removes last children while there are
    more than ten.  Styles and the time stamp in front of each text are not
    part of the model.

    The theorems: the removal loop ends and leaves the ten newest entries;
    what addLog does with and without a log box; the panel never holds more
    than ten entries; logging touches the page only. *)

From Stdlib Require Import ZArith NArith QArith Lia String.
From stdpp Require Import base tactics option list numbers.
From S2P Require Import Prelude World.

(** ** The source *)

(** while (logContent.children.length > 10)
      logContent.removeChild(logContent.lastChild);
    [fuel] bounds the number of iterations. *)
Fixpoint trim_log (fuel : nat) (children : list log_entry) : list log_entry :=
  match fuel with
  | O => children
  | S fuel' =>
    if 10 <? length children then trim_log fuel' (removelast children) else children
  end.

Definition addLog (text : template) (type : string) : M unit :=
  d ← get_dom;
  match logContent d with
  | None => console_error [T "日志容器不存在"]
  | Some children =>
    let logEntry := LogEntry text (String.eqb type "error") in
    let children := logEntry :: children in
    modify_dom (set_logContent (Some (trim_log (length children) children)))
  end.

Definition createLogBox : M unit :=
  modify_dom (set_logContent (Some []));;
  addLog [T "日志系统初始化完成"] "info".

(** ** Specification *)

(** The page after addLog. *)
Definition log_page (text : template) (type : string) (d : page) : page :=
  match logContent d with
  | None => set_console (console d ++ [[T "日志容器不存在"]]) d
  | Some children =>
    set_logContent (Some (take 10 (LogEntry text (String.eqb type "error") :: children))) d
  end.

(** The page after createLogBox. *)
Definition fresh_log_page (d : page) : page :=
  set_logContent (Some [LogEntry [T "日志系统初始化完成"] false]) d.

(** The panel holds at most ten entries. *)
Definition log_bounded (w : world) : Prop :=
  forall children, logContent (dom w) = Some children -> length children <= 10.

(** The panel after logging [entries], oldest first, into an empty box. *)
Definition log_of (entries : list log_entry) : list log_entry := take 10 (rev entries).

(** ** The removal loop *)

Lemma removelast_take {A} (l : list A) : removelast l = take (pred (length l)) l.
Proof.
  induction l as [|x [|y l] IH]; [done..|].
  change (removelast (x :: y :: l)) with (x :: removelast (y :: l)). by rewrite IH.
Qed.

(** The loop ends within [fuel] rounds when no more than [fuel] entries are
    in excess, and leaves the first ten. *)
Lemma trim_log_take (fuel : nat) (l : list log_entry) :
  length l <= 10 + fuel -> trim_log fuel l = take 10 l.
Proof.
  revert l. induction fuel as [|fuel IH]; intros l Hl; simpl.
  - by rewrite take_ge by lia.
  - destruct (Nat.ltb_spec 10 (length l)); [|by rewrite take_ge by lia].
    rewrite IH, removelast_take by (rewrite removelast_take, length_take; lia).
    rewrite take_take. f_equal. lia.
Qed.

(** ** What addLog does *)

Section addLog.
Context (text : template) (type : string) (w : world).

(** With a log box, addLog puts the new entry at the top and keeps the ten
    newest entries; the removal loop runs to its end. *)
Lemma addLog_spec (children : list log_entry) :
  logContent (dom w) = Some children ->
  addLog text type w
  = (Done tt, World (this w) (env w)
       (set_logContent (Some (take 10 (LogEntry text (String.eqb type "error") :: children)))
          (dom w))).
Proof.
  intros E. unfold addLog. rewrite (bind_done get_dom _ w (dom w) w) by done.
  rewrite E. unfold modify_dom. by rewrite trim_log_take by lia.
Qed.

(** Without a log box, addLog writes to the console and returns. *)
Lemma addLog_missing :
  logContent (dom w) = None ->
  addLog text type w
  = (Done tt, World (this w) (env w)
       (set_console (console (dom w) ++ [[T "日志容器不存在"]]) (dom w))).
Proof.
  intros E. unfold addLog. rewrite (bind_done get_dom _ w (dom w) w) by done.
  by rewrite E.
Qed.

End addLog.

Lemma addLog_run (text : template) (type : string) (w : world) :
  addLog text type w = (Done tt, World (this w) (env w) (log_page text type (dom w))).
Proof.
  unfold log_page. destruct (logContent (dom w)) eqn:E.
  - by apply addLog_spec.
  - by apply addLog_missing.
Qed.

Lemma createLogBox_run (w : world) :
  createLogBox w = (Done tt, World (this w) (env w) (fresh_log_page (dom w))).
Proof. unfold createLogBox, mbind, M_bind. simpl. by rewrite addLog_run. Qed.

(** ** Logging touches the page only *)

Lemma page_only_addLog (text : template) (type : string) : page_only (addLog text type).
Proof. intros w. rewrite addLog_run. split; [done|by exists tt]. Qed.

Lemma page_only_createLogBox : page_only createLogBox.
Proof. intros w. rewrite createLogBox_run. split; [done|by exists tt]. Qed.

#[export] Hint Resolve page_only_addLog page_only_createLogBox : js.

(** ** The bound *)

Lemma addLog_bounded (text : template) (type : string) : keeps log_bounded (addLog text type).
Proof.
  intros w Hw l. unfold exec. rewrite addLog_run. unfold log_page. simpl.
  destruct (logContent (dom w)) eqn:E; simpl; [|by rewrite E].
  intros [= <-]. simpl. rewrite length_take. lia.
Qed.

(** createLogBox starts the panel afresh: entries logged before are gone. *)
Lemma createLogBox_bounded : keeps log_bounded createLogBox.
Proof. intros w _ l. unfold exec. rewrite createLogBox_run. intros [= <-]. simpl. lia. Qed.

#[export] Hint Resolve addLog_bounded createLogBox_bounded : js.

(** C9: logging [entries] one after the other into an empty box shows the
    ten newest, newest first: each call of addLog puts its entry at the top
    and its removal loop runs until ten are left. *)
Theorem addLog_sequence (entries : list log_entry) (w : world) :
  logContent (dom w) = Some [] ->
  logContent (dom (foldl (fun w e => exec (addLog (entry_text e)
      (if entry_error e then "error" else "info")) w) w entries))
  = Some (log_of entries).
Proof.
  intros E. unfold log_of.
  cut (forall l w, logContent (dom w) = Some (take 10 l) ->
    logContent (dom (foldl (fun w e => exec (addLog (entry_text e)
      (if entry_error e then "error" else "info")) w) w entries))
    = Some (take 10 (rev entries ++ l))).
  { intros H. rewrite <- (app_nil_r (rev entries)). by apply H. }
  clear w E. induction entries as [|e entries IH]; intros l w E; [done|].
  simpl. rewrite <- app_assoc. apply (IH (e :: l)).
  unfold exec. rewrite (addLog_spec _ _ _ _ E). simpl.
  destruct e as [t []]; simpl; f_equal; destruct l; simpl; f_equal;
    by rewrite take_take.
Qed.

Lemma addLog_sequence_witness :
  let w := World (mkHandler false false true [] None None) (mkBrowser RecIdle [] [] [])
                 (mkPage (Some []) None None None [] []) in
  let entries := (fun n => LogEntry [PNum (inject_Z (Z.of_nat n))] false) <$> seq 0 12 in
  logContent (dom (foldl (fun w e => exec (addLog (entry_text e)
      (if entry_error e then "error" else "info")) w) w entries))
  = Some (log_of entries).
Proof.
  exact (addLog_sequence _ (World (mkHandler false false true [] None None)
    (mkBrowser RecIdle [] [] []) (mkPage (Some []) None None None [] [])) eq_refl).
Defined.
