(* ===== verification/SpeechQueue.v ===== *)
(** * SpeechQueue: the queue of announcements

    Models speak (lines 262-270) and processSpeechQueue (lines 272-317) of
    src/speech.js, with the two callbacks processSpeechQueue installs on the
    utterance: [utterance_onend] (lines 286-302) and [utterance_onerror]
    (lines 304-314).  [synth_finish] is the synthesis engine finishing the
    utterance at the head of its queue and calling one of them.

    The design this code implements is a queue that is idle or speaking one
    text; [queue_of] reads that state off the object.  The theorems: what
    each operation does to the state, on every branch; the invariant
    [queue_inv] that the flag isSpeaking tells the truth about the engine,
    and that a queue at rest with texts in it has a timer that will wake it;
    that every operation keeps it; that the code refines the design's queue;
    that texts are spoken in the order of the calls of speak. *)

From Stdlib Require Import ZArith NArith QArith Lia String.
From stdpp Require Import base tactics option list numbers.
From S2P Require Import Prelude World Log.

(** ** The source *)

Definition processSpeechQueue : M unit :=
  h ← get_this;
  match speechQueue h with
  | [] => skip_
  | text :: _ =>
    if isSpeaking h then skip_ else
    modify_this (set_isSpeaking true);;
    synth_cancel;;
    synth_speak text
  end.

(** this.speechQueue.shift() *)
Definition shift : M unit :=
  modify_this (fun h => set_speechQueue (tail (speechQueue h)) h).

Definition utterance_onend (text : template) : M unit :=
  modify_this (set_isSpeaking false);;
  addLog (T "播报完成: " :: text) "info";;
  shift;;
  h ← get_this;
  if 0 <? length (speechQueue h) then set_timeout CbProcessQueue 300
  else if isListening h then set_timeout CbRecognitionStart 500
  else skip_.

Definition utterance_onerror : M unit :=
  modify_this (set_isSpeaking false);;
  addLog [T "播报出错"] "error";;
  shift;;
  h ← get_this;
  if 0 <? length (speechQueue h) then set_timeout CbProcessQueue 300
  else skip_.

Definition speak (text : template) : M unit :=
  modify_this (fun h => set_speechQueue (speechQueue h ++ [text]) h);;
  h ← get_this;
  if negb (isSpeaking h) then processSpeechQueue else skip_.

(** ** The engine *)

(** The engine finishes the utterance it is speaking, well ([ok]) or not,
    and calls the utterance's callback. *)
Definition synth_finish (ok : bool) (w : world) : option world :=
  match utterances (env w) with
  | [] => None
  | text :: us =>
    let w' := World (this w) (set_utterances us (env w)) (dom w) in
    Some (exec (if ok then utterance_onend text else utterance_onerror) w')
  end.

(** ** The states the operations lead to *)

(** The head of the queue goes to the engine. *)
Definition say (text : template) (w : world) : world :=
  World (set_isSpeaking true (this w))
        (mkBrowser (recognition (env w)) [text] (timers (env w))
                   ((calls (env w) ++ [CSynthCancel]) ++ [CSynthSpeak text]))
        (dom w).

Definition drained (w : world) : world :=
  match speechQueue (this w) with
  | [] => w
  | text :: _ => if isSpeaking (this w) then w else say text w
  end.

Definition pushed (text : template) (w : world) : world :=
  World (set_speechQueue (speechQueue (this w) ++ [text]) (this w)) (env w) (dom w).

(** After a callback: the flag down, the head gone, a timer for what is
    next; [resume] says whether an empty queue restarts recognition. *)
Definition finished (resume : bool) (d : page) (w : world) : world :=
  let q := tail (speechQueue (this w)) in
  let h := set_speechQueue q (set_isSpeaking false (this w)) in
  let next :=
    if 0 <? length q then [Timer CbProcessQueue 300]
    else if resume && isListening (this w) then [Timer CbRecognitionStart 500]
    else [] in
  World h (set_timers (timers (env w) ++ next) (env w)) d.

(** ** Specification: the queue of the design *)

Inductive queue : Type :=
| Idle (pending : list template)
| Speaking (current : template) (pending : list template).

Definition enqueue (text : template) (q : queue) : queue :=
  match q with
  | Idle [] => Speaking text []
  | Idle (p :: ps) => Speaking p (ps ++ [text])
  | Speaking u ps => Speaking u (ps ++ [text])
  end.

Definition drain (q : queue) : queue :=
  match q with
  | Idle (p :: ps) => Speaking p ps
  | _ => q
  end.

Definition complete (q : queue) : queue :=
  match q with
  | Speaking _ ps => Idle ps
  | Idle ps => Idle ps
  end.

(** The text drain hands to the engine, when it hands one over. *)
Definition handed (q : queue) : option template :=
  match q with
  | Idle (text :: _) => Some text
  | _ => None
  end.

(** What the engine is asked when a text is handed over: to cancel what it
    may hold and to speak the text, which is then the only one it holds. *)
Definition hand_over (h : option template) (e : browser) : browser :=
  match h with
  | Some text =>
    mkBrowser (recognition e) [text] (timers e)
              ((calls e ++ [CSynthCancel]) ++ [CSynthSpeak text])
  | None => e
  end.

(** The design's state, read off the object. *)
Definition queue_of (w : world) : queue :=
  match isSpeaking (this w), speechQueue (this w) with
  | true, text :: ps => Speaking text ps
  | _, ps => Idle ps
  end.

(** The texts the engine was given, in order. *)
Definition spoken (w : world) : list template :=
  omap (fun c => match c with CSynthSpeak t => Some t | _ => None end) (calls (env w)).

(** The texts not yet given to the engine. *)
Definition waiting (w : world) : list template :=
  if isSpeaking (this w) then tail (speechQueue (this w)) else speechQueue (this w).

(** Every text speak was called with, spoken or not. *)
Definition announced (w : world) : list template := spoken w ++ waiting w.

(** The flag and the engine agree, and a queue at rest will be woken. *)
Record queue_inv (w : world) : Prop := QueueInv {
  inv_speaking : isSpeaking (this w) = true ->
    exists text ps, speechQueue (this w) = text :: ps /\ utterances (env w) = [text];
  inv_silent : isSpeaking (this w) = false -> utterances (env w) = [];
  inv_timer : isSpeaking (this w) = false -> speechQueue (this w) <> [] ->
    exists ms, Timer CbProcessQueue ms ∈ timers (env w) }.

(** A page that has just loaded: nothing said, nothing pending. *)
Definition silent : world :=
  World (mkHandler false false true [] None None) (mkBrowser RecIdle [] [] [])
        (mkPage None None None None [] []).

(** The timer a callback of the utterance sets. *)
Definition next_timer (ok : bool) (h : SpeechHandler) : list timer :=
  if 0 <? length (tail (speechQueue h)) then [Timer CbProcessQueue 300]
  else if ok && isListening h then [Timer CbRecognitionStart 500]
  else [].

(** From a state with the invariant, [w'] has it too, and what was announced
    in [w] still is, in the same order. *)
Definition queue_step : relation world := fun w w' =>
  queue_inv w -> queue_inv w' /\ announced w `prefix_of` announced w'.

(** The recognition session is as it was. *)
Definition session_kept : relation world := fun w w' =>
  recognition (env w') = recognition (env w).

(** ** What each operation does *)

Lemma processSpeechQueue_run (w : world) : processSpeechQueue w = (Done tt, drained w).
Proof.
  unfold processSpeechQueue, drained, mbind, M_bind. simpl.
  destruct (speechQueue (this w)); [by destruct w|].
  destruct (isSpeaking (this w)); [by destruct w|done].
Qed.

Lemma speak_run (text : template) (w : world) :
  speak text w
  = (Done tt, if isSpeaking (this w) then pushed text w else drained (pushed text w)).
Proof.
  unfold speak, mbind, M_bind. simpl.
  destruct (isSpeaking (this w)) eqn:E; simpl; [done|].
  by rewrite processSpeechQueue_run.
Qed.

(** speak leaves the page and the intent to listen alone. *)
Lemma speak_dom (text : template) (w : world) : dom (exec (speak text) w) = dom w.
Proof.
  unfold exec. rewrite speak_run. simpl. unfold drained, pushed, say.
  repeat case_match; done.
Qed.

Lemma speak_listening (text : template) (w : world) :
  isListening (this (exec (speak text) w)) = isListening (this w).
Proof.
  unfold exec. rewrite speak_run. simpl. unfold drained, pushed, say.
  repeat case_match; done.
Qed.

Lemma utterance_onend_run (text : template) (w : world) :
  utterance_onend text w
  = (Done tt, finished true (log_page (T "播报完成: " :: text) "info" (dom w)) w).
Proof.
  unfold utterance_onend, finished, mbind, M_bind. simpl. rewrite addLog_run. simpl.
  destruct (0 <? length (tail (speechQueue (this w)))); [done|].
  destruct (isListening (this w)); simpl; [done|].
  rewrite app_nil_r. by destruct (env w).
Qed.

Lemma utterance_onerror_run (w : world) :
  utterance_onerror w
  = (Done tt, finished false (log_page [T "播报出错"] "error" (dom w)) w).
Proof.
  unfold utterance_onerror, finished, mbind, M_bind. simpl. rewrite addLog_run. simpl.
  destruct (0 <? length (tail (speechQueue (this w)))); [done|].
  simpl. rewrite app_nil_r. by destruct (env w).
Qed.

(** ** The invariant *)

Lemma say_inv (text : template) (ps : list template) (w : world) :
  speechQueue (this w) = text :: ps -> queue_inv (say text w).
Proof. intros E. split; simpl; [|done..]. intros _. by exists text, ps. Qed.

Lemma drained_inv (w : world) : queue_inv w -> queue_inv (drained w).
Proof.
  intros Hw. unfold drained. destruct (speechQueue (this w)) as [|text ps] eqn:E; [done|].
  destruct (isSpeaking (this w)); [done|]. by apply (say_inv text ps).
Qed.

(** speak keeps the queue's invariant: afterwards the flag isSpeaking is up
    exactly when the engine holds an utterance, the utterance is the head of
    the queue, and it is the only one. *)
Lemma speak_inv (text : template) (w : world) :
  queue_inv w -> queue_inv (exec (speak text) w).
Proof.
  intros [H1 H2 H3]. unfold exec. rewrite speak_run. simpl.
  destruct (isSpeaking (this w)) eqn:E.
  - destruct (H1 eq_refl) as (t & ps & Hq & Hu).
    split; simpl; rewrite E; [|done..]. intros _. exists t, (ps ++ [text]).
    by rewrite Hq.
  - unfold drained. simpl. rewrite E.
    destruct (speechQueue (this w) ++ [text]) as [|t ps] eqn:Hq;
      [by destruct (speechQueue (this w))|].
    by apply (say_inv t ps).
Qed.

Lemma silent_inv : queue_inv silent.
Proof. by split. Qed.

Lemma processSpeechQueue_inv (w : world) :
  queue_inv w -> queue_inv (exec processSpeechQueue w).
Proof. unfold exec. rewrite processSpeechQueue_run. apply drained_inv. Qed.

(** What the engine's end of an utterance leads to. *)
Lemma synth_finish_run (ok : bool) (w w' : world) :
  synth_finish ok w = Some w' ->
  exists text us d, utterances (env w) = text :: us /\
    w' = finished ok d (World (this w) (set_utterances us (env w)) (dom w)).
Proof.
  unfold synth_finish, exec. destruct (utterances (env w)) as [|text us]; [done|].
  intros [= <-]. exists text, us. destruct ok.
  - rewrite utterance_onend_run. by eexists.
  - rewrite utterance_onerror_run. by eexists.
Qed.

Lemma synth_finish_inv (ok : bool) (w w' : world) :
  synth_finish ok w = Some w' -> queue_inv w -> queue_inv w'.
Proof.
  intros (text & us & d & Hu & ->)%synth_finish_run [H1 H2 H3].
  destruct (isSpeaking (this w)) eqn:E; [|by rewrite H2 in Hu].
  destruct (H1 eq_refl) as (t & ps & Hq & Hu'). rewrite Hu' in Hu. simplify_eq.
  split; simpl; [done|done|]. rewrite Hq. simpl. intros _ Hps.
  exists 300. destruct ps; [done|]. simpl. apply elem_of_app. right. by left.
Qed.

(** At most one utterance is with the engine. *)
Lemma queue_inv_one (w : world) : queue_inv w -> length (utterances (env w)) <= 1.
Proof.
  intros [H1 H2 _]. destruct (isSpeaking (this w)).
  - destruct (H1 eq_refl) as (t & ps & _ & ->). done.
  - rewrite H2 by done. simpl. lia.
Qed.

(** speechSynthesis.cancel() in processSpeechQueue never interrupts an
    utterance: when it is called the engine holds none. *)
Lemma cancel_harmless (w : world) :
  queue_inv w -> drained w <> w -> utterances (env w) = [].
Proof.
  intros [_ H2 _] Hd. apply H2. unfold drained in Hd.
  destruct (speechQueue (this w)); [done|]. by destruct (isSpeaking (this w)).
Qed.

(** ** The code refines the design *)

(** C8: speak is the design's enqueue: the state of the design's queue
    read off the object after speak is enqueue of the state before. *)
Theorem speak_refines (text : template) (w : world) :
  queue_inv w -> queue_of (exec (speak text) w) = enqueue text (queue_of w).
Proof.
  intros [H1 _ _]. unfold exec. rewrite speak_run. unfold queue_of, drained, pushed, say.
  destruct_world w. destruct speaking.
  - destruct (H1 eq_refl) as (t & ps & -> & _). done.
  - by destruct q.
Qed.

Lemma speak_refines_witness :
  queue_of (exec (speak [T "语音控制已开启"]) silent)
  = enqueue [T "语音控制已开启"] (queue_of silent).
Proof. apply speak_refines, silent_inv. Defined.

(** C29: processSpeechQueue is the design's drain, in every state, for the
    object and for the engine: when nothing is being spoken and a text
    waits, the queue becomes speaking and the engine is asked to cancel and
    then to speak the head, and nothing else; in every other state neither
    the queue nor the engine nor the page changes. *)
Theorem processSpeechQueue_refines (w : world) :
  let w' := exec processSpeechQueue w in
  queue_of w' = drain (queue_of w) /\
  env w' = hand_over (handed (queue_of w)) (env w) /\
  dom w' = dom w.
Proof.
  cbv zeta. unfold exec. rewrite processSpeechQueue_run.
  unfold drained, queue_of, handed, hand_over.
  destruct (isSpeaking (this w)) eqn:E, (speechQueue (this w)) eqn:Hq; simpl;
    by rewrite ?E, ?Hq.
Qed.

(** C28: the end of an utterance, good or bad, is the design's complete: the
    head of the queue leaves, the flag goes down, and the rest waits. *)
Theorem synth_finish_refines (ok : bool) (w w' : world) :
  synth_finish ok w = Some w' -> queue_inv w ->
  queue_of w' = complete (queue_of w).
Proof.
  intros (text & us & d & Hu & ->)%synth_finish_run [H1 H2 _].
  destruct (isSpeaking (this w)) eqn:E; [|by rewrite H2 in Hu].
  destruct (H1 eq_refl) as (t & ps & Hq & _). unfold queue_of, finished.
  destruct_world w. by simplify_eq/=.
Qed.

Lemma synth_finish_refines_witness :
  let w := exec (speak [T "语音控制已开启"]) silent in
  queue_of (default silent (synth_finish true w)) = complete (queue_of w).
Proof.
  apply (synth_finish_refines true); [by vm_compute|apply speak_inv, silent_inv].
Defined.

(** ** Order *)

Lemma spoken_say (text : template) (w : world) : spoken (say text w) = spoken w ++ [text].
Proof. unfold spoken, say. cbn [env calls]. rewrite !omap_app. simpl. by rewrite app_nil_r. Qed.

Lemma announced_drained (w : world) : announced (drained w) = announced w.
Proof.
  unfold drained, announced. destruct (speechQueue (this w)) as [|t ps] eqn:Hq; [done|].
  destruct (isSpeaking (this w)) eqn:E; [done|].
  rewrite spoken_say. unfold waiting, say. destruct_world w.
  simplify_eq/=. by rewrite <- app_assoc.
Qed.

(** speak adds its text at the end of the texts spoken or waiting, and
    changes nothing before it. *)
Lemma speak_announced (text : template) (w : world) :
  queue_inv w -> announced (exec (speak text) w) = announced w ++ [text].
Proof.
  intros [H1 _ _]. unfold exec. rewrite speak_run. simpl.
  destruct (isSpeaking (this w)) eqn:E.
  - destruct (H1 eq_refl) as (t & ps & Hq & _).
    unfold announced, waiting, spoken, pushed. destruct_world w.
    simplify_eq/=. by rewrite app_assoc.
  - rewrite announced_drained. unfold announced, waiting, spoken, pushed.
    destruct_world w. simplify_eq/=. by rewrite app_assoc.
Qed.

Lemma synth_finish_announced (ok : bool) (w w' : world) :
  synth_finish ok w = Some w' -> queue_inv w -> announced w' = announced w.
Proof.
  intros (text & us & d & Hu & ->)%synth_finish_run [H1 H2 _].
  destruct (isSpeaking (this w)) eqn:E; [|by rewrite H2 in Hu].
  unfold announced, waiting, spoken, finished. destruct_world w. by simplify_eq/=.
Qed.

(** ** What follows an utterance *)

(** C30: when an utterance ends, the queue's timer is set if texts wait;
    if none waits, recognition is scheduled to restart only when the
    utterance ended well and the page listens.  An utterance that fails with
    nothing behind it schedules nothing. *)
Theorem synth_finish_timers (ok : bool) (w w' : world) :
  synth_finish ok w = Some w' ->
  timers (env w') = timers (env w) ++ next_timer ok (this w).
Proof. by intros (text & us & d & Hu & ->)%synth_finish_run. Qed.

Lemma synth_finish_timers_witness :
  let w := exec (speak [T "语音控制已开启"]) silent in
  timers (env (default silent (synth_finish false w)))
  = timers (env w) ++ next_timer false (this w).
Proof. apply (synth_finish_timers false). by vm_compute. Defined.

(** ** What every handler owes the queue *)

#[export] Instance queue_step_preorder : PreOrder queue_step.
Proof.
  split; [by intros w Hw|]. intros w1 w2 w3 H1 H2 Hw.
  destruct (H1 Hw) as [Hw2 Hp]. destruct (H2 Hw2) as [Hw3 Hp']. split; [done|by etrans].
Qed.

#[export] Instance queue_step_proper : Proper (eq ==> core_eq ==> iff) queue_step.
Proof.
  intros w ? <- [h1 e1 d1] [h2 e2 d2] [E1 E2]. simpl in *. subst.
  unfold queue_step, announced, spoken, waiting. simpl.
  split; intros H Hw; destruct (H Hw) as [[? ? ?] ?]; by repeat split.
Qed.

(** A step that leaves the queue, the flag, the engine's utterances and the
    texts spoken as they are, and removes no timer. *)
Lemma same_queue_step (w w' : world) :
  isSpeaking (this w') = isSpeaking (this w) ->
  speechQueue (this w') = speechQueue (this w) ->
  utterances (env w') = utterances (env w) ->
  spoken w' = spoken w ->
  (forall ms, Timer CbProcessQueue ms ∈ timers (env w) ->
              Timer CbProcessQueue ms ∈ timers (env w')) ->
  queue_step w w'.
Proof.
  intros E1 E2 E3 E4 Ht [H1 H2 H3]. unfold announced, waiting.
  rewrite E1, E2, E4. split; [|done]. split; rewrite ?E1, ?E2, ?E3; [done..|].
  intros Hs Hq. destruct (H3 Hs Hq) as [ms Hms]. exists ms. by apply Ht.
Qed.

Lemma spoken_emit (c : call) (w : world) (e : browser) (d : page) (h : SpeechHandler) :
  (forall t, c <> CSynthSpeak t) ->
  calls e = calls (env w) ++ [c] ->
  spoken (World h e d) = spoken w.
Proof.
  intros Hc E. unfold spoken. simpl. rewrite E, omap_app. simpl.
  destruct c; try by rewrite app_nil_r. by destruct (Hc t).
Qed.

Section obeys.

Lemma queue_step_modify_this (f : SpeechHandler -> SpeechHandler) :
  (forall h, isSpeaking (f h) = isSpeaking h) ->
  (forall h, speechQueue (f h) = speechQueue h) ->
  obeys queue_step (modify_this f).
Proof. intros H1 H2 w. by apply same_queue_step; simpl. Qed.

Lemma queue_step_recognition_start : obeys queue_step recognition_start.
Proof.
  intros w. apply same_queue_step; unfold exec, recognition_start, mbind, M_bind; simpl;
    destruct (recognition (env w)); simpl; try done;
    by apply (spoken_emit CRecognitionStart).
Qed.

Lemma queue_step_recognition_stop : obeys queue_step recognition_stop.
Proof.
  intros w. apply same_queue_step; unfold exec, recognition_stop, mbind, M_bind; simpl;
    destruct (recognition (env w)); simpl; try done;
    by apply (spoken_emit CRecognitionStop).
Qed.

Lemma queue_step_set_timeout (cb : callback) (ms : nat) : obeys queue_step (set_timeout cb ms).
Proof.
  intros w. apply same_queue_step; simpl; try done.
  intros tm Htm. apply elem_of_app. by left.
Qed.

(** processSpeechQueue run by a timer: the timer is gone, and a queue at
    rest is on its way again. *)
Lemma queue_step_timer (w : world) (i : nat) (ms : nat) :
  timers (env w) !! i = Some (Timer CbProcessQueue ms) ->
  queue_step w (drained (World (this w) (set_timers (delete i (timers (env w))) (env w))
                               (dom w))).
Proof.
  intros _ [H1 H2 _]. rewrite announced_drained. split; [|by unfold announced].
  unfold drained. simpl. destruct (speechQueue (this w)) as [|t ps] eqn:Hq.
  - split; simpl; rewrite ?Hq; [done|done|by intros _ ?].
  - destruct (isSpeaking (this w)) eqn:E; [|by apply (say_inv t ps)].
    split; simpl; rewrite ?E, ?Hq; done.
Qed.

(** Another timer fires: the queue's timer stays. *)
Lemma queue_step_other_timer (w : world) (i : nat) (tm : timer) :
  timers (env w) !! i = Some tm -> timer_cb tm <> CbProcessQueue ->
  queue_step w (World (this w) (set_timers (delete i (timers (env w))) (env w)) (dom w)).
Proof.
  intros Hi Hcb. apply same_queue_step; simpl; try done.
  intros ms Hin. rewrite (delete_Permutation _ i tm Hi) in Hin.
  apply elem_of_cons in Hin as [<-|Hin]; [by destruct Hcb|done].
Qed.

Lemma queue_step_page_only {A} (m : M A) : page_only m -> obeys queue_step m.
Proof. apply (page_only_obeys queue_step). Qed.

Lemma queue_step_speak (text : template) : obeys queue_step (speak text).
Proof.
  intros w Hw. split; [by apply speak_inv|].
  rewrite speak_announced by done. by apply prefix_app_r.
Qed.

Lemma queue_step_processSpeechQueue : obeys queue_step processSpeechQueue.
Proof.
  intros w Hw. split; [by apply processSpeechQueue_inv|].
  unfold exec. rewrite processSpeechQueue_run. simpl. by rewrite announced_drained.
Qed.

End obeys.

#[export] Hint Resolve queue_step_recognition_start queue_step_recognition_stop
  queue_step_set_timeout queue_step_speak queue_step_processSpeechQueue
  queue_step_page_only : js.

(** ** The queue leaves the recognition alone *)

#[export] Instance session_kept_preorder : PreOrder session_kept.
Proof. split; [done|]. intros w1 w2 w3 H1 H2. unfold session_kept in *. congruence. Qed.

#[export] Instance session_kept_proper : Proper (eq ==> core_eq ==> iff) session_kept.
Proof. intros w ? <- w1 w2 [_ E]. unfold session_kept. by rewrite E. Qed.

Lemma session_kept_modify_this (f : SpeechHandler -> SpeechHandler) :
  obeys session_kept (modify_this f).
Proof. by intros w. Qed.

Lemma session_kept_set_timeout (cb : callback) (ms : nat) :
  obeys session_kept (set_timeout cb ms).
Proof. by intros w. Qed.

Lemma session_kept_page_only {A} (m : M A) : page_only m -> obeys session_kept m.
Proof. apply (page_only_obeys session_kept). Qed.

Lemma session_kept_processSpeechQueue : obeys session_kept processSpeechQueue.
Proof.
  intros w. unfold exec. rewrite processSpeechQueue_run. unfold session_kept, drained.
  destruct (speechQueue (this w)); [done|]. by destruct (isSpeaking (this w)).
Qed.

Lemma session_kept_speak (text : template) : obeys session_kept (speak text).
Proof.
  intros w. unfold exec. rewrite speak_run. unfold session_kept, drained, pushed. simpl.
  destruct (isSpeaking (this w)); [done|].
  by destruct (speechQueue (this w) ++ [text]).
Qed.

#[export] Hint Resolve session_kept_modify_this session_kept_set_timeout
  session_kept_page_only session_kept_processSpeechQueue session_kept_speak : js.
