(* ===== verification/Command.v ===== *)
(** * Command: from a transcript to the calculator

    Models processCommand (lines 141-260) and checkAndCalculate (lines
    366-404) of src/speech.js; [read_results] is the function checkAndCalculate
    passes to setTimeout (lines 375-402).  The numeral parsers are those of
    [Numeral], the test for a negative angle that of [Negative], the regular
    expressions those of [Patterns].

    A number the code holds is kept in lowest terms ([Qred]), so that equal
    numbers are equal terms.  Math.round is exact here; on doubles it can
    differ when the product with 100 is within rounding error of a tie.

    The design's contract is [extract]: a transcript gives at most one
    [Command], found without regular expressions.  The theorems: what
    processCommand does on each branch; that it performs exactly the command
    [extract] gives; that a distance wins over an angle; that the sign of an
    angle comes from the whole transcript and never from the numeral; the
    bound on the rounding of results; the commands of the help panel. *)

From Stdlib Require Import ZArith NArith QArith Qabs Qround Lia Lqa String.
From stdpp Require Import base tactics option list numbers.
From S2P Require Import Prelude Numeral Negative JsRegex Patterns World Log SpeechQueue.

(** ** The source *)

(** /^\d+\.?\d*$/.test(text) ? parseArabicNumber(text) : parseChineseNumber(text) *)
Definition number_of (text : list N) : Q :=
  Qred (if regex_test arabicPattern text then parseArabicNumber text
        else parseChineseNumber text).

Definition checkAndCalculate : M unit :=
  h ← get_this;
  if bool_decide (lastSetDistance h <> None) && bool_decide (lastSetAngle h <> None) then
    click BtnTrackerDart;;
    click CalcBtn;;
    set_timeout CbReadResults 1000
  else skip_.

(** The branch of a distance (lines 205-215). *)
Definition distance_command (distanceText : list N) : M unit :=
  let distance := number_of distanceText in
  addLog [T "解析距离: "; PNum distance; T " (原文: "; PText distanceText; T ")"] "info";;
  modify_dom (set_inputD (Some distance));;
  speak [T "设置距离"; PNum distance; T "米"];;
  modify_this (set_lastSetDistance (Some distance));;
  checkAndCalculate.

(** The branch of an angle (lines 222-252). *)
Definition angle_command (transcript angleText : list N) : M unit :=
  let angle := number_of angleText in
  let angle := if hasNegativeIndicator transcript then Qred (- Qabs angle)%Q else angle in
  addLog [T "解析角度: "; PNum angle; T " (原文: "; PText angleText; T ")"] "info";;
  modify_dom (set_inputThetaAim (Some angle));;
  let angleText2 := if Qle_bool 0 angle then [PNum angle] else [T "负"; PNum (Qabs angle)] in
  speak ([T "设置瞄准角度"] ++ angleText2 ++ [T "度"]);;
  modify_this (set_lastSetAngle (Some angle));;
  checkAndCalculate.

Definition processCommand (transcript : list N) : M unit :=
  match match_group1 distancePattern transcript with
  | Some distanceText => distance_command distanceText
  | None =>
    match match_group1 anglePattern transcript with
    | Some angleText => angle_command transcript angleText
    | None =>
      if includes transcript (js "计算") || includes transcript (js "计算角度")
      then click CalcBtn
      else skip_
    end
  end.

(** Math.round(x * 100) / 100 *)
Definition round2 (x : Q) : Q :=
  Qred (inject_Z (Qfloor (x * 100 + (1 # 2))) / 100)%Q.

(** Math.round(parseFloat(text) * 100) / 100, as it prints. *)
Definition rounded (text : list N) : piece :=
  match parseFloat text with
  | Some x => PNum (round2 x)
  | None => PNaN
  end.

(** The announcement of lines 384-395. *)
Definition announcement_of (lowAngleMatch highAngleMatch : option (list N)) : template :=
  let announcement := [T "计算完成，"] in
  let announcement :=
    match lowAngleMatch with
    | Some low => announcement ++ [T "低射角度"; rounded low; T "度"]
    | None => announcement
    end in
  let announcement :=
    match highAngleMatch with
    | Some high =>
      announcement ++ (if lowAngleMatch is Some _ then [T "，"] else [])
                   ++ [T "高射角度"; rounded high; T "度"]
    | None => announcement
    end in
  match lowAngleMatch, highAngleMatch with
  | None, None => [T "计算完成，但未找到有效结果，请检查参数"]
  | _, _ => announcement
  end.

Definition read_results : M unit :=
  d ← get_dom;
  match results d with
  | None => skip_
  | Some resultText =>
    addLog [T "原始结果文本: "; PText resultText] "info";;
    let lowAngleMatch := match_group1 lowAnglePattern resultText in
    let highAngleMatch := match_group1 highAnglePattern resultText in
    let announcement := announcement_of lowAngleMatch highAngleMatch in
    addLog [T "匹配结果: 低射="; PText (default (js "无") lowAngleMatch);
            T ", 高射="; PText (default (js "无") highAngleMatch)] "info";;
    addLog (T "计算结果: " :: announcement) "info";;
    speak announcement
  end.

(** ** Specification: the commands of the design *)

Inductive Command : Type :=
| SetDistance (meters : Q)
| SetAngle (degrees : Q)
| TriggerCalculation.

(** The number a numeral text stands for. *)
Definition value_of (text : list N) : Q :=
  Qred (if is_arabic text then parseArabicNumber text else parseChineseNumber text).

Definition extract (transcript : list N) : option Command :=
  match quantity_search (ch "米") transcript with
  | Some text => Some (SetDistance (value_of text))
  | None =>
    match quantity_search (ch "度°") transcript with
    | Some text =>
      let angle := value_of text in
      Some (SetAngle (if hasNegativeIndicator transcript then Qred (- Qabs angle)%Q else angle))
    | None =>
      if includes transcript (js "计算") then Some TriggerCalculation else None
    end
  end.

(** What the caller does with a command: the field it sets, the
    confirmation it speaks, the parameter it remembers. *)
Definition confirmation (c : Command) : template :=
  match c with
  | SetDistance d => [T "设置距离"; PNum d; T "米"]
  | SetAngle a =>
    [T "设置瞄准角度"] ++ (if Qle_bool 0 a then [PNum a] else [T "负"; PNum (Qabs a)])
                      ++ [T "度"]
  | TriggerCalculation => []
  end.

Definition remember (c : Command) (h : SpeechHandler) : SpeechHandler :=
  match c with
  | SetDistance d => set_lastSetDistance (Some d) h
  | SetAngle a => set_lastSetAngle (Some a) h
  | TriggerCalculation => h
  end.

Definition fill (c : Command) (d : page) : page :=
  match c with
  | SetDistance m => set_inputD (Some m) d
  | SetAngle a => set_inputThetaAim (Some a) d
  | TriggerCalculation => set_clicks (clicks d ++ [CalcBtn]) d
  end.

(** The caller of the design: apply the command, confirm it, remember the
    parameter, calculate when both are known. *)
Definition apply_command (c : Command) : M unit :=
  match c with
  | TriggerCalculation => modify_dom (fill c)
  | _ =>
    modify_dom (fill c);;
    speak (confirmation c);;
    modify_this (remember c);;
    checkAndCalculate
  end.

Definition handle (transcript : list N) : M unit :=
  match extract transcript with
  | Some c => apply_command c
  | None => skip_
  end.

(** Two states that differ in the log panel and the console at most. *)
Definition same_but_log (w w' : world) : Prop :=
  this w = this w' /\ env w = env w' /\ inputD (dom w) = inputD (dom w') /\
  inputThetaAim (dom w) = inputThetaAim (dom w') /\ results (dom w) = results (dom w') /\
  clicks (dom w) = clicks (dom w').

(** The state after checkAndCalculate. *)
Definition calculated (w : world) : world :=
  if bool_decide (lastSetDistance (this w) <> None)
     && bool_decide (lastSetAngle (this w) <> None)
  then World (this w)
             (set_timers (timers (env w) ++ [Timer CbReadResults 1000]) (env w))
             (set_clicks ((clicks (dom w) ++ [BtnTrackerDart]) ++ [CalcBtn]) (dom w))
  else w.

(** The state after speak. *)
Definition said (text : template) (w : world) : world :=
  if isSpeaking (this w) then pushed text w else drained (pushed text w).

(** ** What the operations do *)

Lemma checkAndCalculate_run (w : world) : checkAndCalculate w = (Done tt, calculated w).
Proof.
  unfold checkAndCalculate, calculated, mbind, M_bind. simpl.
  destruct (bool_decide _ && bool_decide _); [done|by destruct w].
Qed.

Lemma number_of_value (text : list N) : number_of text = value_of text.
Proof. unfold number_of, value_of. by rewrite regex_test_arabic. Qed.

(** The long form of the command contains the short one: the second test of
    line 256 never decides. *)
Lemma includes_calculate (transcript : list N) :
  includes transcript (js "计算") || includes transcript (js "计算角度")
  = includes transcript (js "计算").
Proof.
  destruct (includes transcript (js "计算")) eqn:E; [done|]. simpl.
  destruct (includes transcript (js "计算角度")) eqn:E'; [|done].
  change (js "计算角度") with (js "计算" ++ js "角度") in E'.
  apply includes_prefix in E'. congruence.
Qed.

(** The state after a command that sets a parameter: the same whatever was
    logged before. *)
Lemma command_run (c : Command) (d : page) (w : world) :
  exec (speak (confirmation c);; modify_this (remember c);; checkAndCalculate)
       (World (this w) (env w) d)
  = let w1 := said (confirmation c) (World (this w) (env w) d) in
    calculated (World (remember c (this w1)) (env w1) (dom w1)).
Proof. unfold exec, mbind, M_bind. rewrite speak_run. simpl. by rewrite checkAndCalculate_run. Qed.

(** Logging leaves the rest of the page alone. *)
Lemma same_but_log_logged (text : template) (type : string) (f : page -> page)
    (h : SpeechHandler) (e : browser) (d : page) :
  (forall d1 d2, inputD d1 = inputD d2 -> inputThetaAim d1 = inputThetaAim d2 ->
     results d1 = results d2 -> clicks d1 = clicks d2 ->
     inputD (f d1) = inputD (f d2) /\ inputThetaAim (f d1) = inputThetaAim (f d2) /\
     results (f d1) = results (f d2) /\ clicks (f d1) = clicks (f d2)) ->
  same_but_log (World h e (f (log_page text type d))) (World h e (f d)).
Proof.
  intros Hf. unfold same_but_log. simpl. split; [done|]. split; [done|].
  apply Hf; unfold log_page; by destruct (logContent d).
Qed.

Lemma same_but_log_said (text : template) (w w' : world) :
  same_but_log w w' -> same_but_log (said text w) (said text w').
Proof.
  intros (E1 & E2 & ?). destruct w as [h e d], w' as [h' e' d']. simpl in *. subst.
  unfold said, drained, pushed, say. simpl.
  destruct (isSpeaking h'); [done|]. by destruct (speechQueue h' ++ [text]).
Qed.

Lemma same_but_log_calculated (f : SpeechHandler -> SpeechHandler) (w w' : world) :
  same_but_log w w' ->
  same_but_log (calculated (World (f (this w)) (env w) (dom w)))
               (calculated (World (f (this w')) (env w') (dom w'))).
Proof.
  intros (E1 & E2 & E3 & E4 & E5 & E6). unfold calculated, same_but_log. simpl.
  rewrite E1, E2. destruct (bool_decide _ && bool_decide _); simpl; by rewrite ?E6.
Qed.

(** ** The queue is respected *)

Lemma queue_step_checkAndCalculate : obeys queue_step checkAndCalculate.
Proof. unfold checkAndCalculate. solve_obeys. Qed.

#[export] Hint Resolve queue_step_checkAndCalculate : js.

Lemma queue_step_processCommand (transcript : list N) :
  obeys queue_step (processCommand transcript).
Proof.
  unfold processCommand, distance_command, angle_command.
  repeat case_match; solve_obeys; by apply queue_step_modify_this.
Qed.

Lemma queue_step_read_results : obeys queue_step read_results.
Proof.
  unfold read_results. apply obeys_bind; [apply _|auto with js|]. intros d.
  destruct (results d); solve_obeys.
Qed.

#[export] Hint Resolve queue_step_processCommand queue_step_read_results : js.

(** ** The recognition is left alone *)

Lemma session_kept_checkAndCalculate : obeys session_kept checkAndCalculate.
Proof. unfold checkAndCalculate. solve_obeys. Qed.

#[export] Hint Resolve session_kept_checkAndCalculate : js.

Lemma session_kept_processCommand (transcript : list N) :
  obeys session_kept (processCommand transcript).
Proof.
  unfold processCommand, distance_command, angle_command.
  repeat case_match; solve_obeys.
Qed.

Lemma session_kept_read_results : obeys session_kept read_results.
Proof.
  unfold read_results. apply obeys_bind; [apply _|auto with js|]. intros d.
  destruct (results d); solve_obeys.
Qed.

#[export] Hint Resolve session_kept_processCommand session_kept_read_results : js.

(** ** The code performs the design's command *)

Section refines.
Context (transcript : list N) (w : world).

Lemma distance_command_refines (text : list N) :
  same_but_log (exec (distance_command text) w)
               (exec (apply_command (SetDistance (value_of text))) w).
Proof.
  unfold distance_command, apply_command. rewrite number_of_value.
  rewrite 2!exec_bind, addLog_run. simpl. rewrite exec_bind. simpl.
  rewrite (command_run (SetDistance (value_of text)) _ w).
  rewrite (command_run (SetDistance (value_of text)) _ w). cbv zeta.
  apply (same_but_log_calculated (remember (SetDistance (value_of text)))),
    same_but_log_said, (same_but_log_logged _ _ (set_inputD _)). by intros.
Qed.

Lemma angle_command_refines (text : list N) :
  let angle := value_of text in
  same_but_log (exec (angle_command transcript text) w)
    (exec (apply_command (SetAngle
       (if hasNegativeIndicator transcript then Qred (- Qabs angle)%Q else angle))) w).
Proof.
  unfold angle_command, apply_command. rewrite number_of_value. cbv zeta.
  set (a := if hasNegativeIndicator transcript then _ else _).
  rewrite 2!exec_bind, addLog_run. simpl. rewrite exec_bind. simpl.
  rewrite (command_run (SetAngle a) _ w). rewrite (command_run (SetAngle a) _ w). cbv zeta.
  apply (same_but_log_calculated (remember (SetAngle a))), same_but_log_said,
    (same_but_log_logged _ _ (set_inputThetaAim _)). by intros.
Qed.

(** C3: processCommand performs the command the design extracts, and
    nothing when there is none: but for what it logs, it leaves the state the
    design's caller leaves, with the numeral found by the scanner, read by the
    parser its form selects, negated when the transcript holds an indicator. *)
Theorem processCommand_refines :
  same_but_log (exec (processCommand transcript) w) (exec (handle transcript) w).
Proof.
  unfold processCommand, handle, extract.
  unfold distancePattern, anglePattern.
  rewrite (match_quantity _ _ unit_class_metre), (match_quantity _ _ unit_class_degree),
    includes_calculate.
  destruct (quantity_search (ch "米") transcript) as [text|];
    [apply distance_command_refines|].
  destruct (quantity_search (ch "度°") transcript) as [text|];
    [apply angle_command_refines|].
  destruct (includes transcript (js "计算")); by repeat split.
Qed.

End refines.

(** ** The commands of the help panel *)

Example extract_examples :
  extract (js "距离150米") = Some (SetDistance 150) /\
  extract (js "设置距离200米") = Some (SetDistance 200) /\
  extract (js "三百五十米") = Some (SetDistance 350) /\
  extract (js "角度30度") = Some (SetAngle 30) /\
  extract (js "设置角度45度") = Some (SetAngle 45) /\
  extract (js "负20度") = Some (SetAngle (-20)) /\
  extract (js "付35度") = Some (SetAngle (-35)) /\
  extract (js "三点五米") = Some (SetDistance (7 # 2)) /\
  extract (js "二十五点八度") = Some (SetAngle (129 # 5)) /\
  extract (js "计算角度") = Some TriggerCalculation /\
  extract (js "随便说点什么") = None.
Proof. by vm_compute. Qed.

(** One command a transcript: the distance wins, the angle is lost.  An
    unrelated word with an indicator in it negates the angle.  Digits with the
    marker lose the tens. *)
Example extract_limits :
  extract (js "距离100米角度30度") = Some (SetDistance 100) /\
  extract (js "幅度30度") = Some (SetAngle (-30)) /\
  extract (js "35点5米") = Some (SetDistance (11 # 2)) /\
  extract (js "十万米") = Some (SetDistance 110000).
Proof. by vm_compute. Qed.

(** The commands of the design's test list, run through the code itself:
    the field each sets, and a transcript that is no command. *)
Example processCommand_examples :
  inputD (dom (exec (processCommand (js "距离150米")) silent)) = Some 150%Q /\
  inputD (dom (exec (processCommand (js "三百五十米")) silent)) = Some 350%Q /\
  inputThetaAim (dom (exec (processCommand (js "角度30度")) silent)) = Some 30%Q /\
  inputThetaAim (dom (exec (processCommand (js "付35度")) silent)) = Some (-35)%Q /\
  clicks (dom (exec (processCommand (js "计算角度")) silent)) = [CalcBtn] /\
  exec (processCommand (js "随便说点什么")) silent = silent.
Proof. by vm_compute. Qed.

(** ** One command for a transcript *)

Lemma said_fields (text : template) (w : world) :
  dom (said text w) = dom w /\
  lastSetDistance (this (said text w)) = lastSetDistance (this w) /\
  lastSetAngle (this (said text w)) = lastSetAngle (this w).
Proof. unfold said, drained, pushed, say. by repeat case_match. Qed.

Lemma calculated_fields (w : world) :
  this (calculated w) = this w /\ inputD (dom (calculated w)) = inputD (dom w) /\
  inputThetaAim (dom (calculated w)) = inputThetaAim (dom w).
Proof. unfold calculated. by case_match. Qed.

(** The state after the branch of a distance. *)
Lemma distance_command_run (text : list N) (w : world) :
  exec (distance_command text) w
  = let c := SetDistance (value_of text) in
    let d := set_inputD (Some (value_of text))
               (log_page [T "解析距离: "; PNum (value_of text); T " (原文: "; PText text; T ")"]
                         "info" (dom w)) in
    let w1 := said (confirmation c) (World (this w) (env w) d) in
    calculated (World (remember c (this w1)) (env w1) (dom w1)).
Proof.
  unfold distance_command. rewrite number_of_value, exec_bind, addLog_run. simpl.
  rewrite exec_bind. simpl. by rewrite (command_run (SetDistance (value_of text)) _ w).
Qed.

(** C26: when the transcript holds a distance, processCommand sets the distance
    and leaves the angle alone, whatever else was said: an angle in the same
    transcript is lost. *)
Theorem distance_wins (transcript text : list N) (w : world) :
  quantity_search (ch "米") transcript = Some text ->
  let w' := exec (processCommand transcript) w in
  inputD (dom w') = Some (value_of text) /\
  lastSetDistance (this w') = Some (value_of text) /\
  inputThetaAim (dom w') = inputThetaAim (dom w) /\
  lastSetAngle (this w') = lastSetAngle (this w).
Proof.
  intros Hq. cbv zeta. unfold processCommand, distancePattern.
  rewrite (match_quantity _ _ unit_class_metre), Hq, distance_command_run. cbv zeta.
  match goal with |- context [calculated ?x] =>
    destruct (calculated_fields x) as (E1 & E2 & E3); rewrite ?E1, ?E2, ?E3 end. simpl.
  match goal with |- context [said ?t ?x] =>
    destruct (said_fields t x) as (E4 & E5 & E6); rewrite ?E4, ?E5, ?E6 end.
  unfold log_page. by destruct (logContent (dom w)).
Qed.

Lemma distance_wins_witness :
  let w' := exec (processCommand (js "距离100米角度30度")) silent in
  inputD (dom w') = Some (value_of (js "100")) /\
  lastSetDistance (this w') = Some (value_of (js "100")) /\
  inputThetaAim (dom w') = inputThetaAim (dom silent) /\
  lastSetAngle (this w') = lastSetAngle (this silent).
Proof. apply (distance_wins (js "距离100米角度30度") (js "100") silent). by vm_compute. Defined.

(** ** Rounding *)

(** C31: the angle announced is the result rounded to hundredths:
    Math.round(x * 100) / 100 is the floor of a hundred times x and a half,
    over a hundred, and differs from x by half a hundredth at most.  (On
    doubles the product with 100 is itself rounded, which can move a value
    that is within rounding error of a tie to the other side.) *)
Theorem round2_spec (x : Q) :
  (round2 x == inject_Z (Qfloor (x * 100 + (1 # 2))) / 100)%Q /\
  (Qabs (round2 x - x) <= 1 # 200)%Q.
Proof.
  unfold round2. rewrite Qred_correct. split; [done|].
  pose proof (Qfloor_le (x * 100 + (1 # 2))) as H1.
  pose proof (Qlt_floor (x * 100 + (1 # 2))) as H2.
  rewrite inject_Z_plus in H2. change (inject_Z 1) with 1%Q in H2.
  apply Qabs_Qle_condition. unfold Qdiv. change (/ 100)%Q with (1 # 100)%Q.
  set (n := inject_Z (Qfloor (x * 100 + (1 # 2)))) in *.
  split; lra.
Qed.

Example round2_examples :
  round2 (123456 # 10000) = (247 # 20)%Q /\ round2 (77512 # 1000) = (7751 # 100)%Q /\
  round2 (-123456 # 10000) = (-247 # 20)%Q /\ rounded (js "12.3456") = PNum (247 # 20).
Proof. by vm_compute. Qed.

(** ** Where the sign comes from *)

(** The state after the branch of an angle. *)
Lemma angle_command_run (transcript text : list N) (w : world) :
  exec (angle_command transcript text) w
  = let a := if hasNegativeIndicator transcript then Qred (- Qabs (value_of text))%Q
             else value_of text in
    let c := SetAngle a in
    let d := set_inputThetaAim (Some a)
               (log_page [T "解析角度: "; PNum a; T " (原文: "; PText text; T ")"]
                         "info" (dom w)) in
    let w1 := said (confirmation c) (World (this w) (env w) d) in
    calculated (World (remember c (this w1)) (env w1) (dom w1)).
Proof.
  unfold angle_command. rewrite number_of_value. cbv zeta.
  set (a := if hasNegativeIndicator transcript then _ else _).
  rewrite exec_bind, addLog_run. simpl. rewrite exec_bind. simpl.
  by rewrite (command_run (SetAngle a) _ w).
Qed.

(** No character of a numeral starts an indicator. *)
Lemma numeral_char_plain (c : N) : numeral_char c = true -> starts_indicator c = false.
Proof.
  unfold numeral_char, cls_cn. rewrite <- !orb_assoc.
  intros [H|[H|H]%orb_true_iff]%orb_true_iff; apply negb_true_iff.
  - by apply (ch_forall cn_numerals (fun m => negb (starts_indicator m)) c); [vm_compute|].
  - apply negb_true_iff. destruct (starts_indicator c) eqn:E; [|done].
    apply starts_indicator_letter in E. apply is_digit_spec in H.
    revert E. unfold lower_cu. split_if; boolify; lia.
  - apply orb_true_iff in H as [H|H].
    + by apply (ch_forall "点" (fun m => negb (starts_indicator m)) c); [vm_compute|].
    + by apply (ch_forall "." (fun m => negb (starts_indicator m)) c); [vm_compute|].
Qed.

(** What the scanner captures passes the test for no indicator. *)
Lemma capture_plain (unit : N -> bool) (transcript text : list N) :
  quantity_search unit transcript = Some text -> hasNegativeIndicator text = false.
Proof.
  intros Hq%quantity_search_chars. destruct (hasNegativeIndicator text) eqn:E; [|done].
  apply hasNegativeIndicator_starts in E as (c & Hc & Hs).
  rewrite Forall_forall in Hq. apply list_elem_of_In, Hq, numeral_char_plain in Hc.
  congruence.
Qed.

(** C34: the numeral the angle pattern captures never holds an indicator,
    whatever the transcript: its characters are numeral characters, 点 or a
    dot, and none of them starts an entry of the array.  So the sign of an
    angle is always decided by the words around the numeral, and a test on
    the captured text alone would never negate. *)
Theorem capture_no_indicator (transcript angleText : list N) :
  match_group1 anglePattern transcript = Some angleText ->
  hasNegativeIndicator angleText = false.
Proof.
  unfold anglePattern. rewrite (match_quantity _ _ unit_class_degree). apply capture_plain.
Qed.

Lemma capture_no_indicator_witness : hasNegativeIndicator (js "35") = false.
Proof. apply (capture_no_indicator (js "付35度")). by vm_compute. Defined.

(** C27: the test for a negative angle is made on the whole transcript: when
    the transcript holds no distance and an angle, one ideograph of the array
    anywhere in it, however far from the numeral and never inside it, makes
    processCommand set the angle field to minus the magnitude. *)
Theorem indicator_anywhere (transcript angleText : list N) (c : N) (w : world) :
  match_group1 distancePattern transcript = None ->
  match_group1 anglePattern transcript = Some angleText ->
  c ∈ transcript -> c ∈ negative_chars ->
  (c ∉ angleText) /\
  inputThetaAim (dom (exec (processCommand transcript) w))
  = Some (Qred (- Qabs (value_of angleText))%Q).
Proof.
  intros Hd Ha Hc Hn. split.
  - intros Hin. revert Ha. unfold anglePattern.
    rewrite (match_quantity _ _ unit_class_degree). intros Hp%capture_plain.
    by rewrite (negative_char_indicator c angleText Hin Hn) in Hp.
  - unfold processCommand. rewrite Hd, Ha, angle_command_run. cbv zeta.
    rewrite (negative_char_indicator c transcript Hc Hn).
    match goal with |- context [calculated ?x] =>
      destruct (calculated_fields x) as (_ & _ & ->) end. simpl.
    match goal with |- context [said ?t ?x] =>
      destruct (said_fields t x) as (-> & _ & _) end. done.
Qed.

Lemma indicator_anywhere_witness :
  (0x5E45%N ∉ js "30") /\
  inputThetaAim (dom (exec (processCommand (js "幅度大约30度")) silent))
  = Some (Qred (- Qabs (value_of (js "30")))%Q).
Proof.
  apply (indicator_anywhere (js "幅度大约30度") (js "30") 0x5E45%N silent);
    [by vm_compute|by vm_compute|by_compute|by_compute].
Defined.
