(* ===== verification/Arbiter.v ===== *)
(** * Arbiter: listening and speaking

    Models the rest of class SpeechHandler (src/speech.js): the constructor
    (lines 5-35) with its focus and blur listeners, the three listeners of
    setupRecognition (lines 118-139), startListening (lines 319-346),
    stopListening (lines 348-363), and the click and keydown listeners of
    lines 463-483.  Notifications are left out: they change nothing the
    handler reads.

    Around the handlers stands the browser as a transition system: [step]
    delivers one event (a click, a key, focus, blur, a recognition result,
    end or error, the end or failure of an utterance, a timer, a new text in
    #results) to a state and runs the listener to its end; an exception no
    listener catches ends the listener and leaves the state as it is then.
    Which events can happen when follows the Web Speech API: a session gives
    results, an error or its end only while it is open; a session that is
    not continuous stops capturing with its first result; timers fire in any
    order.  [reachable] are the states the page can get into.

    The theorems: the invariants of the queue hold in every reachable state;
    announcements are spoken in order, one at a time; a recognition error
    schedules one restart; and, as traces, how the page gets to capture while
    it speaks, to call start() on an open session, and to stay silent and
    deaf while the user believes it listens. *)

From Stdlib Require Import ZArith NArith QArith Lia String.
From stdpp Require Import base tactics option list numbers.
From S2P Require Import Prelude Negative World Log SpeechQueue Command.

(** ** The source *)

(** new SpeechHandler(): the fields as the constructor leaves them. *)
Definition constructor : SpeechHandler :=
  {| isListening := false;
     isSpeaking := false;
     lastWindowFocus := true;
     speechQueue := [];
     lastSetDistance := None;
     lastSetAngle := None |}.

(** window.addEventListener('focus', ...) *)
Definition on_focus : M unit :=
  modify_this (set_lastWindowFocus true);;
  h ← get_this;
  if isListening h && negb (isSpeaking h) then recognition_start else skip_.

(** window.addEventListener('blur', ...) *)
Definition on_blur : M unit :=
  modify_this (set_lastWindowFocus false);;
  h ← get_this;
  if isListening h then recognition_stop else skip_.

(** String.prototype.trim *)
Definition trim (s : list N) : list N :=
  rev (span is_space (rev (span is_space s).2)).2.

(** recognition.addEventListener('result', ...) *)
Definition on_result (raw : list N) : M unit :=
  let transcript := trim raw in
  addLog [T "识别结果: "; PText transcript] "info";;
  processCommand transcript.

(** recognition.addEventListener('end', ...) *)
Definition on_end : M unit :=
  h ← get_this;
  if isListening h && negb (isSpeaking h) then recognition_start else skip_.

(** recognition.addEventListener('error', ...) *)
Definition on_error (code : list N) : M unit :=
  addLog [T "识别错误: "; PText code] "error";;
  h ← get_this;
  if isListening h && negb (isSpeaking h) then set_timeout CbRecognitionStart 1000
  else skip_.

Definition startListening : M unit :=
  h ← get_this;
  if negb (isListening h) then
    modify_this (set_isListening true);;
    try_catch
      (createLogBox;;
       h ← get_this;
       (if lastWindowFocus h then recognition_start else skip_);;
       speak [T "语音控制已开启"];;
       addLog [T "语音控制已开启"] "info")
      (fun error =>
       addLog [T "启动失败: "; PMessage error] "error";;
       modify_this (set_isListening false))
  else skip_.

Definition stopListening : M unit :=
  h ← get_this;
  if isListening h then
    modify_this (set_isListening false);;
    recognition_stop;;
    speak [T "语音控制已关闭"];;
    addLog [T "语音控制已关闭"] "info"
  else skip_.

(** window.addEventListener('keydown', ...) of lines 472-483. *)
Definition on_keydown (altKey : bool) (key : list N) : M unit :=
  (if altKey && bool_decide (toLowerCase key = js "v") then startListening else skip_);;
  (if altKey && bool_decide (toLowerCase key = js "c") then stopListening else skip_).

(** What a timer runs: the function of lines 134-136 and 298-300, that of
    lines 294-296 and 310-312, or that of lines 375-402. *)
Definition run_callback (cb : callback) : M unit :=
  match cb with
  | CbRecognitionStart => recognition_start
  | CbProcessQueue => processSpeechQueue
  | CbReadResults => read_results
  end.

(** ** The browser *)

Inductive event : Type :=
| EvStartClick                       (* a click on #startVoice *)
| EvStopClick                        (* a click on #stopVoice *)
| EvKeydown (altKey : bool) (key : list N)
| EvFocus
| EvBlur
| EvResult (raw : list N)            (* the recognition's result *)
| EvEnd                              (* the recognition's end *)
| EvError (code : list N)            (* the recognition's error *)
| EvUtteranceEnd
| EvUtteranceError
| EvTimer (i : nat)                  (* the i-th pending timer fires *)
| EvResults (text : option (list N)).  (* the calculator writes #results *)

(** The page as the script finds it. *)
Definition new_page : page :=
  {| logContent := None; inputD := None; inputThetaAim := None; results := None;
     clicks := []; console := [] |}.

Definition new_browser : browser :=
  {| recognition := RecIdle; utterances := []; timers := []; calls := [] |}.

(** The state after the script has run. *)
Definition init : world := World constructor new_browser new_page.

(** A session is open. *)
Definition session_open (w : world) : bool :=
  negb (bool_decide (recognition (env w) = RecIdle)).

Definition with_recognition (r : rec_state) (w : world) : world :=
  World (this w) (set_recognition r (env w)) (dom w).

(** One event: [None] when the event cannot happen in [w]. *)
Definition step (ev : event) (w : world) : option world :=
  match ev with
  | EvStartClick => Some (exec startListening w)
  | EvStopClick => Some (exec stopListening w)
  | EvKeydown altKey key => Some (exec (on_keydown altKey key) w)
  | EvFocus => Some (exec on_focus w)
  | EvBlur => Some (exec on_blur w)
  | EvResult raw =>
    if session_open w then Some (exec (on_result raw) (with_recognition RecStopping w))
    else None
  | EvEnd =>
    if session_open w then Some (exec on_end (with_recognition RecIdle w)) else None
  | EvError code =>
    if session_open w then Some (exec (on_error code) (with_recognition RecStopping w))
    else None
  | EvUtteranceEnd => synth_finish true w
  | EvUtteranceError => synth_finish false w
  | EvTimer i =>
    tm ← timers (env w) !! i;
    Some (exec (run_callback (timer_cb tm))
               (World (this w) (set_timers (delete i (timers (env w))) (env w)) (dom w)))
  | EvResults text => Some (World (this w) (env w) (set_results text (dom w)))
  end.

(** A sequence of events, from the first. *)
Fixpoint run (evs : list event) (w : world) : option world :=
  match evs with
  | [] => Some w
  | ev :: evs' => w' ← step ev w; run evs' w'
  end.

(** The states of the page. *)
Inductive reachable : world -> Prop :=
| reachable_init : reachable init
| reachable_step w ev w' : reachable w -> step ev w = Some w' -> reachable w'.

(** ** Specification *)

(** Half duplex: the microphone captures or the speaker plays, not both. *)
Definition half_duplex (w : world) : Prop :=
  ~ (recognition (env w) = RecCapturing /\ utterances (env w) <> []).

#[export] Instance half_duplex_dec (w : world) : Decision (half_duplex w).
Proof. unfold half_duplex. apply _. Defined.

(** Nothing will happen unless the user or the window acts: no open
    session, no utterance, no timer. *)
Definition at_rest (w : world) : Prop :=
  recognition (env w) = RecIdle /\ utterances (env w) = [] /\ timers (env w) = [].

(** The user was told the page listens, and it never will again by itself. *)
Definition stalled (w : world) : Prop :=
  isListening (this w) = true /\ lastWindowFocus (this w) = true /\ at_rest w.

(** The key that starts listening: Alt+V. *)
Definition start_key (altKey : bool) (key : list N) : bool :=
  altKey && bool_decide (toLowerCase key = js "v").

(** The listeners that ask before they start or speak: every event but a
    click or key that starts listening, and the timers. *)
Definition guarded (ev : event) : bool :=
  match ev with
  | EvStartClick | EvTimer _ => false
  | EvKeydown altKey key => negb (start_key altKey key)
  | _ => true
  end.

(** The state after recognition.start(). *)
Definition started (w : world) : world :=
  World (this w)
        (mkBrowser (match recognition (env w) with RecIdle => RecCapturing | r => r end)
                   (utterances (env w)) (timers (env w))
                   (calls (env w) ++ [CRecognitionStart]))
        (dom w).

(** The state after recognition.stop(). *)
Definition stopped (w : world) : world :=
  World (this w)
        (mkBrowser (match recognition (env w) with RecCapturing => RecStopping | r => r end)
                   (utterances (env w)) (timers (env w))
                   (calls (env w) ++ [CRecognitionStop]))
        (dom w).

(** An event that leads from a reachable state where the microphone and the
    speaker are apart to one where both are active. *)
Definition breaks_half_duplex (ev : event) : Prop :=
  exists w w', reachable w /\ half_duplex w /\ step ev w = Some w' /\ ~ half_duplex w'.

(** The same for a timer that runs [cb]. *)
Definition timer_breaks_half_duplex (cb : callback) : Prop :=
  exists w i w', reachable w /\ half_duplex w /\
    timer_cb <$> timers (env w) !! i = Some cb /\
    step (EvTimer i) w = Some w' /\ ~ half_duplex w'.

(** [P] holds after the events [evs] from the first state. *)
Definition holds_after (P : world -> Prop) `{!forall w, Decision (P w)}
    (evs : list event) : bool :=
  match run evs init with
  | Some w => bool_decide (P w)
  | None => false
  end.

(** The state after startListening when recognition.start() throws. *)
Definition start_failed (w : world) : world :=
  World (this w) (env (started w))
        (log_page [T "启动失败: "; PMessage InvalidStateError] "error"
                  (fresh_log_page (dom w))).

(** The state after startListening when nothing throws. *)
Definition start_done (w : world) : world :=
  let w1 := World (set_isListening true (this w)) (env w) (fresh_log_page (dom w)) in
  let w2 := if lastWindowFocus (this w) then started w1 else w1 in
  let w3 := exec (speak [T "语音控制已开启"]) w2 in
  World (this w3) (env w3) (log_page [T "语音控制已开启"] "info" (dom w3)).

(** speak called with each text of [texts] in turn. *)
Definition speak_all (texts : list template) (w : world) : world :=
  foldl (fun w text => exec (speak text) w) w texts.

(** A synthesis engine that never fails, and the 300 ms timer after each
    utterance but the last: what follows [n] texts given to speak. *)
Definition drain_events (n : nat) : list event :=
  match n with
  | O => []
  | S n' => EvUtteranceEnd :: concat (replicate n' [EvTimer 0; EvUtteranceEnd])
  end.

(** The queue is silent and empty, and nothing is pending. *)
Definition quiet (w : world) : Prop :=
  isSpeaking (this w) = false /\ speechQueue (this w) = [] /\
  utterances (env w) = [] /\ timers (env w) = [] /\ isListening (this w) = false.

(** ** Every listener respects the queue *)

Lemma queue_step_flag (f : SpeechHandler -> SpeechHandler) :
  (forall h, isSpeaking (f h) = isSpeaking h /\ speechQueue (f h) = speechQueue h) ->
  obeys queue_step (modify_this f).
Proof. intros H. apply queue_step_modify_this; intros h; by destruct (H h). Qed.

#[export] Hint Extern 1 (obeys queue_step (modify_this _)) =>
  apply queue_step_flag; done : js.

Section listeners.

Lemma queue_step_on_focus : obeys queue_step on_focus.
Proof. unfold on_focus. solve_obeys. Qed.

Lemma queue_step_on_blur : obeys queue_step on_blur.
Proof. unfold on_blur. solve_obeys. Qed.

Lemma queue_step_on_result (raw : list N) : obeys queue_step (on_result raw).
Proof. unfold on_result. solve_obeys. Qed.

Lemma queue_step_on_end : obeys queue_step on_end.
Proof. unfold on_end. solve_obeys. Qed.

Lemma queue_step_on_error (code : list N) : obeys queue_step (on_error code).
Proof. unfold on_error. solve_obeys. Qed.

Lemma queue_step_startListening : obeys queue_step startListening.
Proof. unfold startListening. solve_obeys. Qed.

Lemma queue_step_stopListening : obeys queue_step stopListening.
Proof. unfold stopListening. solve_obeys. Qed.

Lemma queue_step_on_keydown (altKey : bool) (key : list N) :
  obeys queue_step (on_keydown altKey key).
Proof.
  unfold on_keydown.
  solve_obeys; auto using queue_step_startListening, queue_step_stopListening.
Qed.

(** A key that is not Alt+V stops listening or does nothing. *)
Lemma on_keydown_other (altKey : bool) (key : list N) (w : world) :
  start_key altKey key = false ->
  exec (on_keydown altKey key) w
  = if altKey && bool_decide (toLowerCase key = js "c") then exec stopListening w else w.
Proof.
  unfold on_keydown, start_key. intros ->. rewrite exec_bind. simpl.
  by destruct (altKey && _).
Qed.

Lemma queue_step_with_recognition (r : rec_state) (w : world) :
  queue_step w (with_recognition r w).
Proof. by apply same_queue_step. Qed.

End listeners.

(** ** Every event respects the queue *)

Lemma step_queue (ev : event) (w w' : world) : step ev w = Some w' -> queue_step w w'.
Proof.
  destruct ev; simpl; try (destruct (session_open w); [|done]); intros Hs; simplify_eq.
  - apply queue_step_startListening.
  - apply queue_step_stopListening.
  - apply queue_step_on_keydown.
  - apply queue_step_on_focus.
  - apply queue_step_on_blur.
  - etrans; [apply (queue_step_with_recognition RecStopping)|apply queue_step_on_result].
  - etrans; [apply (queue_step_with_recognition RecIdle)|apply queue_step_on_end].
  - etrans; [apply (queue_step_with_recognition RecStopping)|apply queue_step_on_error].
  - intros Hw. split; [by eapply synth_finish_inv|].
    by rewrite (synth_finish_announced true w w').
  - intros Hw. split; [by eapply synth_finish_inv|].
    by rewrite (synth_finish_announced false w w').
  - destruct (timers (env w) !! i) as [[cb ms]|] eqn:Hi; simplify_eq/=.
    destruct cb; simpl.
    + etrans; [by apply (queue_step_other_timer w i _ Hi)|].
      apply queue_step_recognition_start.
    + unfold exec. rewrite processSpeechQueue_run. by apply (queue_step_timer w i ms).
    + etrans; [by apply (queue_step_other_timer w i _ Hi)|].
      apply queue_step_read_results.
  - by apply same_queue_step.
Qed.

Lemma run_queue (evs : list event) (w w' : world) : run evs w = Some w' -> queue_step w w'.
Proof.
  revert w. induction evs as [|ev evs IH]; intros w Hr; simplify_eq/=; [done|].
  destruct (step ev w) as [w1|] eqn:Hs; simplify_eq/=.
  etrans; [by apply (step_queue ev)|by apply IH].
Qed.

Lemma init_queue_inv : queue_inv init.
Proof. by split. Qed.

(** ** Reachable states *)

Lemma run_reachable (evs : list event) (w w' : world) :
  reachable w -> run evs w = Some w' -> reachable w'.
Proof.
  revert w. induction evs as [|ev evs IH]; intros w Hw Hr; simplify_eq/=; [done|].
  destruct (step ev w) as [w1|] eqn:Hs; simplify_eq/=.
  apply (IH w1); [by apply (reachable_step w ev)|done].
Qed.

Lemma reachable_run (w : world) : reachable w -> exists evs, run evs init = Some w.
Proof.
  induction 1 as [|w ev w' _ [evs IH] Hs]; [by exists []|].
  exists (evs ++ [ev]). revert IH. generalize init. induction evs as [|e evs IHe];
    intros w0 Hr; simplify_eq/=; [by rewrite Hs|].
  destruct (step e w0) as [w1|]; simplify_eq/=. by apply IHe.
Qed.

(** The invariant by induction on the events that lead to a state. *)
Lemma reachable_inv (w : world) : reachable w -> queue_inv w.
Proof.
  induction 1 as [|w ev w' _ IH Hs]; [apply init_queue_inv|].
  by apply (step_queue ev w w' Hs).
Qed.

(** C1: in every state the page can reach, the flag isSpeaking is up
    exactly when the synthesis engine holds an utterance, which is then the
    head of speechQueue; a queue that is not speaking but has texts has a
    timer pending that will speak them; and the engine never holds more than
    one utterance. *)
Theorem reachable_queue_inv (w : world) :
  reachable w -> queue_inv w /\ length (utterances (env w)) <= 1.
Proof. intros Hw%reachable_inv. split; [done|by apply queue_inv_one]. Qed.

Lemma reachable_queue_inv_witness :
  let w := default init (run [EvStartClick; EvUtteranceEnd; EvResult (js "距离150米")] init) in
  queue_inv w /\ length (utterances (env w)) <= 1.
Proof.
  apply reachable_queue_inv.
  apply (run_reachable [EvStartClick; EvUtteranceEnd; EvResult (js "距离150米")] init);
    [constructor|by vm_compute].
Defined.

(** C6: whatever happens, in whatever order, texts are spoken in the order
    of the calls of speak: what was spoken or waiting before a sequence of
    events is a prefix of what is spoken or waiting after it. *)
Theorem run_announced (evs : list event) (w w' : world) :
  reachable w -> run evs w = Some w' -> announced w `prefix_of` announced w'.
Proof.
  intros Hw Hr. by apply (run_queue evs w w' Hr), reachable_inv.
Qed.

Lemma run_announced_witness :
  let w := default init (run [EvStartClick] init) in
  announced w `prefix_of`
    announced (default init (run [EvResult (js "距离150米"); EvStopClick] w)).
Proof.
  apply (run_announced [EvResult (js "距离150米"); EvStopClick]).
  - apply (run_reachable [EvStartClick] init); [constructor|by vm_compute].
  - by vm_compute.
Defined.

(** ** Half duplex *)

Lemma recognition_start_run (w : world) :
  recognition_start w
  = (if session_open w then Thrown InvalidStateError else Done tt, started w).
Proof.
  unfold recognition_start, started, session_open, mbind, M_bind. simpl.
  destruct w as [h [[] u tm c] d]; done.
Qed.

Lemma recognition_stop_run (w : world) : recognition_stop w = (Done tt, stopped w).
Proof.
  unfold recognition_stop, stopped, mbind, M_bind. simpl.
  destruct w as [h [[] u tm c] d]; done.
Qed.

Lemma half_duplex_not_capturing (w : world) :
  recognition (env w) <> RecCapturing -> half_duplex w.
Proof. intros H [Hc _]. done. Qed.

Lemma half_duplex_silent (w : world) : utterances (env w) = [] -> half_duplex w.
Proof. intros H [_ Hu]. done. Qed.

(** What keeps the session leaves a session that does not capture so. *)
Lemma session_kept_half_duplex {A} (m : M A) (w : world) :
  obeys session_kept m -> recognition (env w) <> RecCapturing -> half_duplex (exec m w).
Proof. intros Hm Hw. apply half_duplex_not_capturing. by rewrite (Hm w). Qed.

Section half_duplex.
Context (w : world) (Hinv : queue_inv w) (Hw : half_duplex w).

Lemma half_duplex_start_guarded :
  half_duplex (exec (h ← get_this;
    if isListening h && negb (isSpeaking h) then recognition_start else skip_) w).
Proof using Hinv Hw.
  rewrite exec_bind. simpl. destruct (isListening (this w) && negb (isSpeaking (this w))) eqn:E;
    [|exact Hw].
  unfold exec. rewrite recognition_start_run. apply half_duplex_silent. simpl.
  apply andb_true_iff in E as [_ E%negb_true_iff]. by apply Hinv.
Qed.

Lemma half_duplex_on_blur : half_duplex (exec on_blur w).
Proof using Hw.
  unfold on_blur. repeat (rewrite exec_bind; simpl).
  destruct (isListening (this w)); [|exact Hw].
  unfold exec. rewrite recognition_stop_run. apply half_duplex_not_capturing. simpl.
  by destruct (recognition (env w)).
Qed.

Lemma half_duplex_stopListening : half_duplex (exec stopListening w).
Proof using Hw.
  unfold stopListening. repeat (rewrite exec_bind; simpl).
  destruct (isListening (this w)); [|exact Hw].
  repeat (rewrite exec_bind; simpl). rewrite recognition_stop_run.
  apply session_kept_half_duplex; [solve_obeys|]. simpl. by destruct (recognition (env w)).
Qed.

End half_duplex.

(** C2: the listeners that test the flags before they act keep the
    microphone and the speaker apart: from a reachable state where they are
    not both active, no event other than a start of listening or a timer
    leads to a state where they are. *)
Theorem half_duplex_guarded (ev : event) (w w' : world) :
  reachable w -> half_duplex w -> guarded ev = true -> step ev w = Some w' ->
  half_duplex w'.
Proof.
  intros Hr%reachable_inv Hw Hg Hs.
  destruct ev; simpl in *; try done; try (destruct (session_open w); [|done]); simplify_eq.
  - by apply half_duplex_stopListening.
  - apply negb_true_iff in Hg. rewrite (on_keydown_other _ _ _ Hg).
    destruct (altKey && _); [by apply half_duplex_stopListening|done].
  - unfold on_focus. rewrite exec_bind. simpl.
    apply half_duplex_start_guarded; [|exact Hw].
    apply (queue_step_flag (set_lastWindowFocus true) (fun h => conj eq_refl eq_refl) w Hr).
  - by apply half_duplex_on_blur.
  - apply session_kept_half_duplex; [unfold on_result; solve_obeys|done].
  - apply half_duplex_start_guarded; [|by apply half_duplex_not_capturing].
    apply (queue_step_with_recognition RecIdle w Hr).
  - apply session_kept_half_duplex; [unfold on_error; solve_obeys|done].
  - apply synth_finish_run in Hs as (t & us & d & Hu & ->). apply half_duplex_silent.
    simpl. pose proof (queue_inv_one w Hr) as Hl. rewrite Hu in Hl.
    destruct us; [done|simpl in Hl; lia].
  - apply synth_finish_run in Hs as (t & us & d & Hu & ->). apply half_duplex_silent.
    simpl. pose proof (queue_inv_one w Hr) as Hl. rewrite Hu in Hl.
    destruct us; [done|simpl in Hl; lia].
  - done.
Qed.

Lemma half_duplex_guarded_witness :
  half_duplex (default init (run [EvStartClick; EvEnd; EvUtteranceEnd; EvFocus] init)).
Proof.
  apply (half_duplex_guarded EvFocus
           (default init (run [EvStartClick; EvEnd; EvUtteranceEnd] init))).
  - apply (run_reachable [EvStartClick; EvEnd; EvUtteranceEnd] init);
      [constructor|by vm_compute].
  - apply half_duplex_silent. by vm_compute.
  - done.
  - by vm_compute.
Defined.

(** ** How the page breaks half duplex *)

Lemma run_snoc (evs : list event) (ev : event) (w0 w : world) :
  run evs w0 = Some w -> run (evs ++ [ev]) w0 = step ev w.
Proof.
  revert w0. induction evs as [|e evs IH]; intros w0 Hr; simplify_eq/=.
  - by destruct (step ev w).
  - destruct (step e w0); simplify_eq/=. by apply IH.
Qed.

Lemma breaks_by_trace (evs : list event) (ev : event) :
  holds_after half_duplex evs = true ->
  holds_after (fun w' => ~ half_duplex w') (evs ++ [ev]) = true ->
  breaks_half_duplex ev.
Proof.
  unfold holds_after. intros H1 H2.
  destruct (run evs init) as [w|] eqn:Hr; [|done].
  rewrite (run_snoc evs ev init w Hr) in H2.
  destruct (step ev w) as [w'|] eqn:Hs; [|done].
  apply bool_decide_eq_true_1 in H1, H2. exists w, w'.
  split; [by apply (run_reachable evs init); [constructor|]|done].
Qed.

Lemma timer_breaks_by_trace (evs : list event) (i : nat) (cb : callback) :
  holds_after (fun w => timer_cb <$> timers (env w) !! i = Some cb) evs = true ->
  holds_after half_duplex evs = true ->
  holds_after (fun w' => ~ half_duplex w') (evs ++ [EvTimer i]) = true ->
  timer_breaks_half_duplex cb.
Proof.
  unfold holds_after. intros Hcb H1 H2.
  destruct (run evs init) as [w|] eqn:Hr; [|done].
  rewrite (run_snoc evs (EvTimer i) init w Hr) in H2.
  destruct (step (EvTimer i) w) as [w'|] eqn:Hs; [|done].
  apply bool_decide_eq_true_1 in Hcb, H1, H2. exists w, i, w'.
  split; [by apply (run_reachable evs init); [constructor|]|done].
Qed.

(** C19: startListening opens the microphone and then speaks its
    confirmation: from the state the page loads in, one click on the start
    button leads to a state where recognition captures while an utterance
    plays. *)
Theorem startListening_breaks : breaks_half_duplex EvStartClick.
Proof. by apply (breaks_by_trace []); vm_compute. Qed.

(** C20: each of the three functions given to setTimeout can break half
    duplex, since none tests the flags when it runs: the restart of
    recognition fires while a confirmation plays; the queue goes on with its
    next text after recognition restarted in the gap between two texts; the
    result of the calculation is announced while recognition captures.  In
    each trace a timer fires only after every timer that is due before it:
    in the third the window regains focus after the confirmation, so that
    recognition runs when the 1000 ms timer of the result fires, with the
    500 ms restart set after it still pending. *)
Theorem timers_break (cb : callback) : timer_breaks_half_duplex cb.
Proof.
  destruct cb.
  - by apply (timer_breaks_by_trace
      [EvStartClick; EvUtteranceEnd; EvResult (js "距离150米"); EvEnd] 0); vm_compute.
  - by apply (timer_breaks_by_trace
      [EvStartClick; EvResult (js "距离150米"); EvEnd; EvUtteranceEnd; EvFocus] 0);
      vm_compute.
  - by apply (timer_breaks_by_trace
      [EvStartClick; EvResult (js "距离150米"); EvEnd; EvUtteranceEnd; EvTimer 0;
       EvUtteranceEnd; EvTimer 0; EvResult (js "角度30度"); EvEnd; EvUtteranceEnd;
       EvFocus; EvResults (Some (js "低射角度: 12.5 高射角度: 77.5"))] 0); vm_compute.
Qed.

(** ** Starting and stopping *)

Lemma startListening_run (w : world) :
  exec startListening w
  = if isListening (this w) then w
    else if lastWindowFocus (this w) && session_open w then start_failed w
    else start_done w.
Proof.
  unfold startListening. rewrite exec_bind. simpl.
  destruct (isListening (this w)) eqn:El; simpl; [done|].
  rewrite exec_bind. simpl. rewrite exec_try_catch. unfold mbind, M_bind.
  rewrite createLogBox_run. simpl. unfold start_done, start_failed.
  destruct (lastWindowFocus (this w)) eqn:Ef; simpl.
  - rewrite recognition_start_run. unfold session_open at 1. simpl.
    fold (session_open w). destruct (session_open w) eqn:Es; simpl.
    + unfold exec, mbind, M_bind. rewrite addLog_run. simpl.
      destruct w as [[] e d]. simpl in *. by subst.
    + rewrite speak_run. unfold exec. rewrite speak_run. simpl. by rewrite addLog_run.
  - rewrite speak_run. unfold exec. rewrite speak_run. simpl. by rewrite addLog_run.
Qed.

(** C24: when a recognition session is still open, startListening fails:
    recognition.start() throws, the handler logs the failure and takes
    isListening back, and nothing is spoken; so a start that follows a stop
    before the session has ended is lost. *)
Theorem startListening_fails (w : world) :
  isListening (this w) = false -> lastWindowFocus (this w) = true ->
  session_open w = true ->
  let w' := exec startListening w in
  this w' = this w /\ utterances (env w') = utterances (env w) /\
  recognition (env w') = recognition (env w) /\
  calls (env w') = calls (env w) ++ [CRecognitionStart] /\
  logContent (dom w')
  = Some [LogEntry [T "启动失败: "; PMessage InvalidStateError] true;
          LogEntry [T "日志系统初始化完成"] false].
Proof.
  intros El Ef Es. simpl. rewrite startListening_run, El, Ef, Es. simpl.
  unfold session_open in Es. by destruct (recognition (env w)).
Qed.

Lemma startListening_fails_witness :
  let w := default init (run [EvStartClick; EvStopClick] init) in
  let w' := exec startListening w in
  this w' = this w /\ utterances (env w') = utterances (env w) /\
  recognition (env w') = recognition (env w) /\
  calls (env w') = calls (env w) ++ [CRecognitionStart] /\
  logContent (dom w')
  = Some [LogEntry [T "启动失败: "; PMessage InvalidStateError] true;
          LogEntry [T "日志系统初始化完成"] false].
Proof.
  apply (startListening_fails (default init (run [EvStartClick; EvStopClick] init)));
    by vm_compute.
Defined.

(** The state startListening speaks from has the queue of the state it
    started in. *)
Lemma start_done_queue (w : world) :
  let w1 := World (set_isListening true (this w)) (env w) (fresh_log_page (dom w)) in
  let w2 := if lastWindowFocus (this w) then started w1 else w1 in
  queue_step w w2 /\ announced w2 = announced w.
Proof.
  cbv zeta. destruct (lastWindowFocus (this w)).
  - assert (spoken (started (World (set_isListening true (this w)) (env w)
              (fresh_log_page (dom w)))) = spoken w) as Hsp
      by (by apply (spoken_emit CRecognitionStart)).
    split; [by apply same_queue_step|]. unfold announced. by rewrite Hsp.
  - split; [by apply same_queue_step|done].
Qed.

(** C14: with no session open, startListening does what the design's start
    says: the page listens, recognition captures if the window has focus, the
    confirmation is the next text to be spoken after those announced before,
    and the log box is new and holds the two lines of the start. *)
Theorem startListening_ok (w : world) :
  isListening (this w) = false -> session_open w = false -> queue_inv w ->
  let w' := exec startListening w in
  isListening (this w') = true /\
  recognition (env w') = (if lastWindowFocus (this w) then RecCapturing else RecIdle) /\
  announced w' = announced w ++ [[T "语音控制已开启"]] /\
  logContent (dom w')
  = Some [LogEntry [T "语音控制已开启"] false; LogEntry [T "日志系统初始化完成"] false].
Proof.
  intros Hl Ho Hq. cbv zeta. rewrite startListening_run, Hl, Ho, andb_false_r.
  unfold start_done. destruct (start_done_queue w) as [Hstep Han]. cbv zeta in Hstep, Han.
  apply negb_false_iff, bool_decide_eq_true in Ho.
  set (w2 := if lastWindowFocus (this w) then _ else _) in *.
  match goal with |- context [announced (World (this ?x) (env ?x) ?d)] =>
    change (announced (World (this x) (env x) d)) with (announced x) end. simpl.
  rewrite speak_listening, (session_kept_speak _ w2), speak_dom.
  rewrite (speak_announced _ w2) by (by apply Hstep). rewrite Han. subst w2.
  destruct (lastWindowFocus (this w)); simpl; by rewrite ?Ho.
Qed.

Lemma startListening_ok_witness :
  let w' := exec startListening init in
  isListening (this w') = true /\
  recognition (env w') = (if lastWindowFocus (this init) then RecCapturing else RecIdle) /\
  announced w' = announced init ++ [[T "语音控制已开启"]] /\
  logContent (dom w')
  = Some [LogEntry [T "语音控制已开启"] false; LogEntry [T "日志系统初始化完成"] false].
Proof. apply (startListening_ok init); [done|done|apply init_queue_inv]. Defined.

(** The state after stopListening while the page listens. *)
Lemma stopListening_run (w : world) :
  isListening (this w) = true ->
  exec stopListening w
  = let w1 := stopped (World (set_isListening false (this w)) (env w) (dom w)) in
    let w2 := exec (speak [T "语音控制已关闭"]) w1 in
    World (this w2) (env w2) (log_page [T "语音控制已关闭"] "info" (dom w2)).
Proof.
  intros Hl. unfold stopListening. rewrite exec_bind. simpl. rewrite Hl.
  rewrite exec_bind. simpl. rewrite exec_bind, recognition_stop_run.
  unfold exec, mbind, M_bind. rewrite speak_run. simpl. by rewrite addLog_run.
Qed.

(** C36: while the page listens, stopListening does what the design's stop
    says: the page no longer listens, a capturing session is told to stop,
    the confirmation is the next text to be spoken after those announced
    before, no utterance is interrupted, and one line is logged. *)
Theorem stopListening_ok (w : world) :
  isListening (this w) = true -> queue_inv w ->
  let w' := exec stopListening w in
  isListening (this w') = false /\
  recognition (env w')
  = match recognition (env w) with RecCapturing => RecStopping | r => r end /\
  announced w' = announced w ++ [[T "语音控制已关闭"]] /\
  (utterances (env w) <> [] -> utterances (env w') = utterances (env w)) /\
  dom w' = log_page [T "语音控制已关闭"] "info" (dom w).
Proof.
  intros Hl Hq. cbv zeta. rewrite (stopListening_run w Hl). cbv zeta.
  set (w1 := stopped _).
  assert (queue_step w w1 /\ announced w1 = announced w) as [Hstep Han].
  { assert (spoken w1 = spoken w) as Hsp by (by apply (spoken_emit CRecognitionStop)).
    split; [by apply same_queue_step|]. unfold announced. by rewrite Hsp. }
  match goal with |- context [announced (World (this ?x) (env ?x) ?d)] =>
    change (announced (World (this x) (env x) d)) with (announced x) end. simpl.
  rewrite speak_listening, (session_kept_speak _ w1), speak_dom.
  rewrite (speak_announced _ w1) by (by apply Hstep). rewrite Han.
  repeat split. intros Hu. unfold exec. rewrite speak_run.
  destruct Hq as [H1 H2 _]. destruct (isSpeaking (this w)) eqn:Hs; [|by destruct Hu; apply H2].
  subst w1. simpl. by rewrite Hs.
Qed.

Lemma stopListening_ok_witness :
  let w := exec startListening init in
  let w' := exec stopListening w in
  isListening (this w') = false /\
  recognition (env w')
  = match recognition (env w) with RecCapturing => RecStopping | r => r end /\
  announced w' = announced w ++ [[T "语音控制已关闭"]] /\
  (utterances (env w) <> [] -> utterances (env w') = utterances (env w)) /\
  dom w' = log_page [T "语音控制已关闭"] "info" (dom w).
Proof.
  apply (stopListening_ok (exec startListening init)); [by vm_compute|].
  apply queue_step_startListening, init_queue_inv.
Defined.

(** C23: a restart of recognition is scheduled although a session is open:
    in the ordinary start (a click, then the end of the confirmation) the
    500 ms timer of the end of the utterance calls recognition.start() on the
    session startListening opened, which throws outside any try. *)
Theorem restart_on_open_session :
  exists w, run [EvStartClick; EvUtteranceEnd] init = Some w /\
    timers (env w) = [Timer CbRecognitionStart 500] /\
    (run_callback CbRecognitionStart w).1 = Thrown InvalidStateError.
Proof. eexists. split; [by vm_compute|]. by vm_compute. Qed.

(** C22: the page can stall: when the one utterance in the queue fails
    after the recognition session has ended, no timer is set and no session
    is open, while isListening still tells the user the page listens; only a
    focus event or a stop and start by hand wake it. *)
Theorem stall_reachable : exists w, reachable w /\ stalled w.
Proof.
  exists (default init (run [EvStartClick; EvEnd; EvUtteranceError] init)). split.
  - apply (run_reachable [EvStartClick; EvEnd; EvUtteranceError] init);
      [constructor|by vm_compute].
  - by vm_compute.
Qed.

(** C25: one recognition error schedules one restart, and only when the
    page listens and does not speak. *)
Theorem on_error_timers (code : list N) (w : world) :
  timers (env (exec (on_error code) w))
  = timers (env w) ++
    (if isListening (this w) && negb (isSpeaking (this w))
     then [Timer CbRecognitionStart 1000] else []).
Proof.
  unfold on_error, exec, mbind, M_bind. rewrite addLog_run. simpl.
  destruct (isListening (this w) && negb (isSpeaking (this w))); simpl; [done|].
  by rewrite app_nil_r.
Qed.

(** ** The queue drains *)

Lemma speak_all_speaking (texts : list template) (w : world) :
  isSpeaking (this w) = true ->
  speak_all texts w
  = World (set_speechQueue (speechQueue (this w) ++ texts) (this w)) (env w) (dom w).
Proof.
  revert w. induction texts as [|t texts IH]; intros w Hs; simpl.
  - rewrite app_nil_r. by destruct w as [[] e d].
  - fold (speak_all texts (exec (speak t) w)).
    assert (exec (speak t) w = pushed t w) as -> by (unfold exec; by rewrite speak_run, Hs).
    rewrite IH by done. unfold pushed. simpl. by rewrite <- app_assoc.
Qed.

Lemma step_utterance_end (w : world) (t : template) :
  utterances (env w) = [t] ->
  step EvUtteranceEnd w
  = Some (finished true (log_page (T "播报完成: " :: t) "info" (dom w))
            (World (this w) (set_utterances [] (env w)) (dom w))).
Proof. intros Hu. simpl. unfold synth_finish, exec. by rewrite Hu, utterance_onend_run. Qed.

Lemma step_timer_queue (w : world) (tms : list timer) (ms : nat) :
  timers (env w) = Timer CbProcessQueue ms :: tms ->
  step (EvTimer 0) w = Some (drained (World (this w) (set_timers tms (env w)) (dom w))).
Proof. intros Ht. simpl. rewrite Ht. simpl. unfold exec. by rewrite processSpeechQueue_run. Qed.

Lemma run_cons (ev : event) (evs : list event) (w w1 : world) :
  step ev w = Some w1 -> run (ev :: evs) w = run evs w1.
Proof. intros Hs. simpl. by rewrite Hs. Qed.

Lemma drain_speaking (ps : list template) :
  forall (t : template) (w : world),
    isSpeaking (this w) = true -> speechQueue (this w) = t :: ps ->
    utterances (env w) = [t] -> timers (env w) = [] -> isListening (this w) = false ->
    exists w', run (drain_events (S (length ps))) w = Some w' /\
      spoken w' = spoken w ++ ps /\ quiet w'.
Proof.
  induction ps as [|t' ps IH]; intros t w Hs Hq Hu Ht Hl.
  - cbn [length drain_events replicate concat].
    rewrite (run_cons _ _ _ _ (step_utterance_end w t Hu)).
    eexists. split; [done|]. unfold quiet, finished, spoken. simpl.
    rewrite Hq, Hl, Ht, app_nil_r. done.
  - change (drain_events (S (length (t' :: ps))))
      with (EvUtteranceEnd :: EvTimer 0 :: drain_events (S (length ps))).
    rewrite (run_cons _ _ _ _ (step_utterance_end w t Hu)).
    match goal with |- context [run _ ?w1] =>
      assert (timers (env w1) = [Timer CbProcessQueue 300]) as Ht1
        by (unfold finished; simpl; by rewrite Hq, Ht);
      rewrite (run_cons _ _ _ _ (step_timer_queue w1 [] 300 Ht1))
    end.
    match goal with |- context [run _ ?w2] =>
      assert (spoken w2 = spoken w ++ [t']) as Hsp2
        by (unfold drained, finished, spoken; simpl; rewrite Hq; simpl;
            rewrite !omap_app; simpl; by rewrite !app_nil_r);
      destruct (IH t' w2) as (w' & Hr & Hsp & Hquiet);
        [unfold drained, finished; simpl; rewrite Hq; by simpl..|]
    end.
    exists w'. split; [done|]. split; [|done]. by rewrite Hsp, Hsp2, <- app_assoc.
Qed.

(** C7: texts given to speak while the queue is quiet are all spoken, in
    the order given, one after the other, when the engine ends each
    utterance and the timers fire; the queue is quiet again afterwards. *)
Theorem queue_drains (texts : list template) (w : world) :
  quiet w ->
  exists w', run (drain_events (length texts)) (speak_all texts w) = Some w' /\
    spoken w' = spoken w ++ texts /\ quiet w'.
Proof.
  intros (Hs & Hq & Hu & Ht & Hl). destruct texts as [|t texts].
  - exists w. simpl. by rewrite app_nil_r.
  - cbn [speak_all foldl]. fold (speak_all texts (exec (speak t) w)).
    assert (exec (speak t) w = say t (pushed t w)) as ->
      by (unfold exec; rewrite speak_run, Hs; unfold drained, pushed; simpl;
          by rewrite Hs, Hq).
    rewrite speak_all_speaking by done.
    match goal with |- context [run _ ?w2] =>
      assert (spoken w2 = spoken w ++ [t]) as Hsp2
        by (unfold spoken; simpl; rewrite !omap_app; simpl; by rewrite !app_nil_r);
      destruct (drain_speaking texts t w2) as (w' & Hr & Hsp & Hquiet);
        [simpl; by rewrite ?Hq, ?Ht, ?Hl..|]
    end.
    exists w'. split; [done|]. split; [|done]. by rewrite Hsp, Hsp2, <- app_assoc.
Qed.

Lemma queue_drains_witness :
  exists w', run (drain_events 3) (speak_all [[T "A"]; [T "B"]; [T "C"]] init) = Some w' /\
    spoken w' = spoken init ++ [[T "A"]; [T "B"]; [T "C"]] /\ quiet w'.
Proof. apply (queue_drains [[T "A"]; [T "B"]; [T "C"]] init). by repeat split. Defined.
