(* ===== verification/Frame.v ===== *)
(** * Frame: what no event can undo

    Some facts about the page hold because no listener of src/speech.js ever
    writes the fields they speak of in the wrong way, whatever the engines
    do.  This file states that once for all such facts: a relation between
    two states is a [Frame] when the primitive writes of the code respect it
    (a write to a flag or to the queue, a write to one of the two remembered
    parameters, any change of the engines, a write to the page outside the
    log, addLog and createLogBox).  Every method of the class then respects
    it, and so does every event the browser delivers ([frame_step],
    [frame_run]).

    Two instances: the parameters lastSetDistance and lastSetAngle, once
    set, are never cleared; once the log box exists it stays, is never
    missed by addLog, and holds ten entries at most.  With the first click
    on start creating the box before anything else happens, the second gives
    an invariant of all reachable states.

    The file ends with one more way the page leaves its design: a restart
    of recognition that was scheduled before stopListening still fires
    after it. *)

From Stdlib Require Import ZArith NArith QArith Lia String.
From stdpp Require Import base tactics option list numbers.
From S2P Require Import Prelude World Log SpeechQueue Command Arbiter.

(** ** Frames *)

(** A write to the object that leaves the two parameters alone. *)
Definition keeps_params (f : SpeechHandler -> SpeechHandler) : Prop :=
  forall h, lastSetDistance (f h) = lastSetDistance h /\ lastSetAngle (f h) = lastSetAngle h.

(** A write to the page that leaves the log box and the console alone. *)
Definition keeps_log (f : page -> page) : Prop :=
  forall d, logContent (f d) = logContent d /\ console (f d) = console d.

Class Frame (R : relation world) : Prop := {
  #[global] frame_preorder :: PreOrder R;
  frame_this f : keeps_params f -> obeys R (modify_this f);
  frame_distance d : obeys R (modify_this (set_lastSetDistance (Some d)));
  frame_angle a : obeys R (modify_this (set_lastSetAngle (Some a)));
  frame_env f : obeys R (modify_env f);
  frame_dom f : keeps_log f -> obeys R (modify_dom f);
  frame_addLog text type : obeys R (addLog text type);
  frame_createLogBox : obeys R createLogBox }.

(** A computation that changes the engines at most. *)
Definition env_only {A} (m : M A) : Prop :=
  forall w, this (exec m w) = this w /\ dom (exec m w) = dom w.

(** ** The two instances *)

(** A parameter that is set stays set. *)
Definition params_kept : relation world := fun w w' =>
  (is_Some (lastSetDistance (this w)) -> is_Some (lastSetDistance (this w'))) /\
  (is_Some (lastSetAngle (this w)) -> is_Some (lastSetAngle (this w'))).

(** The log box exists with ten entries at most, and addLog never missed it. *)
Definition page_ready (d : page) : Prop :=
  exists children, logContent d = Some children /\ length children <= 10 /\ console d = [].

Definition log_ready (w : world) : Prop := page_ready (dom w).

(** Nothing has been asked of the engines yet, and nothing logged. *)
Definition untouched (w : world) : Prop :=
  isListening (this w) = false /\ env w = new_browser /\
  logContent (dom w) = None /\ console (dom w) = [].

(** ** After stopListening *)

(** The microphone captures although the user has turned voice control off. *)
Definition captures_unasked (w : world) : Prop :=
  isListening (this w) = false /\ recognition (env w) = RecCapturing.

(** The calls of recognition.start() so far, and the restarts scheduled. *)
Definition starts (w : world) : list call :=
  filter (fun c => c = CRecognitionStart) (calls (env w)).

Definition restarts (w : world) : list timer :=
  filter (fun tm => timer_cb tm = CbRecognitionStart) (timers (env w)).

(** Nothing was started or scheduled, and the intent is as it was. *)
Definition no_start : relation world := fun w w' =>
  isListening (this w') = isListening (this w) /\
  starts w' = starts w /\ restarts w' = restarts w.

(** [m] starts nothing while voice control is off. *)
Definition off_kept {A} (m : M A) : Prop :=
  forall w, isListening (this w) = false -> no_start w (exec m w).

(** What holds of the log in every state. *)
Definition log_inv (w : world) : Prop := untouched w \/ log_ready w.

(** ** Every method respects a frame *)

Ltac frame_leaf :=
  first
  [ apply frame_distance | apply frame_angle
  | apply frame_this; by intros []
  | apply frame_env
  | apply frame_dom; by intros []
  | apply frame_addLog | apply frame_createLogBox
  | apply obeys_get_this; apply _ | apply obeys_get_dom; apply _
  | apply obeys_ret; apply _ | apply obeys_throw; apply _
  | solve [eauto with js] ].

Ltac solve_frame := solve_obeys_with frame_leaf.

Section frame.
Context (R : relation world) `{!Frame R}.

Lemma frame_env_only {A} (m : M A) : env_only m -> obeys R m.
Proof.
  intros Hm w. destruct (Hm w) as [Ht Hd].
  replace (exec m w) with (World (this w) (env (exec m w)) (dom w))
    by (destruct (exec m w); simpl in *; congruence).
  apply (frame_env (fun _ => env (exec m w)) w).
Qed.

Lemma frame_recognition_start : obeys R recognition_start.
Proof. apply frame_env_only. intros w. destruct_world w. by destruct rec. Qed.

Lemma frame_recognition_stop : obeys R recognition_stop.
Proof. apply frame_env_only. intros w. destruct_world w. by destruct rec. Qed.

Lemma frame_synth_cancel : obeys R synth_cancel.
Proof. by apply frame_env_only. Qed.

Lemma frame_synth_speak (t : template) : obeys R (synth_speak t).
Proof. by apply frame_env_only. Qed.

Lemma frame_set_timeout (cb : callback) (ms : nat) : obeys R (set_timeout cb ms).
Proof. apply frame_env. Qed.

Lemma frame_click (b : button) : obeys R (click b).
Proof. apply frame_dom. by intros []. Qed.

Hint Resolve frame_recognition_start frame_recognition_stop frame_synth_cancel
  frame_synth_speak frame_set_timeout frame_click : js.

Lemma frame_processSpeechQueue : obeys R processSpeechQueue.
Proof.
  unfold processSpeechQueue. apply obeys_bind; [apply _|frame_leaf|]. intros h.
  destruct (speechQueue h); solve_frame.
Qed.

Hint Resolve frame_processSpeechQueue : js.

Lemma frame_shift : obeys R shift.
Proof. unfold shift. solve_frame. Qed.

Hint Resolve frame_shift : js.

Lemma frame_utterance_onend (text : template) : obeys R (utterance_onend text).
Proof. unfold utterance_onend. solve_frame. Qed.

Lemma frame_utterance_onerror : obeys R utterance_onerror.
Proof. unfold utterance_onerror. solve_frame. Qed.

Lemma frame_speak (text : template) : obeys R (speak text).
Proof. unfold speak. solve_frame. Qed.

Hint Resolve frame_utterance_onend frame_utterance_onerror frame_speak : js.

Lemma frame_checkAndCalculate : obeys R checkAndCalculate.
Proof. unfold checkAndCalculate. solve_frame. Qed.

Hint Resolve frame_checkAndCalculate : js.

Lemma frame_processCommand (transcript : list N) : obeys R (processCommand transcript).
Proof.
  unfold processCommand, distance_command, angle_command.
  repeat case_match; solve_frame.
Qed.

Lemma frame_read_results : obeys R read_results.
Proof.
  unfold read_results. apply obeys_bind; [apply _|frame_leaf|]. intros d.
  destruct (results d); solve_frame.
Qed.

Hint Resolve frame_processCommand frame_read_results : js.

Lemma frame_startListening : obeys R startListening.
Proof. unfold startListening. solve_frame. Qed.

Lemma frame_stopListening : obeys R stopListening.
Proof. unfold stopListening. solve_frame. Qed.

Hint Resolve frame_startListening frame_stopListening : js.

Lemma frame_listener (ev : event) :
  match ev with
  | EvStartClick => obeys R startListening
  | EvStopClick => obeys R stopListening
  | EvKeydown altKey key => obeys R (on_keydown altKey key)
  | EvFocus => obeys R on_focus
  | EvBlur => obeys R on_blur
  | EvResult raw => obeys R (on_result raw)
  | EvEnd => obeys R on_end
  | EvError code => obeys R (on_error code)
  | EvTimer _ => forall cb, obeys R (run_callback cb)
  | _ => True
  end.
Proof.
  destruct ev; try done;
    try match goal with |- forall cb : callback, _ => intros [] end;
    unfold on_keydown, on_focus, on_blur, on_result, on_end, on_error, run_callback;
    solve_frame.
Qed.

(** The engines' side of an event. *)
Lemma frame_engines (w : world) (e : browser) : R w (World (this w) e (dom w)).
Proof. apply (frame_env (fun _ => e) w). Qed.

Lemma frame_step (ev : event) (w w' : world) : step ev w = Some w' -> R w w'.
Proof.
  pose proof (frame_listener ev) as Hev.
  destruct ev; simpl; try (destruct (session_open w); [|done]); intros Hs;
    simplify_eq; try apply Hev.
  - etrans; [apply (frame_engines w)|apply Hev].
  - etrans; [apply (frame_engines w)|apply Hev].
  - etrans; [apply (frame_engines w)|apply Hev].
  - unfold synth_finish in Hs. destruct (utterances (env w)); simplify_eq.
    etrans; [apply (frame_engines w)|apply frame_utterance_onend].
  - unfold synth_finish in Hs. destruct (utterances (env w)); simplify_eq.
    etrans; [apply (frame_engines w)|apply frame_utterance_onerror].
  - destruct (timers (env w) !! i) as [tm|]; simplify_eq/=.
    etrans; [apply (frame_engines w)|apply Hev].
  - apply (frame_dom (set_results text)). by intros [].
Qed.

Lemma frame_run (evs : list event) (w w' : world) : run evs w = Some w' -> R w w'.
Proof.
  revert w. induction evs as [|ev evs IH]; intros w Hr; simplify_eq/=; [done|].
  destruct (step ev w) as [w1|] eqn:Hs; simplify_eq/=.
  etrans; [by apply (frame_step ev)|by apply IH].
Qed.

End frame.

(** ** The parameters are never cleared *)

#[export] Instance params_kept_preorder : PreOrder params_kept.
Proof. split; [by intros w|]. intros w1 w2 w3 [? ?] [? ?]. split; auto. Qed.

#[export] Instance params_kept_frame : Frame params_kept.
Proof.
  split; [apply _|..].
  - intros f Hf w. unfold params_kept, exec. simpl. by destruct (Hf (this w)) as [-> ->].
  - intros d w. split; simpl; [by eexists|done].
  - intros a w. split; simpl; [done|by eexists].
  - by intros f w.
  - by intros f _ w.
  - intros text type w. unfold exec. by rewrite addLog_run.
  - intros w. unfold exec. by rewrite createLogBox_run.
Qed.

(** C13: the remembered parameters are never cleared: over any sequence of
    events, from any state, a distance that is remembered at the start is
    remembered at the end, and so is an angle.  Once both are known, every
    later command that sets one of them calculates. *)
Theorem params_never_cleared (evs : list event) (w w' : world) :
  run evs w = Some w' ->
  (is_Some (lastSetDistance (this w)) -> is_Some (lastSetDistance (this w'))) /\
  (is_Some (lastSetAngle (this w)) -> is_Some (lastSetAngle (this w'))).
Proof. apply (frame_run params_kept). Qed.

Lemma params_never_cleared_witness :
  let w := default init (run [EvStartClick; EvResult (js "距离150米")] init) in
  let w' := default init (run [EvStopClick; EvEnd; EvUtteranceEnd; EvStartClick] w) in
  (is_Some (lastSetDistance (this w)) -> is_Some (lastSetDistance (this w'))) /\
  (is_Some (lastSetAngle (this w)) -> is_Some (lastSetAngle (this w'))).
Proof.
  apply (params_never_cleared [EvStopClick; EvEnd; EvUtteranceEnd; EvStartClick]).
  by vm_compute.
Defined.

(** ** The log box *)

Lemma page_ready_fresh (d : page) : console d = [] -> page_ready (fresh_log_page d).
Proof. intros Hc. eexists. split; [done|]. split; [simpl; lia|done]. Qed.

Lemma page_ready_log (text : template) (type : string) (d : page) :
  page_ready d -> page_ready (log_page text type d).
Proof.
  intros (l & Hl & Hb & Hc). unfold log_page. rewrite Hl. eexists. split; [done|].
  split; [|done]. rewrite length_take. lia.
Qed.

#[export] Instance log_ready_frame : Frame (kept log_ready).
Proof.
  split; [apply _|..]; try by intros; intros w Hw.
  - intros f Hf w (l & Hl & Hb & Hc). exists l. simpl.
    by destruct (Hf (dom w)) as [-> ->].
  - intros text type w Hw. unfold exec. rewrite addLog_run. by apply page_ready_log.
  - intros w (l & Hl & Hb & Hc). unfold exec. rewrite createLogBox_run.
    by apply page_ready_fresh.
Qed.

(** startListening creates the log box before it does anything else. *)
Lemma startListening_log_ready (w : world) :
  isListening (this w) = false -> console (dom w) = [] ->
  log_ready (exec startListening w).
Proof.
  intros Hl Hc. rewrite startListening_run, Hl. unfold log_ready.
  destruct (lastWindowFocus (this w) && session_open w);
    unfold start_failed, start_done; simpl; apply page_ready_log;
    rewrite ?speak_dom; destruct (lastWindowFocus (this w)); by apply page_ready_fresh.
Qed.

Lemma log_inv_startListening : obeys (kept log_inv) startListening.
Proof.
  intros w [(Hl & _ & _ & Hc)|Hw]; right; [by apply startListening_log_ready|].
  by apply (frame_startListening (kept log_ready)).
Qed.

(** A listener that does nothing while the page does not listen. *)
Lemma log_inv_idle {A} (m : M A) :
  obeys (kept log_ready) m ->
  (forall w, isListening (this w) = false ->
     isListening (this (exec m w)) = false /\ env (exec m w) = env w /\ dom (exec m w) = dom w) ->
  obeys (kept log_inv) m.
Proof.
  intros Hm Hidle w [(Hl & He & Hb & Hc)|Hw]; [left|right; by apply Hm].
  destruct (Hidle w Hl) as (Hl' & He' & Hd'). unfold untouched. by rewrite Hl', He', Hd'.
Qed.

Lemma log_inv_stopListening : obeys (kept log_inv) stopListening.
Proof.
  apply log_inv_idle; [apply (frame_stopListening (kept log_ready))|].
  intros w Hl. unfold stopListening. rewrite exec_bind. simpl. by rewrite Hl.
Qed.

Lemma log_inv_on_focus : obeys (kept log_inv) on_focus.
Proof.
  apply log_inv_idle; [apply (frame_listener (kept log_ready) EvFocus)|].
  intros w Hl. unfold on_focus. rewrite exec_bind. simpl. rewrite exec_bind. simpl.
  by rewrite Hl.
Qed.

Lemma log_inv_on_blur : obeys (kept log_inv) on_blur.
Proof.
  apply log_inv_idle; [apply (frame_listener (kept log_ready) EvBlur)|].
  intros w Hl. unfold on_blur. rewrite exec_bind. simpl. rewrite exec_bind. simpl.
  by rewrite Hl.
Qed.

Lemma log_inv_on_keydown (altKey : bool) (key : list N) :
  obeys (kept log_inv) (on_keydown altKey key).
Proof.
  unfold on_keydown.
  solve_obeys_with ltac:(first [apply log_inv_startListening
    | apply log_inv_stopListening | apply obeys_ret; apply _]).
Qed.

Lemma untouched_closed (w : world) :
  untouched w -> session_open w = false /\ utterances (env w) = [] /\ timers (env w) = [].
Proof. intros (_ & He & _). unfold session_open. by rewrite !He. Qed.

Lemma step_log_inv (ev : event) (w w' : world) :
  step ev w = Some w' -> log_inv w -> log_inv w'.
Proof.
  intros Hs [Hu|Hw]; [|right; by apply (frame_step (kept log_ready) ev w w' Hs)].
  destruct (untouched_closed w Hu) as (Ho & Hut & Htm).
  destruct ev; simpl in Hs; rewrite ?Ho in Hs; unfold synth_finish in Hs;
    rewrite ?Hut, ?Htm in Hs; simplify_eq.
  - apply log_inv_startListening. by left.
  - apply log_inv_stopListening. by left.
  - apply log_inv_on_keydown. by left.
  - apply log_inv_on_focus. by left.
  - apply log_inv_on_blur. by left.
  - left. destruct Hu as (? & ? & ? & ?). by repeat split.
Qed.

Lemma reachable_log_inv (w : world) : reachable w -> log_inv w.
Proof.
  induction 1 as [|w ev w' _ IH Hs]; [by left|]. by apply (step_log_inv ev w).
Qed.

(** C12: addLog never misses the log box: in every state the page can
    reach, nothing was written to the console, the panel shows ten entries at
    most, and as long as there is no log box nothing has been asked of the
    engines. *)
Theorem reachable_log (w : world) :
  reachable w ->
  console (dom w) = [] /\ log_bounded w /\ (logContent (dom w) = None -> env w = new_browser).
Proof.
  intros [(_ & He & Hb & Hc)|(l & Hl & Hb & Hc)]%reachable_log_inv.
  - split; [done|]. split; [|done]. intros l. by rewrite Hb.
  - split; [done|]. split; [|by rewrite Hl]. intros l'. rewrite Hl. by intros [= <-].
Qed.

Lemma reachable_log_witness :
  let w := default init (run [EvStartClick; EvResult (js "距离150米"); EvStopClick] init) in
  console (dom w) = [] /\ log_bounded w /\ (logContent (dom w) = None -> env w = new_browser).
Proof.
  apply reachable_log.
  apply (run_reachable [EvStartClick; EvResult (js "距离150米"); EvStopClick] init);
    [constructor|by vm_compute].
Defined.

(** ** Off means off, for the listeners *)

#[export] Instance no_start_preorder : PreOrder no_start.
Proof.
  split; [by intros w|]. intros w1 w2 w3 (? & ? & ?) (? & ? & ?).
  unfold no_start. split; [|split]; congruence.
Qed.

#[export] Instance no_start_proper : Proper (eq ==> core_eq ==> iff) no_start.
Proof. intros w ? <- w1 w2 [Ht He]. unfold no_start, starts, restarts. by rewrite Ht, He. Qed.

Section no_start.

Lemma no_start_this (f : SpeechHandler -> SpeechHandler) :
  (forall h, isListening (f h) = isListening h) -> obeys no_start (modify_this f).
Proof. intros Hf w. split; [apply Hf|done]. Qed.

Lemma no_start_env (f : browser -> browser) :
  (forall e, calls (f e) = calls e /\ timers (f e) = timers e) ->
  obeys no_start (modify_env f).
Proof.
  intros Hf w. unfold no_start, starts, restarts, exec. simpl.
  by destruct (Hf (env w)) as [-> ->].
Qed.

Lemma no_start_emit (c : call) : c <> CRecognitionStart -> obeys no_start (emit c).
Proof.
  intros Hc w. unfold no_start, starts, exec, emit. simpl.
  by rewrite list.filter_app, list.filter_cons_False, list.filter_nil, app_nil_r.
Qed.

Lemma no_start_set_timeout (cb : callback) (ms : nat) :
  cb <> CbRecognitionStart -> obeys no_start (set_timeout cb ms).
Proof.
  intros Hc w. unfold no_start, restarts, exec, set_timeout. simpl.
  by rewrite list.filter_app, list.filter_cons_False, list.filter_nil, app_nil_r.
Qed.

Lemma no_start_page_only {A} (m : M A) : page_only m -> obeys no_start m.
Proof. apply (page_only_obeys no_start). Qed.

Ltac no_start_leaf :=
  first
  [ apply no_start_this; by intros []
  | apply no_start_env; by intros []
  | apply no_start_emit; done
  | apply no_start_set_timeout; done
  | apply no_start_page_only; solve [eauto with js]
  | solve [eauto with js] ].

Ltac solve_no_start := solve_obeys_with no_start_leaf.

Lemma no_start_processSpeechQueue : obeys no_start processSpeechQueue.
Proof.
  unfold processSpeechQueue. apply obeys_bind; [apply _|no_start_leaf|]. intros h.
  destruct (speechQueue h); unfold synth_cancel, synth_speak; solve_no_start.
Qed.

Hint Resolve no_start_processSpeechQueue : js.

Lemma no_start_speak (text : template) : obeys no_start (speak text).
Proof. unfold speak. solve_no_start. Qed.

Hint Resolve no_start_speak : js.

Lemma no_start_checkAndCalculate : obeys no_start checkAndCalculate.
Proof. unfold checkAndCalculate. solve_no_start. Qed.

Hint Resolve no_start_checkAndCalculate : js.

Lemma no_start_on_result (raw : list N) : obeys no_start (on_result raw).
Proof.
  unfold on_result, processCommand, distance_command, angle_command.
  repeat case_match; solve_no_start.
Qed.

Lemma no_start_engines (w : world) (e : browser) :
  calls e = calls (env w) -> timers e = timers (env w) ->
  no_start w (World (this w) e (dom w)).
Proof. intros Hc Ht. unfold no_start, starts, restarts. simpl. by rewrite Hc, Ht. Qed.

Lemma off_kept_obeys {A} (m : M A) : obeys no_start m -> off_kept m.
Proof. by intros Hm w _. Qed.

Lemma off_kept_stopListening : off_kept stopListening.
Proof. intros w Hl. unfold stopListening. rewrite exec_bind. simpl. by rewrite Hl. Qed.

Lemma off_kept_on_focus : off_kept on_focus.
Proof.
  intros w Hl. unfold on_focus. rewrite exec_bind. simpl. rewrite exec_bind. simpl.
  by rewrite Hl.
Qed.

Lemma off_kept_on_blur : off_kept on_blur.
Proof.
  intros w Hl. unfold on_blur. rewrite exec_bind. simpl. rewrite exec_bind. simpl.
  by rewrite Hl.
Qed.

Lemma off_kept_on_end : off_kept on_end.
Proof. intros w Hl. unfold on_end. rewrite exec_bind. simpl. by rewrite Hl. Qed.

Lemma off_kept_on_error (code : list N) : off_kept (on_error code).
Proof.
  intros w Hl. unfold on_error, exec, mbind, M_bind. rewrite addLog_run. simpl.
  by rewrite Hl.
Qed.

(** The end of an utterance, good or bad, while voice control is off. *)
Lemma off_kept_finished (resume : bool) (d : page) (w : world) :
  isListening (this w) = false -> no_start w (finished resume d w).
Proof.
  intros Hl. unfold no_start, starts, restarts, finished. simpl. rewrite Hl, andb_false_r.
  split; [done|]. split; [done|]. rewrite list.filter_app.
  destruct (0 <? _);
    by rewrite ?list.filter_cons_False, ?list.filter_nil, app_nil_r.
Qed.

Lemma off_kept_synth_finish (ok : bool) (w w' : world) :
  isListening (this w) = false -> synth_finish ok w = Some w' -> no_start w w'.
Proof.
  intros Hl (t & us & d & Hu & ->)%synth_finish_run.
  trans (World (this w) (set_utterances us (env w)) (dom w));
    [by apply no_start_engines|by apply off_kept_finished].
Qed.

End no_start.

(** C11: off means off, as far as the listeners go: while isListening is
    false, no event other than a start by the user or a timer calls
    recognition.start(), schedules a call of it, or sets isListening. *)
Theorem off_holds (ev : event) (w w' : world) :
  isListening (this w) = false -> guarded ev = true -> step ev w = Some w' ->
  isListening (this w') = false /\ starts w' = starts w /\ restarts w' = restarts w.
Proof.
  intros Hl Hg Hs. cut (no_start w w'); [intros (-> & ? & ?); by rewrite Hl|].
  destruct ev; simpl in *; try done; try (destruct (session_open w); [|done]);
    simplify_eq.
  - by apply off_kept_stopListening.
  - apply negb_true_iff in Hg. rewrite (on_keydown_other _ _ _ Hg).
    destruct (altKey && _); [by apply off_kept_stopListening|done].
  - by apply off_kept_on_focus.
  - by apply off_kept_on_blur.
  - trans (with_recognition RecStopping w);
      [by apply no_start_engines|apply no_start_on_result].
  - trans (with_recognition RecIdle w);
      [by apply no_start_engines|by apply off_kept_on_end].
  - trans (with_recognition RecStopping w);
      [by apply no_start_engines|by apply off_kept_on_error].
  - by apply (off_kept_synth_finish true).
  - by apply (off_kept_synth_finish false).
  - by apply (no_start_engines w).
Qed.

Lemma off_holds_witness :
  let w := default init (run [EvStartClick; EvStopClick] init) in
  let w' := default init (step EvEnd w) in
  isListening (this w') = false /\ starts w' = starts w /\ restarts w' = restarts w.
Proof. apply (off_holds EvEnd); by vm_compute. Defined.

(** ** A restart that outlives the stop *)

(** C21: stopListening does not cancel a restart of recognition that is
    already scheduled: the page can reach a state where voice control is off
    and the microphone captures, and the command heard then is carried out. *)
Theorem capture_after_stop :
  exists w w', reachable w /\ captures_unasked w /\
    step (EvResult (js "距离150米")) w = Some w' /\ inputD (dom w') = Some 150%Q.
Proof.
  exists (default init
    (run [EvStartClick; EvUtteranceEnd; EvStopClick; EvEnd; EvTimer 0] init)).
  eexists. split; [|split; [by vm_compute|split; by vm_compute]].
  apply (run_reachable [EvStartClick; EvUtteranceEnd; EvStopClick; EvEnd; EvTimer 0] init);
    [constructor|by vm_compute].
Qed.
